(** * WebPaper: record recovery, quality filter and near-duplicate removal

    A shallow embedding of three modules of the repository,

    - [integrated_filter/extractor.py]  (class JSONStreamParser, process_file),
    - [cleaning.py]                     (class AcademicContentFilter),
    - [deduplication.py]                (get_minhash, deduplicate_texts),

    together with the properties the specification states about them.

    Conventions.  A Python [str] is a list of Unicode code points ([pystr]);
    Python [None] returned where a JSON value may be returned is [JNull];
    Python exceptions are values of [exn] carried by [result].  Library code
    the repository only calls (the [json] decoder, [nltk], the [re] engine,
    [datasketch]) is either modelled after its documented behaviour in a
    clearly marked definition or taken as the member of a class
    ([Cleaning.Library], [Dedup.Datasketch]) that the statements quantify
    over. *)

From Stdlib Require Import ZArith NArith QArith.
From stdpp Require Import gmap list strings.

Close Scope Q_scope.
Open Scope N_scope.
Set Warnings "-register-all".

(* ===================================================================== *)
(** ** Python strings *)
(* ===================================================================== *)

Definition pystr : Type := list N.

(** An ASCII literal as a Python string. *)
Fixpoint str (s : string) : pystr :=
  match s with
  | EmptyString => []
  | String a s' => Ascii.N_of_ascii a :: str s'
  end.

Definition DQUOTE : N := 34.
Definition SQUOTE : N := 39.
Definition COMMA : N := 44.
Definition COLON : N := 58.
Definition BACKSLASH : N := 92.
Definition LBRACE : N := 123.
Definition RBRACE : N := 125.
Definition LBRACKET : N := 91.
Definition RBRACKET : N := 93.
Definition NEWLINE : N := 10.
Definition LEFT_CURLY_QUOTE : N := 8220.
Definition RIGHT_CURLY_QUOTE : N := 8221.

(** [q s] is the literal [s] between two double quotes. *)
Definition q (s : string) : pystr := DQUOTE :: str s ++ [DQUOTE].

(** [str.isspace] on one code point; the same predicate backs [str.strip],
    [str.split] and the class [\s] of a [str] pattern. *)
Definition py_isspace (c : N) : bool :=
  ((9 <=? c) && (c <=? 13)) || ((28 <=? c) && (c <=? 32))
  || (c =? 133) || (c =? 160) || (c =? 5760)
  || ((8192 <=? c) && (c <=? 8202))
  || (c =? 8232) || (c =? 8233) || (c =? 8239) || (c =? 8287) || (c =? 12288).

(** Drop the longest prefix whose characters satisfy [p]. *)
Fixpoint skip (p : N -> bool) (s : pystr) : pystr :=
  match s with
  | [] => []
  | c :: s' => if p c then skip p s' else s
  end.

(** [s.strip()]. *)
Definition strip (s : pystr) : pystr :=
  rev (skip py_isspace (rev (skip py_isspace s))).

(** [s.count(c)] for a one-character [c]. *)
Fixpoint count (c : N) (s : pystr) : nat :=
  match s with
  | [] => 0%nat
  | x :: s' => (if x =? c then S (count c s') else count c s')
  end.

(** [s.startswith(p)]. *)
Fixpoint startswith (p s : pystr) : bool :=
  match p, s with
  | [], _ => true
  | _ :: _, [] => false
  | a :: p', b :: s' => (a =? b) && startswith p' s'
  end.

(** [p in s] for strings. *)
Fixpoint contains (p s : pystr) : bool :=
  startswith p s ||
  match s with
  | [] => false
  | _ :: s' => contains p s'
  end.

(** [s.replace(old, new)] for a non-empty [old]: leftmost occurrences,
    without overlap.  [pending] counts the characters of the occurrence being
    replaced that are still to be dropped. *)
Fixpoint replace_from (old new : pystr) (pending : nat) (s : pystr) : pystr :=
  match s with
  | [] => []
  | c :: s' =>
      match pending with
      | S k => replace_from old new k s'
      | O =>
          if startswith old s
          then new ++ replace_from old new (length old - 1)%nat s'
          else c :: replace_from old new 0 s'
      end
  end.

Definition replace (old new s : pystr) : pystr := replace_from old new 0 s.

(* ===================================================================== *)
(** ** Exceptions *)
(* ===================================================================== *)

(** The subclasses of Python's [Exception] that the modelled code can meet. *)
Inductive exn : Type :=
| ValueError
| ZeroDivisionError
| RuntimeError
| RecursionError
| LookupError
| AttributeError
| UnicodeEncodeError
| JSONDecodeError.

Inductive result (A : Type) : Type :=
| Ok (a : A)
| Raise (e : exn).
Arguments Ok {A} a.
Arguments Raise {A} e.

(** [result] is a monad: [x ← r; k] runs [k] unless [r] raised. *)
#[global] Instance result_ret : MRet result := fun _ a => Ok a.
#[global] Instance result_bind : MBind result := fun _ _ k r =>
  match r with
  | Ok a => k a
  | Raise e => Raise e
  end.

(* ===================================================================== *)
(** ** The JSON decoder used by the extractor *)
(* ===================================================================== *)

Module Json.

(** Values produced by [json.loads].  A number keeps its lexeme; an object
    keeps its pairs in source order, [dict_get] resolves duplicates the way
    [dict] does (the last pair wins). *)
Inductive json : Type :=
| JNull
| JBool (b : bool)
| JNumber (lexeme : pystr)
| JString (s : pystr)
| JArray (items : list json)
| JObject (pairs : list (pystr * json)).

(** Whitespace of the JSON grammar: space, tab, newline, carriage return. *)
Definition json_ws (c : N) : bool :=
  (c =? 32) || (c =? 9) || (c =? 10) || (c =? 13).

Definition is_digit (c : N) : bool := (48 <=? c) && (c <=? 57).

Definition hex_digit (c : N) : option N :=
  if (48 <=? c) && (c <=? 57) then Some (c - 48)
  else if (65 <=? c) && (c <=? 70) then Some (c - 55)
  else if (97 <=? c) && (c <=? 102) then Some (c - 87)
  else None.

Definition hex4 (a b c d : N) : option N :=
  match hex_digit a, hex_digit b, hex_digit c, hex_digit d with
  | Some x, Some y, Some z, Some w => Some (((x * 16 + y) * 16 + z) * 16 + w)
  | _, _, _, _ => None
  end.

(** The one-letter escapes of a JSON string. *)
Definition simple_escape (e : N) : option N :=
  if e =? 34 then Some 34
  else if e =? 92 then Some 92
  else if e =? 47 then Some 47
  else if e =? 98 then Some 8
  else if e =? 102 then Some 12
  else if e =? 110 then Some 10
  else if e =? 114 then Some 13
  else if e =? 116 then Some 9
  else None.

(** The low half of a surrogate pair written as a second escape. *)
Definition low_surrogate (s : pystr) : option (N * pystr) :=
  match s with
  | b :: u :: k1 :: k2 :: k3 :: k4 :: rest =>
      if (b =? 92) && (u =? 117) then
        match hex4 k1 k2 k3 k4 with
        | Some lo => if (56320 <=? lo) && (lo <=? 57343) then Some (lo, rest) else None
        | None => None
        end
      else None
  | _ => None
  end.

(** The decoder's string scanner in strict mode; [s] starts just after the
    opening quote, [acc] holds the decoded characters in reverse. *)
Fixpoint scanstring (s : pystr) (acc : pystr) : option (pystr * pystr) :=
  match s with
  | [] => None
  | c :: s1 =>
      if c =? 34 then Some (rev acc, s1)
      else if c <? 32 then None
      else if c =? 92 then
        match s1 with
        | [] => None
        | e :: s2 =>
            if e =? 117 then
              match s2 with
              | h1 :: h2 :: h3 :: h4 :: s3 =>
                  match hex4 h1 h2 h3 h4 with
                  | None => None
                  | Some uni =>
                      if (55296 <=? uni) && (uni <=? 56319) then
                        match s3 with
                        | b :: u :: k1 :: k2 :: k3 :: k4 :: s4 =>
                            match low_surrogate s3 with
                            | Some (lo, _) =>
                                scanstring s4
                                  (65536 + (N.lor (N.shiftl (uni - 55296) 10) (lo - 56320)) :: acc)
                            | None => scanstring s3 (uni :: acc)
                            end
                        | _ => scanstring s3 (uni :: acc)
                        end
                      else scanstring s3 (uni :: acc)
                  end
              | _ => None
              end
            else
              match simple_escape e with
              | Some ch => scanstring s2 (ch :: acc)
              | None => None
              end
        end
      else scanstring s1 (c :: acc)
  end.

(** Longest run of digits at the head of [s], with the rest. *)
Fixpoint digits (s : pystr) : pystr * pystr :=
  match s with
  | c :: s' => if is_digit c then let '(d, r) := digits s' in (c :: d, r) else ([], s)
  | [] => ([], [])
  end.

(** The number pattern of the decoder:
    an optional minus, 0 or a run starting with 1-9, an optional fraction and
    an optional exponent.  Returns the lexeme and the rest. *)
Definition scan_int (s : pystr) : option (pystr * pystr) :=
  let '(sign, s1) :=
    match s with
    | c :: t => if c =? 45 then ([45], t) else ([], s)
    | [] => ([], s)
    end in
  match s1 with
  | c :: t =>
      if c =? 48 then Some (sign ++ [48], t)
      else if is_digit c then let '(d, r) := digits t in Some (sign ++ c :: d, r)
      else None
  | [] => None
  end.

Definition scan_frac (s : pystr) : pystr * pystr :=
  match s with
  | c :: t =>
      if c =? 46 then
        match digits t with
        | ([], _) => ([], s)
        | (d, r) => (46 :: d, r)
        end
      else ([], s)
  | [] => ([], s)
  end.

Definition scan_exp (s : pystr) : pystr * pystr :=
  match s with
  | e :: t =>
      if (e =? 101) || (e =? 69) then
        let '(sg, t1) :=
          match t with
          | c :: t' => if (c =? 45) || (c =? 43) then ([c], t') else ([], t)
          | [] => ([], t)
          end in
        match digits t1 with
        | ([], _) => ([], s)
        | (d, r) => (e :: sg ++ d, r)
        end
      else ([], s)
  | [] => ([], s)
  end.

Definition scan_number (s : pystr) : option (pystr * pystr) :=
  match scan_int s with
  | None => None
  | Some (i, s1) =>
      let '(f, s2) := scan_frac s1 in
      let '(e, s3) := scan_exp s2 in
      Some (i ++ f ++ e, s3)
  end.

(** [expect lit s]: the rest of [s] after the literal [lit], if it is there. *)
Fixpoint expect (lit s : pystr) : option pystr :=
  match lit, s with
  | [], _ => Some s
  | _ :: _, [] => None
  | a :: lit', b :: s' => if a =? b then expect lit' s' else None
  end.

(** The scanner.  [scan_once] reads one value; [scan_pairs] reads the pairs
    of an object from just after the opening quote of a key, up to and
    including the closing brace; [scan_items] reads the items of an array up
    to and including the closing bracket.  The fuel bounds the nesting. *)
Fixpoint scan_once (fuel : nat) (s : pystr) : option (json * pystr) :=
  match fuel with
  | O => None
  | S f =>
      match s with
      | [] => None
      | c :: s1 =>
          if c =? 34 then
            match scanstring s1 [] with
            | Some (v, r) => Some (JString v, r)
            | None => None
            end
          else if c =? 123 then
            match skip json_ws s1 with
            | d :: s2 =>
                if d =? 125 then Some (JObject [], s2)
                else if d =? 34 then
                  match scan_pairs f s2 [] with
                  | Some (kvs, r) => Some (JObject kvs, r)
                  | None => None
                  end
                else None
            | [] => None
            end
          else if c =? 91 then
            match skip json_ws s1 with
            | d :: s2 =>
                if d =? 93 then Some (JArray [], s2)
                else
                  match scan_items f (d :: s2) [] with
                  | Some (vs, r) => Some (JArray vs, r)
                  | None => None
                  end
            | [] => None
            end
          else
            match expect (str "null") s with
            | Some r => Some (JNull, r)
            | None =>
            match expect (str "true") s with
            | Some r => Some (JBool true, r)
            | None =>
            match expect (str "false") s with
            | Some r => Some (JBool false, r)
            | None =>
            match scan_number s with
            | Some (lex, r) => Some (JNumber lex, r)
            | None =>
            match expect (str "NaN") s with
            | Some r => Some (JNumber (str "NaN"), r)
            | None =>
            match expect (str "Infinity") s with
            | Some r => Some (JNumber (str "Infinity"), r)
            | None =>
            match expect (str "-Infinity") s with
            | Some r => Some (JNumber (str "-Infinity"), r)
            | None => None
            end end end end end end end
      end
  end
with scan_pairs (fuel : nat) (s : pystr) (acc : list (pystr * json))
  : option (list (pystr * json) * pystr) :=
  match fuel with
  | O => None
  | S f =>
      match scanstring s [] with
      | None => None
      | Some (key, s1) =>
          match skip json_ws s1 with
          | c :: s2 =>
              if c =? 58 then
                match scan_once f (skip json_ws s2) with
                | None => None
                | Some (v, s3) =>
                    match skip json_ws s3 with
                    | d :: s4 =>
                        if d =? 125 then Some (rev ((key, v) :: acc), s4)
                        else if d =? 44 then
                          match skip json_ws s4 with
                          | e :: s5 =>
                              if e =? 34 then scan_pairs f s5 ((key, v) :: acc)
                              else None
                          | [] => None
                          end
                        else None
                    | [] => None
                    end
                end
              else None
          | [] => None
          end
      end
  end
with scan_items (fuel : nat) (s : pystr) (acc : list json)
  : option (list json * pystr) :=
  match fuel with
  | O => None
  | S f =>
      match scan_once f s with
      | None => None
      | Some (v, s1) =>
          match skip json_ws s1 with
          | d :: s2 =>
              if d =? 93 then Some (rev (v :: acc), s2)
              else if d =? 44 then scan_items f (skip json_ws s2) (v :: acc)
              else None
          | [] => None
          end
      end
  end.

(** [json.loads s]: a leading byte-order mark is refused, whitespace around
    the single value is allowed, anything after it is an error.  Every
    decoding error is a [JSONDecodeError].  The fuel is above the length of
    the text, which is enough for every text (lemma [loads_fuel]); the
    limits of the interpreter (recursion depth, digits of an integer) are
    not modelled. *)
Definition loads (s : pystr) : result json :=
  if startswith [65279] s then Raise JSONDecodeError
  else
    match scan_once (2 * length s + 2)%nat (skip json_ws s) with
    | Some (v, r) =>
        match skip json_ws r with
        | [] => Ok v
        | _ :: _ => Raise JSONDecodeError
        end
    | None => Raise JSONDecodeError
    end.

(** [d.get(key, default)] on a decoded object. *)
Fixpoint dict_get (key : pystr) (pairs : list (pystr * json)) (default : json) : json :=
  match pairs with
  | [] => default
  | (k, v) :: rest =>
      dict_get key rest (if decide (k = key) then v else default)
  end.

End Json.

(* ===================================================================== *)
(** ** integrated_filter/extractor.py *)
(* ===================================================================== *)

Module Extractor.
Import Json.

(** The attributes of a [JSONStreamParser] object.  The messages the class
    prints are not part of the state. *)
Record JSONStreamParser : Type := mkParser {
  buffer : pystr;
  in_object : bool;
  object_count : Z;
  entry_count : nat;
  error_count : nat
}.

(** [JSONStreamParser.__init__]. *)
Definition init : JSONStreamParser :=
  {| buffer := []; in_object := false; object_count := 0%Z;
     entry_count := 0%nat; error_count := 0%nat |}.

(** The record-start pattern of [feed], anchored at the start of the line:
    whitespace, an opening brace, any run of whitespace and double quotes,
    the letters t e x t, an optional double or single quote, whitespace and
    a colon.  No step of the pattern can give back a character to a later
    one, so the match is a single left-to-right pass. *)
Definition record_start (line : pystr) : bool :=
  match skip py_isspace line with
  | c :: s1 =>
      (c =? LBRACE) &&
      match expect (str "text") (skip (fun x => py_isspace x || (x =? DQUOTE)) s1) with
      | None => false
      | Some s2 =>
          let s3 :=
            match s2 with
            | x :: t => if (x =? DQUOTE) || (x =? SQUOTE) then t else s2
            | [] => s2
            end in
          match skip py_isspace s3 with
          | d :: _ => d =? COLON
          | [] => false
          end
      end
  | [] => false
  end.

(** The four replacements of [_parse_buffer], in source order: both curly
    double quotes and the apostrophe become a double quote, then the
    six-character escape of the right single curly quote becomes an
    apostrophe. *)
Definition normalize_quotes (s : pystr) : pystr :=
  replace (BACKSLASH :: str "u2019") [SQUOTE]
    (replace [SQUOTE] [DQUOTE]
       (replace [RIGHT_CURLY_QUOTE] [DQUOTE]
          (replace [LEFT_CURLY_QUOTE] [DQUOTE] s))).

(** The pattern comma, whitespace, closing brace, end, searched in [s] and
    replaced by a closing brace.  The end anchor also matches just before a
    final newline.  [trailing_comma s] is the text before the comma of the
    (unique) match, with the newline that follows the brace if there is one. *)
Definition trailing_comma (s : pystr) : option (pystr * pystr) :=
  match rev s with
  | c :: r =>
      if c =? RBRACE then
        match skip py_isspace r with
        | d :: p => if d =? COMMA then Some (rev p, []) else None
        | [] => None
        end
      else if c =? NEWLINE then
        match r with
        | c' :: r' =>
            if c' =? RBRACE then
              match skip py_isspace r' with
              | d :: p => if d =? COMMA then Some (rev p, [NEWLINE]) else None
              | [] => None
              end
            else None
        | [] => None
        end
      else None
  | [] => None
  end.

Definition collapse_trailing_comma (s : pystr) : pystr :=
  match trailing_comma s with
  | Some (p, nl) => p ++ RBRACE :: nl
  | None => s
  end.

(** The repaired text handed to the decoder. *)
Definition sanitize (buf : pystr) : pystr :=
  collapse_trailing_comma (normalize_quotes buf).

(** The body of the [try] of [_parse_buffer]: a decoded value that is not an
    object has no [get]. *)
Definition parse_sanitized (buf : pystr) : result json :=
  data ← loads (sanitize buf);
  match data with
  | JObject pairs => Ok (dict_get (str "text") pairs (JString []))
  | _ => Raise AttributeError
  end.

(** [JSONStreamParser._parse_buffer]: every exception is counted and turned
    into [None]. *)
Definition _parse_buffer (st : JSONStreamParser) : json * JSONStreamParser :=
  let st1 := {| buffer := buffer st; in_object := in_object st;
                object_count := object_count st;
                entry_count := S (entry_count st);
                error_count := error_count st |} in
  match parse_sanitized (buffer st1) with
  | Ok v => (v, st1)
  | Raise _ =>
      (JNull, {| buffer := buffer st1; in_object := in_object st1;
                 object_count := object_count st1;
                 entry_count := entry_count st1;
                 error_count := S (error_count st1) |})
  end.

(** The brace counter after one more line: every opening brace of the line
    counts up and every closing brace counts down, wherever it stands. *)
Definition brace_step (acc : Z) (line : pystr) : Z :=
  (acc + Z.of_nat (count LBRACE line) - Z.of_nat (count RBRACE line))%Z.

(** [JSONStreamParser.feed]. *)
Definition feed (st : JSONStreamParser) (line : pystr) : json * JSONStreamParser :=
  let line := strip line in
  match line with
  | [] => (JNull, st)
  | _ :: _ =>
      let st1 :=
        if record_start line
        then {| buffer := []; in_object := true; object_count := 0%Z;
                entry_count := entry_count st; error_count := error_count st |}
        else st in
      if in_object st1 then
        let st2 :=
          {| buffer := buffer st1 ++ line; in_object := true;
             object_count := brace_step (object_count st1) line;
             entry_count := entry_count st1; error_count := error_count st1 |} in
        if (object_count st2 =? 0)%Z then
          _parse_buffer {| buffer := buffer st2; in_object := false;
                           object_count := object_count st2;
                           entry_count := entry_count st2;
                           error_count := error_count st2 |}
        else (JNull, st2)
      else (JNull, st1)
  end.

(** The value [process_file] appends for one result of [feed]: nothing for
    [None] and for a blank string, the stripped string otherwise; a value
    that is not a string has no [strip]. *)
Definition extracted_of (r : json) : result (list pystr) :=
  match r with
  | JNull => Ok []
  | JString s => Ok (match strip s with [] => [] | t => [t] end)
  | _ => Raise AttributeError
  end.

(** The reading loop of [process_file] over the lines of the input file:
    the list of extracted texts and the parser at the end of the input. *)
Fixpoint process_lines (st : JSONStreamParser) (extracted : list pystr)
    (lines : list pystr) : result (list pystr * JSONStreamParser) :=
  match lines with
  | [] => Ok (extracted, st)
  | line :: rest =>
      let '(r, st') := feed st line in
      new ← extracted_of r;
      process_lines st' (extracted ++ new) rest
  end.

(** What [process_file] reports once the input is exhausted: the number of
    extracted texts and the failure counter of the parser.  Nothing is done
    with the parser between the last line and the report. *)
Definition process_file (lines : list pystr) : result (nat * nat) :=
  '(extracted, st) ← process_lines init [] lines;
  Ok (length extracted, error_count st).

(** The results of feeding a sequence of chunks, one per call. *)
Fixpoint feed_all (st : JSONStreamParser) (lines : list pystr)
    : list json * JSONStreamParser :=
  match lines with
  | [] => ([], st)
  | line :: rest =>
      let '(r, st1) := feed st line in
      let '(rs, st2) := feed_all st1 rest in
      (r :: rs, st2)
  end.

(** *** Vocabulary of the statements about the parser *)

(** The brace counter, started at [acc], is zero after the last chunk and
    after no chunk before it. *)
Fixpoint closes_at_end (acc : Z) (chunks : list pystr) : bool :=
  match chunks with
  | [] => false
  | c :: rest =>
      match rest with
      | [] => (brace_step acc c =? 0)%Z
      | _ :: _ => negb (brace_step acc c =? 0)%Z && closes_at_end (brace_step acc c) rest
      end
  end.

(** The counter never returns to zero over the chunks. *)
Fixpoint stays_open (acc : Z) (chunks : list pystr) : bool :=
  match chunks with
  | [] => true
  | c :: rest => negb (brace_step acc c =? 0)%Z && stays_open (brace_step acc c) rest
  end.

(** None of the four texts rewritten by [normalize_quotes] occurs. *)
Definition quote_free (s : pystr) : bool :=
  negb (contains [LEFT_CURLY_QUOTE] s || contains [RIGHT_CURLY_QUOTE] s
        || contains [SQUOTE] s || contains (BACKSLASH :: str "u2019") s).

(** What [_parse_buffer] returns for a buffer and does to the failure
    counter [errs]. *)
Definition outcome (buf : pystr) (errs : nat) : json * nat :=
  match parse_sanitized buf with
  | Ok v => (v, errs)
  | Raise _ => (JNull, S errs)
  end.

End Extractor.

(* ===================================================================== *)
(** ** cleaning.py *)
(* ===================================================================== *)

Module Cleaning.

(** The library functions the filter calls.  [str.lower] and [str.isalpha]
    follow the Unicode tables, [word_tokenize] is NLTK's and raises when its
    models cannot be used, [re_search] tells whether a compiled
    case-insensitive pattern is found in a text, and [is_word] is the class
    [\w] of a [str] pattern.  All of them are functions of their arguments. *)
Class Library : Type := {
  lower : pystr -> pystr;
  isalpha : pystr -> bool;
  word_tokenize : pystr -> result (list pystr);
  re_search : pystr -> pystr -> bool;
  is_word : N -> bool
}.

(** The keys of the configuration dictionary that the filter reads. *)
Record Config : Type := mkConfig {
  min_paragraph_length : Z;
  max_stopword_ratio : Q;
  reference_patterns : list pystr;
  author_info_patterns : list pystr;
  ad_keywords : list pystr
}.

(** The default configuration of [__init__]. *)
Definition default_config : Config :=
  {| min_paragraph_length := 50;
     max_stopword_ratio := (6 # 10)%Q;
     reference_patterns :=
       [str "\b(?:references|bibliography)\b";
        str "\[\d+\]";
        str "\bdoi:\s*\d+\.\d+/[\w.-]+"];
     author_info_patterns :=
       [str "\b(?:corresponding author|email|@\w+\.\w{2,3})\b";
        str "\b(?:prof\.|dr\.|ph\.d\.)\b"];
     ad_keywords := [str "sponsored"; str "advertisement"] |}.

(** What the logger of the filter is asked to record. *)
Inductive LogRecord : Type :=
| LogError (e : exn)
| LogWarning (words : nat)
| LogCritical (rss : Z).

(** The attributes of an [AcademicContentFilter] object that the filtering
    methods touch. *)
Record AcademicContentFilter : Type := mkFilter {
  config : Config;
  ref_regex : pystr;
  author_regex : pystr;
  stop_words : list pystr;
  logger : list LogRecord
}.

(** [sep.join(parts)]. *)
Fixpoint join (sep : pystr) (parts : list pystr) : pystr :=
  match parts with
  | [] => []
  | [x] => x
  | x :: rest => x ++ sep ++ join sep rest
  end.

(** [__init__] followed by [_compile_regex]: both patterns are the
    alternation of the configured ones. *)
Definition new (cfg : Config) (stops : list pystr) : AcademicContentFilter :=
  {| config := cfg;
     ref_regex := join (str "|") (reference_patterns cfg);
     author_regex := join (str "|") (author_info_patterns cfg);
     stop_words := stops;
     logger := [] |}.

(** Methods run on the object and may raise: a computation takes the object
    and gives a result with the object afterwards. *)
Definition Method (A : Type) : Type :=
  AcademicContentFilter -> result A * AcademicContentFilter.

#[global] Instance method_ret : MRet Method := fun _ a self => (Ok a, self).
#[global] Instance method_bind : MBind Method := fun _ _ k m self =>
  match m self with
  | (Ok a, self') => k a self'
  | (Raise e, self') => (Raise e, self')
  end.

Definition attr {A} (f : AcademicContentFilter -> A) : Method A :=
  fun self => (Ok (f self), self).

Definition lift {A} (r : result A) : Method A := fun self => (r, self).

(** The object with [l] as the records of its logger. *)
Definition with_logger (self : AcademicContentFilter) (l : list LogRecord)
    : AcademicContentFilter :=
  {| config := config self; ref_regex := ref_regex self;
     author_regex := author_regex self; stop_words := stop_words self;
     logger := l |}.

(** [self.logger.error(...)] and [self.logger.warning(...)]. *)
Definition log (r : LogRecord) : Method unit :=
  fun self => (Ok tt, with_logger self (logger self ++ [r])).

(** [try: m except C as e: h e] where [handles e] tells whether [e] is an
    instance of [C]. *)
Definition try_except {A} (m : Method A) (handles : exn -> bool)
    (h : exn -> Method A) : Method A :=
  fun self =>
    match m self with
    | (Raise e, self') => if handles e then h e self' else (Raise e, self')
    | ok => ok
    end.

(** [RecursionError] is a subclass of [RuntimeError]. *)
Definition is_RuntimeError (e : exn) : bool :=
  match e with RuntimeError | RecursionError => true | _ => false end.

(** Every member of [exn] is an [Exception]. *)
Definition is_Exception (e : exn) : bool := true.

(** [count / len > ratio] on exact fractions; [len = 0] divides by zero. *)
Definition ratio_gt (cnt len : nat) (ratio : Q) : result bool :=
  match len with
  | O => Raise ZeroDivisionError
  | S _ => Ok (Qnum ratio * Z.of_nat len <? Z.of_nat cnt * Zpos (Qden ratio))%Z
  end.

Section Methods.
Context `{Library}.

(** The alphabetic tokens of the lower-cased text. *)
Definition alpha_words (text : pystr) : result (list pystr) :=
  tokens ← word_tokenize (lower text);
  Ok (filter (fun w => isalpha w = true) tokens).

(** [_is_low_quality]. *)
Definition _is_low_quality (text : pystr) : Method bool :=
  try_except
    (words ← lift (alpha_words text);
     if (10000 <? Z.of_nat (length words))%Z then
       _ ← log (LogWarning (length words)); mret false
     else
       cfg ← attr config;
       stops ← attr stop_words;
       if (Z.of_nat (length words) <? min_paragraph_length cfg)%Z then mret true
       else
         lift (ratio_gt (length (filter (fun w => w ∈ stops) words))
                        (length words) (max_stopword_ratio cfg)))
    is_RuntimeError
    (fun e => _ ← log (LogError e); mret false).

(** A character outside word characters, whitespace and the seven
    punctuation marks of the pattern of [_is_nonsense]. *)
Definition is_special (c : N) : bool :=
  negb (is_word c || py_isspace c || bool_decide (c ∈ str ".,;:!?")).

(** Some word character occurs four times in a row. *)
Fixpoint has_run4 (s : pystr) : bool :=
  match s with
  | a :: s1 =>
      (is_word a && startswith [a; a; a] s1) || has_run4 s1
  | [] => false
  end.

(** [_is_nonsense]; the threshold 0.3 is compared on exact fractions. *)
Definition _is_nonsense (text : pystr) : bool :=
  match text with
  | [] => true
  | _ :: _ =>
      (3 * Z.of_nat (length text) <? 10 * Z.of_nat (length (filter (fun c => is_special c = true) text)))%Z
      || has_run4 text
  end.

(** Rule 1 of [_filter_text]: some configured keyword occurs in the
    lower-cased text. *)
Definition ad_keyword_hit (cfg : Config) (text : pystr) : bool :=
  existsb (fun kw => contains kw (lower text)) (ad_keywords cfg).

(** The body of the [try] of [_filter_text]. *)
Definition filter_rules (text : pystr) : Method bool :=
  cfg ← attr config;
  if ad_keyword_hit cfg text then mret true
  else
    ref ← attr ref_regex;
    author ← attr author_regex;
    if re_search ref text || re_search author text then mret true
    else
      low ← _is_low_quality text;
      if (low : bool) then mret true
      else if _is_nonsense text then mret true
      else mret false.

(** [_filter_text]: [True] asks for the text to be removed. *)
Definition _filter_text (text : pystr) : Method bool :=
  try_except (filter_rules text) is_Exception
    (fun e => _ ← log (LogError e); mret false).

End Methods.

(** *** A small instance of the library, for closed examples *)

Definition ascii_lower_char (c : N) : N :=
  if (65 <=? c) && (c <=? 90) then c + 32 else c.

Definition ascii_is_letter (c : N) : bool :=
  ((65 <=? c) && (c <=? 90)) || ((97 <=? c) && (c <=? 122)).

(** [s.split()]: the maximal runs of characters that are not whitespace;
    [cur] is the current run, reversed. *)
Fixpoint split_from (cur : pystr) (s : pystr) : list pystr :=
  match s with
  | [] => match cur with [] => [] | _ => [rev cur] end
  | c :: s' =>
      if py_isspace c
      then match cur with [] => split_from [] s' | _ => rev cur :: split_from [] s' end
      else split_from (c :: cur) s'
  end.

Definition split (s : pystr) : list pystr := split_from [] s.

(** On ASCII text: lower-casing and letters as Python has them, tokens cut
    at whitespace, patterns read as literals. *)
Definition ascii_library : Library :=
  {| lower := map ascii_lower_char;
     isalpha := fun w => match w with [] => false | _ => forallb ascii_is_letter w end;
     word_tokenize := fun s => Ok (split s);
     re_search := fun pat text => contains pat (map ascii_lower_char text);
     is_word := fun c => ascii_is_letter c || Json.is_digit c || (c =? 95) |}.

(** The same library on a machine where the tokenizer models of NLTK are
    not installed: [word_tokenize] raises [LookupError]. *)
Definition offline_library : Library :=
  {| lower := map ascii_lower_char;
     isalpha := fun w => match w with [] => false | _ => forallb ascii_is_letter w end;
     word_tokenize := fun _ => Raise LookupError;
     re_search := fun pat text => contains pat (map ascii_lower_char text);
     is_word := fun c => ascii_is_letter c || Json.is_digit c || (c =? 95) |}.

End Cleaning.

(* ===================================================================== *)
(** ** deduplication.py *)
(* ===================================================================== *)

Module Dedup.

(** What comes from the [datasketch] library and is fixed before any text is
    seen: [perm_hash i w] is the value of the [i]-th permutation on the
    UTF-8 encoding of the token [w], for a token that has one, and
    [optimal_param t] is the number of bands and the number of rows per band
    chosen for the threshold [t]. *)
Class Datasketch : Type := {
  perm_hash : nat -> pystr -> Z;
  optimal_param : Q -> nat * nat
}.

Definition num_perm : nat := 128.

(** The largest hash value, which fills a fresh signature. *)
Definition max_hash : Z := (2 ^ 32 - 1)%Z.

(** Modelled from the spec: the class MinHash of datasketch, which is not
    among the sources.  A signature is a sequence of [num_perm] values, one
    minimum per permutation over the tokens seen so far. *)
Definition MinHash : Type := list Z.

Definition MinHash_new : MinHash := replicate num_perm max_hash.

Section Signatures.
Context `{Datasketch}.

(** Modelled from the spec: the method MinHash.update of datasketch; each
    position keeps the minimum of its value and the permuted token. *)
Definition update (m : MinHash) (word : pystr) : MinHash :=
  imap (fun i v => Z.min (perm_hash i word) v) m.

(** The code points of the surrogates, which UTF-8 does not encode. *)
Definition is_surrogate (c : N) : bool := (55296 <=? c) && (c <=? 57343).

(** [word.encode("utf8")]: a token that holds a surrogate raises
    [UnicodeEncodeError].  The encoding is one-to-one, so the token stands
    for its encoding. *)
Definition encode_utf8 (word : pystr) : result pystr :=
  if existsb is_surrogate word then Raise UnicodeEncodeError else Ok word.

(** The loop of [get_minhash] over the tokens. *)
Fixpoint update_words (m : MinHash) (words : list pystr) : result MinHash :=
  match words with
  | [] => Ok m
  | word :: rest =>
      data ← encode_utf8 word;
      update_words (update m data) rest
  end.

(** [get_minhash]: the tokens are those of [text.split()]. *)
Definition get_minhash (text : pystr) : result MinHash :=
  update_words MinHash_new (Cleaning.split text).

(** Every token of the text has an encoding. *)
Definition encodable (text : pystr) : bool :=
  forallb (fun word => negb (existsb is_surrogate word)) (Cleaning.split text).

(** The signature of a text whose tokens all have an encoding. *)
Definition signature (text : pystr) : MinHash :=
  foldl update MinHash_new (Cleaning.split text).

End Signatures.

(** Modelled from the spec: the class MinHashLSH of datasketch, which is
    not among the sources.  The index keeps one table per band, from the
    slice of the signature in that band to the set of keys inserted with
    it, and the set of all keys.  A key [i] stands for the string made of
    text_ followed by the decimal digits of [i]. *)
Record MinHashLSH : Type := mkLSH {
  bands : nat;
  rows : nat;
  hashtables : list (gmap (list Z) (gset nat));
  keys : gset nat
}.

(** The slice of a signature that band [i] covers. *)
Definition band (r i : nat) (m : MinHash) : list Z :=
  take r (drop (i * r) m).

Definition table_get (t : gmap (list Z) (gset nat)) (h : list Z) : gset nat :=
  default ∅ (t !! h).

Definition table_add (t : gmap (list Z) (gset nat)) (h : list Z) (key : nat)
    : gmap (list Z) (gset nat) :=
  <[h := {[key]} ∪ table_get t h]> t.

Section Index.
Context `{Datasketch}.

(** Modelled from the spec: the constructor of MinHashLSH for 128
    permutations.  A threshold outside the unit interval is a configuration
    error; so is, in the library, a choice of fewer than two bands. *)
Definition MinHashLSH_new (threshold : Q) : result MinHashLSH :=
  if negb (Qle_bool threshold 1) || negb (Qle_bool 0 threshold)
  then Raise ValueError
  else
    let '(b, r) := optimal_param threshold in
    if (b <? 2)%nat then Raise ValueError
    else Ok {| bands := b; rows := r; hashtables := replicate b ∅; keys := ∅ |}.

(** Modelled from the spec: MinHashLSH.query; the keys found in some band
    under the slice of the queried signature. *)
Definition query (lsh : MinHashLSH) (m : MinHash) : result (gset nat) :=
  if bool_decide (length m = num_perm) then
    Ok (⋃ (imap (fun i t => table_get t (band (rows lsh) i m)) (hashtables lsh)))
  else Raise ValueError.

(** Modelled from the spec: MinHashLSH.insert; a key already present is
    refused, otherwise the key is filed under every band. *)
Definition insert (lsh : MinHashLSH) (key : nat) (m : MinHash) : result MinHashLSH :=
  if bool_decide (length m = num_perm) then
    if bool_decide (key ∈ keys lsh) then Raise ValueError
    else
      Ok {| bands := bands lsh; rows := rows lsh;
            hashtables := imap (fun i t => table_add t (band (rows lsh) i m) key)
                               (hashtables lsh);
            keys := {[key]} ∪ keys lsh |}
  else Raise ValueError.

(** The loop of [deduplicate_texts] from position [i] on. *)
Fixpoint dedup_loop (lsh : MinHashLSH) (unique : list pystr) (i : nat)
    (texts : list pystr) : result (list pystr) :=
  match texts with
  | [] => Ok unique
  | text :: rest =>
      mh ← get_minhash text;
      found ← query lsh mh;
      if bool_decide (found = ∅) then
        lsh' ← insert lsh i mh;
        dedup_loop lsh' (unique ++ [text]) (S i) rest
      else dedup_loop lsh unique (S i) rest
  end.

(** [deduplicate_texts]. *)
Definition deduplicate_texts (texts : list pystr) (threshold : Q) : result (list pystr) :=
  lsh ← MinHashLSH_new threshold;
  dedup_loop lsh [] 0 texts.

(** Two texts collide when their signatures agree on a whole band. *)
Definition collide (b r : nat) (x y : pystr) : bool :=
  existsb (fun i => bool_decide (band r i (signature x) = band r i (signature y)))
          (seq 0 b).

(** First wins: a text is kept when it collides with none of the texts
    kept before it. *)
Fixpoint first_of_groups (b r : nat) (kept : list pystr) (texts : list pystr) : list pystr :=
  match texts with
  | [] => []
  | t :: rest =>
      if existsb (collide b r t) kept
      then first_of_groups b r kept rest
      else t :: first_of_groups b r (kept ++ [t]) rest
  end.

(** The indexes a run can hold: a fresh one, then one insertion after the
    other. *)
Inductive reachable : MinHashLSH -> Prop :=
| reachable_new threshold lsh :
    MinHashLSH_new threshold = Ok lsh -> reachable lsh
| reachable_insert lsh key m lsh' :
    reachable lsh -> insert lsh key m = Ok lsh' -> reachable lsh'.

End Index.

(** *** A small instance of the library, for closed examples *)

(** A polynomial hash of the token, salted with the position. *)
Definition toy_hash (i : nat) (w : pystr) : Z :=
  (foldl (fun h c => (h * 31 + Z.of_N c) mod 4294967296) (Z.of_nat i + 7) w)%Z.

(** Nine bands of thirteen rows, whatever the threshold. *)
Definition toy_datasketch : Datasketch :=
  {| perm_hash := toy_hash; optimal_param := fun _ => (9, 13)%nat |}.

(** Three texts: the third differs from the first by its spacing only. *)
Definition text_A : pystr := str "the quick brown fox jumps over the lazy dog".
Definition text_B : pystr := str "completely different words appear here today".
Definition text_A' : pystr := str "the quick  brown fox jumps over the lazy dog ".

End Dedup.

(* ===================================================================== *)
(** * Properties *)
(* ===================================================================== *)

(** ** Strings *)

Section StringFacts.

Lemma skip_split (p : N -> bool) (s : pystr) :
  ∃ w, s = w ++ skip p s ∧ Forall (fun c => p c = true) w.
Proof.
  induction s as [|c s IH]; simpl.
  - exists []. split; [done | constructor].
  - destruct (p c) eqn:Hc.
    + destruct IH as (w & Hs & Hw). exists (c :: w). split.
      * simpl. by rewrite <- Hs.
      * by constructor.
    + exists []. split; [done | constructor].
Qed.

Lemma skip_all (p : N -> bool) (w s : pystr) :
  Forall (fun c => p c = true) w → skip p (w ++ s) = skip p s.
Proof.
  induction 1 as [|c w Hc _ IH]; simpl; [done|]. by rewrite Hc.
Qed.

Lemma skip_stop (p : N -> bool) (c : N) (s : pystr) :
  p c = false → skip p (c :: s) = c :: s.
Proof. intros Hc. simpl. by rewrite Hc. Qed.

Lemma skip_nil_all (p : N -> bool) (s : pystr) :
  skip p s = [] → Forall (fun c => p c = true) s.
Proof.
  induction s as [|c s IH]; simpl; [constructor|].
  destruct (p c) eqn:Hc; [|done]. intros Hs. constructor; auto.
Qed.

Lemma skip_head (p : N -> bool) (s t : pystr) (c : N) :
  skip p s = c :: t → p c = false.
Proof.
  induction s as [|x s IH]; simpl; [done|].
  destruct (p x) eqn:Hx; [done|]. congruence.
Qed.

Lemma expect_split (lit s r : pystr) :
  Json.expect lit s = Some r → s = lit ++ r.
Proof.
  revert s. induction lit as [|a lit IH]; intros s; simpl.
  - congruence.
  - destruct s as [|b s]; [done|].
    destruct (N.eqb_spec a b) as [->|]; [|done].
    intros Hr. by rewrite (IH _ Hr).
Qed.

Lemma contains_cons (p : pystr) (c : N) (s : pystr) :
  contains p (c :: s) = false → startswith p (c :: s) = false ∧ contains p s = false.
Proof. simpl contains. intros Hc. by apply orb_false_elim in Hc. Qed.

Lemma replace_absent (old new s : pystr) :
  contains old s = false → replace old new s = s.
Proof.
  unfold replace. induction s as [|c s IH]; [done|].
  intros Hc. apply contains_cons in Hc as [Hs Hc].
  cbn [replace_from]. rewrite Hs. f_equal. auto.
Qed.

Lemma json_ws_isspace (c : N) : Json.json_ws c = true → py_isspace c = true.
Proof.
  unfold Json.json_ws. intros Hc.
  repeat (apply orb_prop in Hc as [Hc|Hc]);
    apply N.eqb_eq in Hc; by subst.
Qed.

Lemma Forall_json_ws_isspace (w : pystr) :
  Forall (fun c => Json.json_ws c = true) w →
  Forall (fun c => py_isspace c = true) w.
Proof.
  intros Hw. eapply Forall_impl; [exact Hw|]. intros c. apply json_ws_isspace.
Qed.

Lemma isspace_cases (c : N) :
  py_isspace c = true →
  9 ≤ c ≤ 13 ∨ 28 ≤ c ≤ 32 ∨ c = 133 ∨ 160 ≤ c.
Proof.
  unfold py_isspace.
  rewrite !orb_true_iff, !andb_true_iff, !N.leb_le, !N.eqb_eq. lia.
Qed.

Lemma count_app (c : N) (s t : pystr) :
  count c (s ++ t) = (count c s + count c t)%nat.
Proof.
  induction s as [|x s IH]; simpl; [done|].
  destruct (x =? c); simpl; by rewrite IH.
Qed.

End StringFacts.

(** ** The decoder never accepts a comma before the closing brace *)

Module JsonFacts.
Import Json.

(** The last character of [c] that is not whitespace exists and is not a
    comma. *)
Definition solid (c : pystr) : Prop :=
  ∃ p y w, c = p ++ y :: w ∧ Forall (fun x => py_isspace x = true) w
           ∧ py_isspace y = false ∧ y ≠ COMMA.

(** The text of a decoded value: it ends with a character that is neither
    whitespace nor a comma, and when that character is a closing brace the
    text before it is [solid]. *)
Definition value_text (c : pystr) : Prop :=
  ∃ p x, c = p ++ [x] ∧ py_isspace x = false ∧ x ≠ COMMA
         ∧ (x = RBRACE → solid p).

Lemma solid_app_l (a c : pystr) : solid c → solid (a ++ c).
Proof.
  intros (p & y & w & -> & Hw & Hy & Hc).
  exists (a ++ p), y, w. by rewrite <- app_assoc.
Qed.

Lemma solid_cons (a : N) (c : pystr) : solid c → solid (a :: c).
Proof. apply (solid_app_l [a]). Qed.

Lemma solid_ws_r (c w : pystr) :
  Forall (fun x => py_isspace x = true) w → solid c → solid (c ++ w).
Proof.
  intros Hw (p & y & w0 & -> & Hw0 & Hy & Hc).
  exists p, y, (w0 ++ w). repeat split; try done.
  - by rewrite <- app_assoc.
  - by apply Forall_app.
Qed.

Lemma value_text_solid (c : pystr) : value_text c → solid c.
Proof.
  intros (p & x & -> & Hx & Hc & _). exists p, x, []. repeat split; try done.
Qed.

Lemma solid_skip_rev (c : pystr) :
  solid c → ∃ y t, skip py_isspace (rev c) = y :: t ∧ y ≠ COMMA.
Proof.
  intros (p & y & w & -> & Hw & Hy & Hc).
  exists y, (rev p). split; [|done].
  rewrite rev_app_distr. simpl rev. rewrite <- app_assoc. simpl.
  rewrite skip_all.
  - by apply skip_stop.
  - by apply Forall_rev.
Qed.

Lemma scanstring_split (n : nat) :
  ∀ s acc v rest, (length s ≤ n)%nat →
    scanstring s acc = Some (v, rest) → ∃ c, s = c ++ DQUOTE :: rest.
Proof.
  induction n as [|n IH]; intros s acc v rest Hn Hs.
  { destruct s; simpl in *; [done | lia]. }
  assert (Hrec : ∀ pre s' acc', s = pre ++ s' → pre ≠ [] →
            scanstring s' acc' = Some (v, rest) → ∃ c, s = c ++ DQUOTE :: rest).
  { intros pre s' acc' -> Hpre Hs'.
    destruct (IH s' acc' v rest) as [c ->]; [|done|].
    - rewrite length_app in Hn. destruct pre; [done|]. simpl in Hn. lia.
    - exists (pre ++ c). by rewrite <- app_assoc. }
  destruct s as [|c s1]; [done|]. simpl in Hs.
  destruct (c =? 34) eqn:Hq.
  { apply N.eqb_eq in Hq as ->. injection Hs as _ ->. by exists []. }
  destruct (c <? 32); [done|].
  destruct (c =? 92); [|by apply (Hrec [c] s1 (c :: acc))].
  destruct s1 as [|e s2]; [done|].
  destruct (e =? 117).
  - destruct s2 as [|h1 [|h2 [|h3 [|h4 s3]]]]; try done.
    destruct (hex4 h1 h2 h3 h4) as [uni|]; [|done].
    destruct ((55296 <=? uni) && (uni <=? 56319)).
    + destruct s3 as [|b [|u [|k1 [|k2 [|k3 [|k4 s4]]]]]];
        try (by eapply (Hrec [c; e; h1; h2; h3; h4])).
      destruct (low_surrogate _) as [[lo ?]|].
      * by eapply (Hrec [c; e; h1; h2; h3; h4; b; u; k1; k2; k3; k4]).
      * by eapply (Hrec [c; e; h1; h2; h3; h4]).
    + by eapply (Hrec [c; e; h1; h2; h3; h4]).
  - destruct (simple_escape e); [|done].
    by eapply (Hrec [c; e]).
Qed.

Lemma digits_split (s d r : pystr) :
  digits s = (d, r) → s = d ++ r ∧ Forall (fun c => is_digit c = true) d.
Proof.
  revert d r. induction s as [|c s IH]; intros d r; simpl.
  - intros [= <- <-]. split; [done | constructor].
  - destruct (is_digit c) eqn:Hc.
    + destruct (digits s) as [d' r']. intros [= <- <-].
      destruct (IH d' r' eq_refl) as [-> Hd]. split; [done | by constructor].
    + intros [= <- <-]. split; [done | constructor].
Qed.

(** The text ends with a decimal digit. *)
Definition ends_digit (c : pystr) : Prop :=
  ∃ p x, c = p ++ [x] ∧ is_digit x = true.

Lemma ends_digit_app (a c : pystr) : ends_digit c → ends_digit (a ++ c).
Proof. intros (p & x & -> & Hx). exists (a ++ p), x. by rewrite <- app_assoc. Qed.

Lemma ends_digit_digits (a : pystr) (d : pystr) :
  d ≠ [] → Forall (fun c => is_digit c = true) d → ends_digit (a ++ d).
Proof.
  intros Hd Hall. apply ends_digit_app.
  destruct (exists_last Hd) as (p & x & ->).
  exists p, x. split; [done|].
  apply Forall_app in Hall as [_ Hx]. by inversion Hx.
Qed.

Lemma scan_int_split (s i r : pystr) :
  scan_int s = Some (i, r) → s = i ++ r ∧ ends_digit i.
Proof.
  unfold scan_int.
  assert (Hbody : ∀ sign s1,
    match s1 with
    | [] => None
    | c :: t =>
        if c =? 48 then Some (sign ++ [48], t)
        else if is_digit c then let '(d, r0) := digits t in Some (sign ++ c :: d, r0)
        else None
    end = Some (i, r) → sign ++ s1 = i ++ r ∧ ends_digit i).
  { intros sign [|c t]; [done|].
    destruct (N.eqb_spec c 48) as [->|_].
    - intros [= <- <-]. split; [by rewrite <- app_assoc|].
      by exists sign, 48.
    - destruct (is_digit c) eqn:Hc; [|done].
      destruct (digits t) as [d r0] eqn:Hd. intros [= <- <-].
      apply digits_split in Hd as [-> Hd]. split.
      + by rewrite <- app_assoc.
      + apply (ends_digit_digits sign (c :: d)); [done | by constructor]. }
  destruct s as [|c t].
  - intros Hs. by apply (Hbody [] []) in Hs.
  - destruct (c =? 45) eqn:Hm.
    + apply N.eqb_eq in Hm as ->. intros Hs. by apply (Hbody [45] t) in Hs.
    + intros Hs. by apply (Hbody [] (c :: t)) in Hs.
Qed.

Lemma scan_frac_split (s f r : pystr) :
  scan_frac s = (f, r) → s = f ++ r ∧ (f = [] ∨ ends_digit f).
Proof.
  unfold scan_frac. destruct s as [|c t].
  - intros [= <- <-]. auto.
  - destruct (N.eqb_spec c 46) as [->|_].
    + destruct (digits t) as [[|x d] r0] eqn:Hd.
      * intros [= <- <-]. auto.
      * intros [= <- <-]. apply digits_split in Hd as [-> Hd]. split; [done|].
        right. by apply (ends_digit_digits [46] (x :: d)).
    + intros [= <- <-]. auto.
Qed.

Lemma scan_exp_split (s e r : pystr) :
  scan_exp s = (e, r) → s = e ++ r ∧ (e = [] ∨ ends_digit e).
Proof.
  unfold scan_exp. destruct s as [|c t].
  - intros [= <- <-]. auto.
  - destruct ((c =? 101) || (c =? 69)).
    + assert (Hbody : ∀ sg t1, sg ++ t1 = t →
        match digits t1 with
        | ([], _) => ([], c :: t)
        | ((_ :: _) as d, r0) => (c :: sg ++ d, r0)
        end = (e, r) → c :: t = e ++ r ∧ (e = [] ∨ ends_digit e)).
      { intros sg t1 <-. destruct (digits t1) as [[|x d] r0] eqn:Hd.
        - intros [= <- <-]. auto.
        - intros [= <- <-]. apply digits_split in Hd as [-> Hd]. split.
          + simpl. by rewrite <- app_assoc.
          + right. by apply (ends_digit_digits (c :: sg) (x :: d)). }
      destruct t as [|x t'].
      * by apply (Hbody [] []).
      * destruct ((x =? 45) || (x =? 43)).
        -- by apply (Hbody [x] t').
        -- by apply (Hbody [] (x :: t')).
    + intros [= <- <-]. auto.
Qed.

Lemma scan_number_split (s lex r : pystr) :
  scan_number s = Some (lex, r) → s = lex ++ r ∧ ends_digit lex.
Proof.
  unfold scan_number.
  destruct (scan_int s) as [[i s1]|] eqn:Hi; [|done].
  destruct (scan_frac s1) as [f s2] eqn:Hf.
  destruct (scan_exp s2) as [e s3] eqn:He.
  intros [= <- <-].
  apply scan_int_split in Hi as [-> Hi].
  apply scan_frac_split in Hf as [-> Hf].
  apply scan_exp_split in He as [-> He].
  split; [by rewrite <- !app_assoc|].
  destruct He as [->|He].
  - rewrite app_nil_r. destruct Hf as [->|Hf].
    + by rewrite app_nil_r.
    + by apply ends_digit_app.
  - rewrite app_assoc. by apply ends_digit_app.
Qed.

Lemma ends_digit_value_text (c : pystr) : ends_digit c → value_text c.
Proof.
  intros (p & x & -> & Hx). exists p, x.
  unfold is_digit in Hx. apply andb_prop in Hx as [H1 H2].
  apply N.leb_le in H1, H2.
  repeat split; try done.
  - apply not_true_is_false. intros Hs. apply isspace_cases in Hs. lia.
  - unfold COMMA. lia.
  - unfold RBRACE. lia.
Qed.

Lemma skip_cons_split (p : N -> bool) (s t : pystr) (d : N) :
  skip p s = d :: t → ∃ w, s = w ++ d :: t ∧ Forall (fun c => p c = true) w.
Proof. intros Hs. destruct (skip_split p s) as (w & Hw & Hall). exists w. by rewrite <- Hs. Qed.

Lemma value_text_plain (p : pystr) (x : N) :
  py_isspace x = false → x ≠ COMMA → x ≠ RBRACE → value_text (p ++ [x]).
Proof. intros H1 H2 H3. exists p, x. repeat split; try done. Qed.

Ltac reassoc := repeat (simpl; rewrite <- app_assoc); simpl; try reflexivity.

#[local] Arguments expect : simpl never.
#[local] Arguments scan_number : simpl never.
#[local] Arguments str : simpl never.

(** What the scanner consumes.  A value ends as [value_text] says; the pairs
    of an object end with the closing brace after a [solid] text; the items
    of an array end with the closing bracket. *)
Lemma scan_split (f : nat) :
  (∀ s v rest, scan_once f s = Some (v, rest) →
     ∃ c, s = c ++ rest ∧ value_text c)
  ∧ (∀ s acc kvs rest, scan_pairs f s acc = Some (kvs, rest) →
     ∃ c, s = c ++ RBRACE :: rest ∧ solid c)
  ∧ (∀ s acc vs rest, scan_items f s acc = Some (vs, rest) →
     ∃ c, s = c ++ RBRACKET :: rest).
Proof.
  induction f as [|f (IH1 & IH2 & IH3)]; [by repeat split|].
  split; [|split].
  - (* one value *)
    intros s v rest Hs. simpl in Hs. destruct s as [|c s1]; [done|].
    destruct (N.eqb_spec c 34) as [->|_].
    { destruct (scanstring s1 []) as [[v' r]|] eqn:Hstr; [|done].
      injection Hs as _ ->.
      apply (scanstring_split (length s1)) in Hstr as [c' ->]; [|done].
      exists ((34 :: c') ++ [34]). split; [reassoc|].
      by apply value_text_plain. }
    destruct (N.eqb_spec c 123) as [->|_].
    { destruct (skip json_ws s1) as [|d s2] eqn:Hsk; [done|].
      apply skip_cons_split in Hsk as (w & -> & Hw).
      apply Forall_json_ws_isspace in Hw.
      destruct (N.eqb_spec d 125) as [->|_].
      - injection Hs as _ ->. exists ((123 :: w) ++ [125]). split; [reassoc|].
        exists (123 :: w), 125. repeat split; try done.
        intros _. by exists [], 123, w.
      - destruct (N.eqb_spec d 34) as [->|_]; [|done].
        destruct (scan_pairs f s2 []) as [[kvs r]|] eqn:Hp; [|done].
        injection Hs as _ ->.
        apply IH2 in Hp as (c2 & -> & Hsolid).
        exists ((123 :: w ++ 34 :: c2) ++ [125]). split; [reassoc|].
        exists (123 :: w ++ 34 :: c2), 125. repeat split; try done.
        intros _. apply solid_cons, solid_app_l, solid_cons, Hsolid. }
    destruct (N.eqb_spec c 91) as [->|_].
    { destruct (skip json_ws s1) as [|d s2] eqn:Hsk; [done|].
      apply skip_cons_split in Hsk as (w & -> & Hw).
      destruct (N.eqb_spec d 93) as [->|_].
      - injection Hs as _ ->. exists ((91 :: w) ++ [93]). split; [reassoc|].
        by apply value_text_plain.
      - destruct (scan_items f (d :: s2) []) as [[vs r]|] eqn:Hi; [|done].
        injection Hs as _ ->.
        apply IH3 in Hi as (c3 & Hc3). rewrite Hc3.
        exists ((91 :: w ++ c3) ++ [93]). split; [reassoc|].
        by apply value_text_plain. }
    destruct (expect (str "null") (c :: s1)) as [r|] eqn:E1.
    { injection Hs as _ ->. apply expect_split in E1 as ->.
      exists (str "null"). split; [done|]. by apply (value_text_plain (str "nul") 108). }
    destruct (expect (str "true") (c :: s1)) as [r|] eqn:E2.
    { injection Hs as _ ->. apply expect_split in E2 as ->.
      exists (str "true"). split; [done|]. by apply (value_text_plain (str "tru") 101). }
    destruct (expect (str "false") (c :: s1)) as [r|] eqn:E3.
    { injection Hs as _ ->. apply expect_split in E3 as ->.
      exists (str "false"). split; [done|]. by apply (value_text_plain (str "fals") 101). }
    destruct (scan_number (c :: s1)) as [[lex r]|] eqn:E4.
    { injection Hs as _ ->. apply scan_number_split in E4 as [-> Hlex].
      exists lex. split; [done|]. by apply ends_digit_value_text. }
    destruct (expect (str "NaN") (c :: s1)) as [r|] eqn:E5.
    { injection Hs as _ ->. apply expect_split in E5 as ->.
      exists (str "NaN"). split; [done|]. by apply (value_text_plain (str "Na") 78). }
    destruct (expect (str "Infinity") (c :: s1)) as [r|] eqn:E6.
    { injection Hs as _ ->. apply expect_split in E6 as ->.
      exists (str "Infinity"). split; [done|].
      by apply (value_text_plain (str "Infinit") 121). }
    destruct (expect (str "-Infinity") (c :: s1)) as [r|] eqn:E7; [|done].
    injection Hs as _ ->. apply expect_split in E7 as ->.
    exists (str "-Infinity"). split; [done|].
    by apply (value_text_plain (str "-Infinit") 121).
  - (* the pairs of an object *)
    intros s acc kvs rest Hs. simpl in Hs.
    destruct (scanstring s []) as [[key s1]|] eqn:Hk; [|done].
    apply (scanstring_split (length s)) in Hk as [ck ->]; [|done].
    destruct (skip json_ws s1) as [|c s2] eqn:Hsk1; [done|].
    apply skip_cons_split in Hsk1 as (w1 & -> & _).
    destruct (N.eqb_spec c 58) as [->|_]; [|done].
    destruct (skip_split json_ws s2) as (w2 & Hs2 & _).
    destruct (scan_once f (skip json_ws s2)) as [[v s3]|] eqn:Hv; [|done].
    apply IH1 in Hv as (cv & Hcv & Hval). rewrite Hcv in Hs2. subst s2.
    destruct (skip json_ws s3) as [|d s4] eqn:Hsk3; [done|].
    apply skip_cons_split in Hsk3 as (w3 & -> & Hw3).
    apply Forall_json_ws_isspace in Hw3.
    assert (Hsolid : solid (cv ++ w3)) by by apply solid_ws_r, value_text_solid.
    destruct (N.eqb_spec d 125) as [->|_].
    + injection Hs as _ ->.
      exists ((ck ++ 34 :: w1 ++ 58 :: w2) ++ (cv ++ w3)).
      split; [reassoc | by apply solid_app_l].
    + destruct (N.eqb_spec d 44) as [->|_]; [|done].
      destruct (skip json_ws s4) as [|e s5] eqn:Hsk4; [done|].
      apply skip_cons_split in Hsk4 as (w4 & -> & _).
      destruct (N.eqb_spec e 34) as [->|_]; [|done].
      apply IH2 in Hs as (c5 & -> & Hc5).
      exists ((ck ++ 34 :: w1 ++ 58 :: w2 ++ cv ++ w3 ++ 44 :: w4 ++ [34]) ++ c5).
      split; [reassoc | by apply solid_app_l].
  - (* the items of an array *)
    intros s acc vs rest Hs. simpl in Hs.
    destruct (scan_once f s) as [[v s1]|] eqn:Hv; [|done].
    apply IH1 in Hv as (cv & -> & _).
    destruct (skip json_ws s1) as [|d s2] eqn:Hsk; [done|].
    apply skip_cons_split in Hsk as (w & -> & _).
    destruct (N.eqb_spec d 93) as [->|_].
    + injection Hs as _ ->. exists (cv ++ w). reassoc.
    + destruct (N.eqb_spec d 44) as [->|_]; [|done].
      destruct (skip_split json_ws s2) as (w2 & Hs2 & _).
      apply IH3 in Hs as (c3 & Hc3). rewrite Hc3 in Hs2. subst s2.
      exists (cv ++ w ++ 44 :: w2 ++ c3). reassoc.
Qed.

Lemma length_skip (p : N -> bool) (s : pystr) :
  (length (skip p s) ≤ length s)%nat.
Proof.
  destruct (skip_split p s) as (w & Hs & _).
  rewrite Hs at 2. rewrite length_app. lia.
Qed.

(** The fuel is never what makes the scanner fail: a result obtained with
    some fuel is obtained with any fuel above the number of characters
    consumed. *)
Lemma scan_fuel (f : nat) :
  (∀ s v rest f', scan_once f s = Some (v, rest) →
     (length s - length rest < f')%nat → scan_once f' s = Some (v, rest))
  ∧ (∀ s acc kvs rest f', scan_pairs f s acc = Some (kvs, rest) →
     (length s - length rest < f')%nat → scan_pairs f' s acc = Some (kvs, rest))
  ∧ (∀ s acc vs rest f', scan_items f s acc = Some (vs, rest) →
     (length s - length rest < f')%nat → scan_items f' s acc = Some (vs, rest)).
Proof.
  induction f as [|f (IH1 & IH2 & IH3)]; [by repeat split|].
  destruct (scan_split f) as (Sp1 & Sp2 & Sp3).
  split; [|split].
  - intros s v rest f' Hs Hlen. destruct f' as [|f']; [lia|].
    simpl in Hs |- *. destruct s as [|c s1]; [done|].
    destruct (c =? 34); [done|].
    destruct (c =? 123).
    { destruct (skip json_ws s1) as [|d s2] eqn:Hsk; [done|].
      destruct (d =? 125); [done|]. destruct (d =? 34); [|done].
      destruct (scan_pairs f s2 []) as [[kvs r]|] eqn:Hp; [|done].
      injection Hs as <- <-. rewrite (IH2 s2 [] kvs r f' Hp); [done|].
      apply skip_cons_split in Hsk as (w & -> & _).
      destruct (Sp2 _ _ _ _ Hp) as (c2 & Hc2 & _). apply (f_equal length) in Hc2.
      cbn [length] in Hlen. rewrite length_app in Hlen, Hc2.
      cbn [length] in Hlen, Hc2. lia. }
    destruct (c =? 91); [|done].
    destruct (skip json_ws s1) as [|d s2] eqn:Hsk; [done|].
    destruct (d =? 93); [done|].
    destruct (scan_items f (d :: s2) []) as [[vs r]|] eqn:Hi; [|done].
    injection Hs as <- <-. rewrite (IH3 (d :: s2) [] vs r f' Hi); [done|].
    apply skip_cons_split in Hsk as (w & -> & _).
    destruct (Sp3 _ _ _ _ Hi) as (c3 & Hc3). apply (f_equal length) in Hc3.
    cbn [length] in Hlen, Hc3 |- *. rewrite length_app in Hlen, Hc3.
    cbn [length] in Hlen, Hc3. lia.
  - intros s acc kvs rest f' Hs Hlen. destruct f' as [|f']; [lia|].
    simpl in Hs |- *.
    destruct (scanstring s []) as [[key s1]|] eqn:Hk; [|done].
    apply (scanstring_split (length s)) in Hk as [ck Hck]; [|done].
    destruct (skip json_ws s1) as [|c s2] eqn:Hsk1; [done|].
    apply skip_cons_split in Hsk1 as (w1 & Hw1 & _).
    destruct (c =? 58); [|done].
    pose proof (length_skip json_ws s2) as Hl2.
    destruct (scan_once f (skip json_ws s2)) as [[v s3]|] eqn:Hv; [|done].
    destruct (Sp1 _ _ _ Hv) as (cv & Hcv & _).
    destruct (skip json_ws s3) as [|d s4] eqn:Hsk3.
    { by destruct (scan_once f' (skip json_ws s2)) as [[? ?]|]; [rewrite ?Hsk3|]. }
    pose proof Hsk3 as Hsk3'. apply skip_cons_split in Hsk3' as (w3 & Hw3 & _).
    apply (f_equal length) in Hck, Hw1, Hcv, Hw3.
    rewrite ?length_app in Hck, Hw1, Hcv, Hw3. cbn [length] in Hck, Hw1, Hw3.
    assert (Hrest : (length rest ≤ length s4)%nat).
    { destruct (d =? 125); [injection Hs as _ <-; lia|].
      destruct (d =? 44); [|done].
      destruct (skip json_ws s4) as [|e s5] eqn:Hsk4; [done|].
      apply skip_cons_split in Hsk4 as (w4 & Hw4 & _).
      destruct (e =? 34); [|done].
      apply Sp2 in Hs as (c5 & Hc5 & _).
      apply (f_equal length) in Hw4, Hc5.
      rewrite ?length_app in Hw4, Hc5. cbn [length] in Hw4, Hc5. lia. }
    rewrite (IH1 _ _ _ f' Hv) by lia. rewrite Hsk3.
    destruct (d =? 125); [done|]. destruct (d =? 44); [|done].
    destruct (skip json_ws s4) as [|e s5] eqn:Hsk4; [done|].
    apply skip_cons_split in Hsk4 as (w4 & Hw4 & _).
    destruct (e =? 34); [|done].
    destruct (Sp2 _ _ _ _ Hs) as (c5 & Hc5 & _).
    apply IH2; [done|].
    apply (f_equal length) in Hw4, Hc5. rewrite ?length_app in Hw4, Hc5.
    cbn [length] in Hw4, Hc5. lia.
  - intros s acc vs rest f' Hs Hlen. destruct f' as [|f']; [lia|].
    simpl in Hs |- *.
    destruct (scan_once f s) as [[v s1]|] eqn:Hv; [|done].
    destruct (Sp1 _ _ _ Hv) as (cv & Hcv & _).
    destruct (skip json_ws s1) as [|d s2] eqn:Hsk.
    { by destruct (scan_once f' s) as [[? ?]|]; [rewrite ?Hsk|]. }
    pose proof Hsk as Hsk'. apply skip_cons_split in Hsk' as (w & Hw & _).
    pose proof (length_skip json_ws s2) as Hl2.
    apply (f_equal length) in Hcv, Hw.
    rewrite ?length_app in Hcv, Hw. cbn [length] in Hw.
    assert (Hrest : (length rest ≤ length s2)%nat).
    { destruct (d =? 93); [injection Hs as _ <-; lia|].
      destruct (d =? 44); [|done].
      apply Sp3 in Hs as (c3 & Hc3).
      apply (f_equal length) in Hc3. rewrite ?length_app in Hc3. cbn [length] in Hc3. lia. }
    rewrite (IH1 _ _ _ f' Hv) by lia. rewrite Hsk.
    destruct (d =? 93); [done|]. destruct (d =? 44); [|done].
    destruct (Sp3 _ _ _ _ Hs) as (c3 & Hc3).
    apply (f_equal length) in Hc3. rewrite ?length_app in Hc3. cbn [length] in Hc3.
    apply IH3; [done | lia].
Qed.

(** [loads] accepts every text that the scanner accepts with some fuel. *)
Lemma loads_fuel (s : pystr) (f : nat) (v : json) (rest : pystr) :
  scan_once f (skip json_ws s) = Some (v, rest) →
  scan_once (2 * length s + 2) (skip json_ws s) = Some (v, rest).
Proof.
  intros Hs. apply (proj1 (scan_fuel f)); [done|].
  pose proof (length_skip json_ws s). lia.
Qed.

(** The decoder on a few texts. *)
Example loads_nested :
  loads (str "{" ++ q "a" ++ str ": [1, -2.5e3, true, null, {" ++ q "b" ++ str ": "
         ++ q "x\u00e9\n" ++ str "}, []], " ++ q "a" ++ str ": {} } ")
  = Ok (JObject
          [(str "a", JArray [JNumber (str "1"); JNumber (str "-2.5e3"); JBool true;
                             JNull; JObject [(str "b", JString [120; 233; 10])];
                             JArray []]);
           (str "a", JObject [])]).
Proof. vm_compute. reflexivity. Qed.

Example loads_refuses :
  loads (str "[1,]") = Raise JSONDecodeError
  ∧ loads (str "{" ++ q "a" ++ str ": 1,}") = Raise JSONDecodeError
  ∧ loads (str "{'a': 1}") = Raise JSONDecodeError
  ∧ loads (str "01") = Raise JSONDecodeError
  ∧ loads (str "{} {}") = Raise JSONDecodeError
  ∧ loads (q "tab	inside") = Raise JSONDecodeError.
Proof. repeat split; vm_compute; reflexivity. Qed.

Example dict_get_last_wins :
  dict_get (str "a") [(str "a", JNull); (str "b", JBool true); (str "a", JBool false)]
           (JString [])
  = JBool false.
Proof. reflexivity. Qed.

End JsonFacts.

Module ExtractorFacts.
Import Json Extractor JsonFacts.

Lemma skip_app_stop (p : N -> bool) (s t u : pystr) (c : N) :
  skip p s = c :: t → skip p (s ++ u) = c :: t ++ u.
Proof.
  induction s as [|x s IH]; simpl; [done|].
  destruct (p x); [done|]. by intros [= -> ->].
Qed.

(** After a [solid] text, the search for a trailing comma stops on a
    character that is not a comma. *)
Lemma solid_blocks_comma (p t : pystr) :
  solid p → ∃ y rest, skip py_isspace (rev p ++ t) = y :: rest ∧ (y =? COMMA) = false.
Proof.
  intros Hp. apply solid_skip_rev in Hp as (y & rest & Hsk & Hy).
  exists y, (rest ++ t). split.
  - by apply skip_app_stop.
  - by apply N.eqb_neq.
Qed.

(** A text the decoder accepts has no comma before a final closing brace:
    the second repair of [_parse_buffer] leaves it alone. *)
Lemma loads_trailing_comma (s : pystr) (v : json) :
  loads s = Ok v → trailing_comma s = None.
Proof.
  unfold loads. destruct (startswith [65279] s); [done|].
  destruct (skip_split json_ws s) as (w1 & Hs & _).
  destruct (scan_once _ (skip json_ws s)) as [[v' r]|] eqn:Hscan; [|done].
  destruct (skip json_ws r) eqn:Hr; [|done]. intros _.
  apply skip_nil_all in Hr.
  apply scan_split in Hscan as (c & Hc & (p & x & -> & Hx & Hcomma & Hbrace)).
  rewrite Hc in Hs. clear Hc.
  assert (Hx10 : (x =? NEWLINE) = false).
  { apply N.eqb_neq. intros ->. done. }
  assert (Hclose : x = RBRACE → ∀ t (nl : pystr),
    match skip py_isspace (rev p ++ t) with
    | d :: p0 => if d =? COMMA then Some (rev p0, nl) else None
    | [] => None
    end = None).
  { intros Hb t nl.
    destruct (solid_blocks_comma p t (Hbrace Hb)) as (y & rest & -> & ->). done. }
  unfold trailing_comma. rewrite Hs, !rev_app_distr. simpl rev.
  rewrite <- !app_assoc. simpl.
  apply Forall_rev in Hr. destruct (rev r) as [|z zs] eqn:Hrev; simpl.
  - destruct (N.eqb_spec x RBRACE) as [Hb|_]; [by apply Hclose|].
    by rewrite Hx10.
  - inversion Hr as [|? ? Hz Hzs]; subst.
    assert (Hz125 : (z =? RBRACE) = false).
    { apply N.eqb_neq. intros ->. done. }
    rewrite Hz125. destruct (z =? NEWLINE); [|done].
    destruct zs as [|z' zs']; simpl.
    + destruct (N.eqb_spec x RBRACE) as [Hb|_]; [by apply Hclose | done].
    + inversion Hzs as [|? ? Hz' _]; subst.
      assert (Hz'125 : (z' =? RBRACE) = false).
      { apply N.eqb_neq. intros ->. done. }
      by rewrite Hz'125.
Qed.

Lemma record_start_nonblank (line : pystr) :
  record_start line = true → skip py_isspace line ≠ [].
Proof. unfold record_start. by destruct (skip py_isspace line). Qed.

Lemma brace_step_blank (acc : Z) : brace_step acc [] = acc.
Proof. unfold brace_step. simpl. lia. Qed.

Lemma normalize_quotes_id (s : pystr) :
  quote_free s = true → normalize_quotes s = s.
Proof.
  unfold quote_free, normalize_quotes. intros Hq.
  apply negb_true_iff in Hq.
  apply orb_false_elim in Hq as [Hq H4].
  apply orb_false_elim in Hq as [Hq H3].
  apply orb_false_elim in Hq as [H1 H2].
  by rewrite (replace_absent _ _ _ H1), (replace_absent _ _ _ H2),
    (replace_absent _ _ _ H3), (replace_absent _ _ _ H4).
Qed.

(** Neither repair touches a text that has no quote to normalise and that
    the decoder accepts. *)
Lemma sanitize_valid (s : pystr) (v : json) :
  quote_free s = true → loads s = Ok v → sanitize s = s.
Proof.
  intros Hq Hv. unfold sanitize, collapse_trailing_comma.
  rewrite (normalize_quotes_id _ Hq). by rewrite (loads_trailing_comma _ _ Hv).
Qed.

(** One call of [feed] on a line that is not blank, once the branch on the
    record start is taken. *)
Lemma feed_accumulating (st : JSONStreamParser) (line : pystr) (buf : pystr) (acc : Z) :
  strip line ≠ [] →
  (if record_start (strip line) then ([], 0%Z) else (buffer st, object_count st)) = (buf, acc) →
  (if record_start (strip line) then true else in_object st) = true →
  feed st line =
    if (brace_step acc (strip line) =? 0)%Z then
      _parse_buffer {| buffer := buf ++ strip line; in_object := false;
                       object_count := brace_step acc (strip line);
                       entry_count := entry_count st; error_count := error_count st |}
    else
      (JNull, {| buffer := buf ++ strip line; in_object := true;
                 object_count := brace_step acc (strip line);
                 entry_count := entry_count st; error_count := error_count st |}).
Proof.
  intros Hline Hst Hin. unfold feed.
  destruct (strip line) as [|c l] eqn:Hstrip; [done|].
  destruct (record_start (c :: l)); simpl in *.
  - by injection Hst as <- <-.
  - injection Hst as <- <-. by rewrite Hin.
Qed.

Lemma parse_buffer_outcome (st : JSONStreamParser) :
  ∃ st', _parse_buffer st = (fst (outcome (buffer st) (error_count st)), st')
         ∧ entry_count st' = S (entry_count st)
         ∧ error_count st' = snd (outcome (buffer st) (error_count st))
         ∧ in_object st' = in_object st.
Proof.
  unfold _parse_buffer, outcome. simpl.
  destruct (parse_sanitized (buffer st)); eexists; simpl; eauto.
Qed.

(** Feeding the chunks that complete a pending record: nothing is returned
    until the brace counter reaches zero, then the buffer is parsed. *)
Lemma feed_all_completes (more : list pystr) :
  ∀ st, in_object st = true → object_count st ≠ 0%Z →
    Forall (fun l => record_start (strip l) = false) more →
    closes_at_end (object_count st) (map strip more) = true →
    ∃ st',
      feed_all st more =
        (replicate (length more - 1) JNull
           ++ [fst (outcome (buffer st ++ concat (map strip more)) (error_count st))], st')
      ∧ entry_count st' = S (entry_count st)
      ∧ error_count st' = snd (outcome (buffer st ++ concat (map strip more)) (error_count st))
      ∧ in_object st' = false.
Proof.
  induction more as [|line rest IH]; intros st Hin Hacc Hstart Hclose; [done|].
  inversion Hstart as [|? ? Hline Hrest]; subst.
  cbn [map closes_at_end feed_all concat] in *.
  destruct (decide (strip line = [])) as [Hblank|Hnonblank].
  - (* a blank line changes nothing *)
    rewrite Hblank in *. rewrite brace_step_blank in Hclose.
    assert (Hfeed : feed st line = (JNull, st)) by (unfold feed; by rewrite Hblank).
    rewrite Hfeed.
    destruct rest as [|l2 rest'].
    { simpl in Hclose. apply Z.eqb_eq in Hclose. done. }
    cbn [map] in Hclose. apply andb_prop in Hclose as [_ Hclose].
    destruct (IH st Hin Hacc Hrest Hclose) as (st' & -> & He & Hr & Hi).
    exists st'. simpl. rewrite Nat.sub_0_r. repeat split; try done.
  - rewrite (feed_accumulating st line (buffer st) (object_count st) Hnonblank).
    2: { by rewrite Hline. }
    2: { by rewrite Hline. }
    destruct rest as [|l2 rest'].
    + simpl in Hclose. rewrite Hclose. simpl. rewrite app_nil_r.
      destruct (parse_buffer_outcome
        {| buffer := buffer st ++ strip line; in_object := false;
           object_count := brace_step (object_count st) (strip line);
           entry_count := entry_count st; error_count := error_count st |})
        as (st' & -> & He & Hr & Hi).
      exists st'. simpl in *. repeat split; try done.
    + cbn [map] in Hclose. apply andb_prop in Hclose as [Hopen Hclose].
      apply negb_true_iff in Hopen. rewrite Hopen.
      set (st2 := {| buffer := buffer st ++ strip line; in_object := true;
                     object_count := brace_step (object_count st) (strip line);
                     entry_count := entry_count st; error_count := error_count st |}).
      destruct (IH st2) as (st' & -> & He & Hr & Hi); try done.
      { simpl. by apply Z.eqb_neq. }
      exists st'. simpl in *. rewrite Nat.sub_0_r, <- app_assoc in *.
      repeat split; try done.
Qed.

Lemma forallb_no_start (more : list pystr) :
  forallb (fun l => negb (record_start (strip l))) more = true →
  Forall (fun l => record_start (strip l) = false) more.
Proof.
  intros Hall. apply Forall_forall. intros l Hl.
  rewrite forallb_forall in Hall. apply negb_true_iff, Hall.
  by apply list_elem_of_In.
Qed.

Lemma record_start_strip_nonblank (line : pystr) :
  record_start (strip line) = true → strip line ≠ [].
Proof. intros Hs Hnil. by rewrite Hnil in Hs. Qed.

(** A record start followed by the chunks that close it: one result per
    chunk, [None] for all but the last. *)
Lemma feed_all_record (st : JSONStreamParser) (first : pystr) (more : list pystr) :
  record_start (strip first) = true →
  Forall (fun l => record_start (strip l) = false) more →
  closes_at_end 0 (map strip (first :: more)) = true →
  ∃ st',
    feed_all st (first :: more) =
      (replicate (length more) JNull
         ++ [fst (outcome (concat (map strip (first :: more))) (error_count st))], st')
    ∧ entry_count st' = S (entry_count st)
    ∧ error_count st' = snd (outcome (concat (map strip (first :: more))) (error_count st))
    ∧ in_object st' = false.
Proof.
  intros Hstart Hmore Hclose.
  cbn [map closes_at_end feed_all concat] in *.
  rewrite (feed_accumulating st first [] 0%Z (record_start_strip_nonblank _ Hstart)).
  2, 3: by rewrite Hstart.
  destruct more as [|l2 rest].
  - simpl in Hclose. rewrite Hclose. simpl. rewrite app_nil_r.
    destruct (parse_buffer_outcome
      {| buffer := strip first; in_object := false;
         object_count := brace_step 0 (strip first);
         entry_count := entry_count st; error_count := error_count st |})
      as (st' & -> & He & Hr & Hi).
    exists st'. simpl in *. repeat split; try done.
  - cbn [map] in Hclose. apply andb_prop in Hclose as [Hopen Hclose].
    apply negb_true_iff in Hopen. rewrite Hopen.
    set (st2 := {| buffer := [] ++ strip first; in_object := true;
                   object_count := brace_step 0 (strip first);
                   entry_count := entry_count st; error_count := error_count st |}).
    destruct (feed_all_completes (l2 :: rest) st2) as (st' & -> & He & Hr & Hi);
      try done.
    { simpl. by apply Z.eqb_neq. }
    exists st'. simpl in *. rewrite Nat.sub_0_r in *. repeat split; try done.
Qed.

(** ** Claim C3 *)

(** C3, counterexample.  The line made of an opening brace, the quoted key
    text, a colon and the quoted value it's, closed by a brace, is an object
    the decoder accepts as it stands, it starts a record and its braces
    balance; yet [feed] returns [None] and counts one failure, because the
    apostrophe is rewritten into a double quote before decoding. *)
Lemma feed_valid_record_rejected :
  let line := str "{" ++ q "text" ++ str ": " ++ q "it's" ++ str "}" in
  loads line = Ok (JObject [(str "text", JString (str "it's"))])
  ∧ record_start (strip line) = true
  ∧ closes_at_end 0 [strip line] = true
  ∧ fst (feed init line) = JNull
  ∧ error_count (snd (feed init line)) = 1%nat.
Proof. repeat split; vm_compute; reflexivity. Qed.

(** C3, as amended.  Take chunks whose first one starts a record and none
    of the others does, whose brace counter returns to zero at the last
    chunk and not before, and whose stripped concatenation is an object the
    decoder accepts and holds no apostrophe, no curly double quote and no
    escape of the right single curly quote.  Then feeding the chunks gives
    [None] for every chunk but the last and, for the last, the value the
    object gives to the key text (the empty string when the key is absent);
    one entry is counted and no failure. *)
Theorem feed_valid_record (st : JSONStreamParser) (first : pystr)
    (more : list pystr) (pairs : list (pystr * json)) :
  record_start (strip first) = true →
  forallb (fun l => negb (record_start (strip l))) more = true →
  closes_at_end 0 (map strip (first :: more)) = true →
  quote_free (concat (map strip (first :: more))) = true →
  loads (concat (map strip (first :: more))) = Ok (JObject pairs) →
  ∃ st',
    feed_all st (first :: more) =
      (replicate (length more) JNull ++ [dict_get (str "text") pairs (JString [])], st')
    ∧ entry_count st' = S (entry_count st)
    ∧ error_count st' = error_count st
    ∧ in_object st' = false.
Proof.
  intros Hstart Hmore Hclose Hquote Hvalid.
  destruct (feed_all_record st first more Hstart (forallb_no_start _ Hmore) Hclose)
    as (st' & Hfeed & He & Hr & Hi).
  assert (Hout : outcome (concat (map strip (first :: more))) (error_count st)
                 = (dict_get (str "text") pairs (JString []), error_count st)).
  { unfold outcome, parse_sanitized.
    rewrite (sanitize_valid _ _ Hquote Hvalid), Hvalid. done. }
  rewrite Hout in Hfeed, Hr. by exists st'.
Qed.

(** A record cut in three chunks, the middle one indented. *)
Lemma feed_valid_record_witness :
  ∃ st',
    feed_all init [str "{" ++ q "text" ++ str ":"; str "   " ++ q "abc"; str "}"] =
      ([JNull; JNull; JString (str "abc")], st')
    ∧ entry_count st' = 1%nat ∧ error_count st' = 0%nat ∧ in_object st' = false.
Proof.
  apply (feed_valid_record init (str "{" ++ q "text" ++ str ":")
           [str "   " ++ q "abc"; str "}"] [(str "text", JString (str "abc"))]);
    vm_compute; reflexivity.
Defined.

(** Two more valid records that [feed] does not return, which is why the
    amended statement counts every brace and asks that no later chunk starts
    a record: a closing brace inside the string value unbalances the
    counter, and a nested object whose first key is text, alone on its line,
    restarts the buffer. *)
Example feed_brace_inside_string :
  let line := str "{" ++ q "text" ++ str ": " ++ q "a } b" ++ str "}" in
  loads line = Ok (JObject [(str "text", JString (str "a } b"))])
  ∧ quote_free line = true
  ∧ closes_at_end 0 [strip line] = false
  ∧ fst (feed init line) = JNull
  ∧ in_object (snd (feed init line)) = true
  ∧ entry_count (snd (feed init line)) = 0%nat.
Proof. repeat split; vm_compute; reflexivity. Qed.

Example feed_restarted_by_nested_key :
  let l1 := str "{" ++ q "text" ++ str ": " ++ q "x" ++ str ", " ++ q "meta" ++ str ":" in
  let l2 := str "{" ++ q "text" ++ str ": " ++ q "y" ++ str "}}" in
  loads (strip l1 ++ strip l2)
  = Ok (JObject [(str "text", JString (str "x"));
                 (str "meta", JObject [(str "text", JString (str "y"))])])
  ∧ record_start (strip l2) = true
  ∧ fst (feed_all init [l1; l2]) = [JNull; JNull]
  ∧ buffer (snd (feed_all init [l1; l2])) = strip l2
  ∧ in_object (snd (feed_all init [l1; l2])) = true.
Proof. repeat split; vm_compute; reflexivity. Qed.

(** ** Claim C4 *)

Lemma process_lines_app (a b : list pystr) :
  ∀ st ex,
    process_lines st ex (a ++ b) =
      match process_lines st ex a with
      | Ok (ex', st') => process_lines st' ex' b
      | Raise e => Raise e
      end.
Proof.
  induction a as [|line a IH]; intros st ex; simpl; [done|].
  destruct (feed st line) as [r st1].
  destruct (extracted_of r) as [new|e]; simpl; [apply IH | done].
Qed.

(** While a record stays open, the reading loop extracts nothing and
    counts nothing. *)
Lemma process_lines_pending (more : list pystr) :
  ∀ st ex, in_object st = true → object_count st ≠ 0%Z →
    Forall (fun l => record_start (strip l) = false) more →
    stays_open (object_count st) (map strip more) = true →
    ∃ st',
      process_lines st ex more = Ok (ex, st')
      ∧ in_object st' = true
      ∧ buffer st' = buffer st ++ concat (map strip more)
      ∧ entry_count st' = entry_count st
      ∧ error_count st' = error_count st.
Proof.
  induction more as [|line rest IH]; intros st ex Hin Hacc Hstart Hopen.
  { exists st. simpl. by rewrite app_nil_r. }
  inversion Hstart as [|? ? Hline Hrest]; subst.
  cbn [map stays_open process_lines concat] in *.
  apply andb_prop in Hopen as [Hnz Hopen]. apply negb_true_iff in Hnz.
  destruct (decide (strip line = [])) as [Hblank|Hnonblank].
  - rewrite Hblank in *. rewrite brace_step_blank in Hopen.
    assert (Hfeed : feed st line = (JNull, st)) by (unfold feed; by rewrite Hblank).
    rewrite Hfeed. simpl. rewrite app_nil_r. by apply IH.
  - rewrite (feed_accumulating st line (buffer st) (object_count st) Hnonblank).
    2, 3: by rewrite Hline.
    rewrite Hnz. simpl. rewrite app_nil_r.
    set (st2 := {| buffer := buffer st ++ strip line; in_object := true;
                   object_count := brace_step (object_count st) (strip line);
                   entry_count := entry_count st; error_count := error_count st |}).
    destruct (IH st2 ex) as (st' & -> & Hi & Hb & He & Hr); try done.
    { simpl. by apply Z.eqb_neq. }
    exists st'. simpl in *. rewrite <- app_assoc in Hb. done.
Qed.

(** C4, counterexample.  The input made of the single line that opens a
    record with the quoted key text and the quoted value abc and never
    closes it leaves the parser accumulating at the end of the input;
    [process_file] then reports no extracted text and no failure: the failure
    counter is 0, not 1. *)
Lemma unbalanced_stream_unreported :
  let lines := [str "{" ++ q "text" ++ str ": " ++ q "abc"] in
  in_object (snd (feed_all init lines)) = true
  ∧ process_file lines = Ok (0%nat, 0%nat).
Proof. split; vm_compute; reflexivity. Qed.

(** C4, as amended.  The class has no [finalize] and [process_file] does
    nothing with the parser once the lines are exhausted.  When the input
    ends with a record start that no later line restarts and whose brace
    counter never returns to zero, the report is the one of the input without
    these lines: the pending record is held in the buffer of the parser, is
    not returned, and is not counted as an entry nor as a failure. *)
Theorem pending_record_dropped (before : list pystr) (first : pystr)
    (more : list pystr) :
  record_start (strip first) = true →
  forallb (fun l => negb (record_start (strip l))) more = true →
  stays_open 0 (map strip (first :: more)) = true →
  process_file (before ++ first :: more) = process_file before
  ∧ ∀ ex st, process_lines init [] before = Ok (ex, st) →
      ∃ st', process_lines init [] (before ++ first :: more) = Ok (ex, st')
             ∧ in_object st' = true
             ∧ buffer st' = concat (map strip (first :: more))
             ∧ entry_count st' = entry_count st
             ∧ error_count st' = error_count st.
Proof.
  intros Hstart Hmore Hopen. apply forallb_no_start in Hmore.
  assert (Htail : ∀ ex st,
    ∃ st', process_lines st ex (first :: more) = Ok (ex, st')
           ∧ in_object st' = true
           ∧ buffer st' = concat (map strip (first :: more))
           ∧ entry_count st' = entry_count st
           ∧ error_count st' = error_count st).
  { intros ex st. cbn [map stays_open process_lines concat] in *.
    apply andb_prop in Hopen as [Hnz Hopen]. apply negb_true_iff in Hnz.
    rewrite (feed_accumulating st first [] 0%Z (record_start_strip_nonblank _ Hstart)).
    2, 3: by rewrite Hstart.
    rewrite Hnz. simpl. rewrite app_nil_r.
    set (st2 := {| buffer := strip first; in_object := true;
                   object_count := brace_step 0 (strip first);
                   entry_count := entry_count st; error_count := error_count st |}).
    destruct (process_lines_pending more st2 ex) as (st' & -> & Hi & Hb & He & Hr);
      try done.
    { simpl. by apply Z.eqb_neq. }
    by exists st'. }
  split.
  - unfold process_file. rewrite process_lines_app.
    destruct (process_lines init [] before) as [[ex st]|e]; [|done].
    destruct (Htail ex st) as (st' & -> & _ & _ & _ & Hr). simpl. by rewrite Hr.
  - intros ex st Hbefore. rewrite process_lines_app, Hbefore. apply Htail.
Qed.

(** A complete record, then a record that is opened over two lines and
    never closed. *)
Lemma pending_record_dropped_witness :
  let before := [str "{" ++ q "text" ++ str ": " ++ q "abc" ++ str "}"] in
  let first := str "{" ++ q "text" ++ str ": " in
  let more := [q "def" ++ str ","] in
  process_file (before ++ first :: more) = process_file before
  ∧ ∀ ex st, process_lines init [] before = Ok (ex, st) →
      ∃ st', process_lines init [] (before ++ first :: more) = Ok (ex, st')
             ∧ in_object st' = true
             ∧ buffer st' = concat (map strip (first :: more))
             ∧ entry_count st' = entry_count st
             ∧ error_count st' = error_count st.
Proof.
  apply (pending_record_dropped
           [str "{" ++ q "text" ++ str ": " ++ q "abc" ++ str "}"]
           (str "{" ++ q "text" ++ str ": ") [q "def" ++ str ","]);
    vm_compute; reflexivity.
Defined.

(** ** Claim C5 *)

(** C5.  The text handed to the decoder is the buffer after the quote
    normalisation, then after the collapse of a comma standing before the
    final closing brace, in this order, and nothing else is rewritten: a
    buffer without the quotes in question and without such a comma reaches
    the decoder unchanged.  The line made of an opening brace, the quoted
    key text, a colon, the quoted value abc, a comma and a closing brace is
    repaired by the second step alone and [feed] returns abc for it without
    counting a failure; the same line written with apostrophes needs both
    steps and gives abc as well; a line that misses the comma between two
    pairs is not repaired and is counted as a failure. *)
Theorem repair_order :
  (∀ buf, parse_sanitized buf =
          match loads (collapse_trailing_comma (normalize_quotes buf)) with
          | Ok (JObject pairs) => Ok (dict_get (str "text") pairs (JString []))
          | Ok _ => Raise AttributeError
          | Raise e => Raise e
          end)
  ∧ (∀ buf, quote_free buf = true → trailing_comma buf = None →
            collapse_trailing_comma (normalize_quotes buf) = buf)
  ∧ (let line := str "{" ++ q "text" ++ str ": " ++ q "abc" ++ str ",}" in
     normalize_quotes line = line
     ∧ collapse_trailing_comma line = str "{" ++ q "text" ++ str ": " ++ q "abc" ++ str "}"
     ∧ fst (feed init line) = JString (str "abc")
     ∧ error_count (snd (feed init line)) = 0%nat)
  ∧ (let line := str "{" ++ q "text" ++ str ": 'abc' , }" in
     fst (feed init line) = JString (str "abc")
     ∧ error_count (snd (feed init line)) = 0%nat)
  ∧ (let line := str "{" ++ q "text" ++ str ": " ++ q "abc" ++ str " " ++ q "n" ++ str ": 1}" in
     fst (feed init line) = JNull
     ∧ error_count (snd (feed init line)) = 1%nat).
Proof.
  split; [|split; [|split; [|split]]].
  - intros buf. unfold parse_sanitized, sanitize.
    destruct (loads _) as [[]|]; reflexivity.
  - intros buf Hq Hc. rewrite (normalize_quotes_id _ Hq).
    unfold collapse_trailing_comma. by rewrite Hc.
  - repeat split; vm_compute; reflexivity.
  - split; vm_compute; reflexivity.
  - split; vm_compute; reflexivity.
Qed.

End ExtractorFacts.

(** ** cleaning.py: the filter *)

Module CleaningFacts.
Import Cleaning.

Section Filter.
Context `{Library}.

Lemma with_logger_same (self : AcademicContentFilter) :
  with_logger self (logger self) = self.
Proof. by destruct self. Qed.

(** [_is_low_quality] reads the object but only ever adds to its logger,
    and what it returns and adds does not depend on the logger. *)
Lemma is_low_quality_logger (text : pystr) (self : AcademicContentFilter) :
  ∃ r added, ∀ l,
    _is_low_quality text (with_logger self l) = (r, with_logger self (l ++ added)).
Proof.
  unfold _is_low_quality, try_except, mbind, method_bind, lift, attr, log, mret,
    method_ret.
  destruct (alpha_words text) as [words|e].
  - destruct (10000 <? Z.of_nat (length words))%Z.
    + exists (Ok false), [LogWarning (length words)]. intros l. reflexivity.
    + simpl. destruct (Z.of_nat (length words) <? _)%Z.
      * exists (Ok true), []. intros l. by rewrite app_nil_r.
      * destruct (ratio_gt _ _ _) as [b|e] eqn:Hr.
        -- exists (Ok b), []. intros l. by rewrite app_nil_r.
        -- destruct (is_RuntimeError e) eqn:He.
           ++ exists (Ok false), [LogError e]. intros l. by rewrite ?He.
           ++ exists (Raise e), []. intros l. by rewrite ?He, app_nil_r.
  - destruct (is_RuntimeError e) eqn:He.
    + exists (Ok false), [LogError e]. intros l. simpl. by rewrite ?He.
    + exists (Raise e), []. intros l. simpl. by rewrite ?He, app_nil_r.
Qed.

Lemma filter_rules_logger (text : pystr) (self : AcademicContentFilter) :
  ∃ r added, ∀ l,
    filter_rules text (with_logger self l) = (r, with_logger self (l ++ added)).
Proof.
  destruct (is_low_quality_logger text self) as (r & added & Hlow).
  assert (Hunfold : ∀ l, filter_rules text (with_logger self l) =
    if ad_keyword_hit (config self) text then (Ok true, with_logger self l)
    else if re_search (ref_regex self) text || re_search (author_regex self) text
    then (Ok true, with_logger self l)
    else
      match _is_low_quality text (with_logger self l) with
      | (Ok low, self') =>
          (Ok (if low then true else if _is_nonsense text then true else false), self')
      | (Raise e, self') => (Raise e, self')
      end).
  { intros l. unfold filter_rules, mbind, method_bind, attr, mret, method_ret.
    cbn [with_logger config ref_regex author_regex].
    destruct (ad_keyword_hit (config self) text); [done|].
    cbn beta iota delta [with_logger config ref_regex author_regex].
    destruct (re_search (ref_regex self) text || re_search (author_regex self) text);
      [done|].
    cbn beta.
    destruct (_is_low_quality text _) as [[[|]|e] self']; try done.
    by destruct (_is_nonsense text). }
  destruct (ad_keyword_hit (config self) text) eqn:Had.
  { exists (Ok true), []. intros l. by rewrite Hunfold, app_nil_r. }
  destruct (re_search (ref_regex self) text || re_search (author_regex self) text)
    eqn:Hre.
  { exists (Ok true), []. intros l. by rewrite Hunfold, app_nil_r. }
  destruct r as [low|e].
  - exists (Ok (if low then true else if _is_nonsense text then true else false)), added.
    intros l. by rewrite Hunfold, Hlow.
  - exists (Raise e), added. intros l. by rewrite Hunfold, Hlow.
Qed.

Lemma filter_text_logger (text : pystr) (self : AcademicContentFilter) :
  ∃ b added, ∀ l,
    _filter_text text (with_logger self l) = (Ok b, with_logger self (l ++ added)).
Proof.
  destruct (filter_rules_logger text self) as (r & added & Hrules).
  unfold _filter_text, try_except, mbind, method_bind, log, mret, method_ret.
  destruct r as [b|e].
  - exists b, added. intros l. by rewrite Hrules.
  - exists false, (added ++ [LogError e]). intros l. rewrite Hrules. simpl.
    by rewrite app_assoc.
Qed.

Lemma same_attributes (self self' : AcademicContentFilter) :
  config self' = config self → ref_regex self' = ref_regex self →
  author_regex self' = author_regex self → stop_words self' = stop_words self →
  self' = with_logger self (logger self').
Proof. destruct self, self'. simpl. by intros -> -> -> ->. Qed.

Lemma is_low_quality_unfold (text : pystr) (self : AcademicContentFilter) :
  _is_low_quality text self =
    match alpha_words text with
    | Ok words =>
        if (10000 <? Z.of_nat (length words))%Z then
          (Ok false, with_logger self (logger self ++ [LogWarning (length words)]))
        else if (Z.of_nat (length words) <? min_paragraph_length (config self))%Z then
          (Ok true, self)
        else
          match ratio_gt (length (filter (fun w => w ∈ stop_words self) words))
                         (length words) (max_stopword_ratio (config self)) with
          | Ok b => (Ok b, self)
          | Raise e =>
              if is_RuntimeError e
              then (Ok false, with_logger self (logger self ++ [LogError e]))
              else (Raise e, self)
          end
    | Raise e =>
        if is_RuntimeError e
        then (Ok false, with_logger self (logger self ++ [LogError e]))
        else (Raise e, self)
    end.
Proof.
  unfold _is_low_quality, try_except, mbind, method_bind, lift, attr, log, mret,
    method_ret.
  destruct (alpha_words text) as [words|e]; [|done].
  destruct (10000 <? Z.of_nat (length words))%Z; [done|].
  cbn beta iota.
  destruct (Z.of_nat (length words) <? _)%Z; [done|].
  by destruct (ratio_gt _ _ _).
Qed.

(** ** Claim C6 *)

(** C6, as amended.  When a configured ad keyword that is written in lower
    case occurs in the text, the case of the text being ignored,
    [_filter_text] returns [True] (the text is to be removed) from its first
    rule: the result does not depend on what the reference and author
    patterns, the tokenizer or the later rules would do, nothing is logged
    and nothing is raised, and two texts that differ by case get the same
    answer.  The answer is the boolean alone.  The witness is the scenario of
    the specification: the text Sponsored content about discounts under the
    default keywords. *)
Theorem ad_keyword_wins (self : AcademicContentFilter) (text kw : pystr) :
  kw ∈ ad_keywords (config self) →
  lower kw = kw →
  contains (lower kw) (lower text) = true →
  _filter_text text self = (Ok true, self)
  ∧ ∀ text', lower text' = lower text → _filter_text text' self = (Ok true, self).
Proof.
  intros Hkw Hlow Hin.
  assert (Hhit : ∀ t, lower t = lower text → ad_keyword_hit (config self) t = true).
  { intros t Ht. unfold ad_keyword_hit. apply existsb_exists. exists kw.
    split; [by apply list_elem_of_In|]. by rewrite Ht, <- Hlow. }
  assert (Hwin : ∀ t, ad_keyword_hit (config self) t = true →
                      _filter_text t self = (Ok true, self)).
  { intros t Ht.
    unfold _filter_text, try_except, filter_rules, mbind, method_bind, attr, mret,
      method_ret.
    by rewrite Ht. }
  split; [by apply Hwin, Hhit|].
  intros text' Hlower. by apply Hwin, Hhit.
Qed.

(** ** Claim C7 *)

(** C7.  [_filter_text] is a function of the text and of the attributes set
    at construction.  It changes nothing in the object but the records of
    the logger, two objects with the same configuration, patterns and stop
    words give the same verdict whatever their loggers hold, and so a second
    call on the object left by a first call returns the same verdict. *)
Theorem filter_deterministic (self : AcademicContentFilter) (text : pystr) :
  fst (_filter_text text (snd (_filter_text text self))) = fst (_filter_text text self)
  ∧ (∃ added, snd (_filter_text text self) = with_logger self (logger self ++ added))
  ∧ (∀ self', config self' = config self → ref_regex self' = ref_regex self →
       author_regex self' = author_regex self → stop_words self' = stop_words self →
       fst (_filter_text text self') = fst (_filter_text text self)).
Proof.
  destruct (filter_text_logger text self) as (b & added & Hcall).
  assert (Hself : _filter_text text self
                  = (Ok b, with_logger self (logger self ++ added))).
  { rewrite <- (Hcall (logger self)). by rewrite with_logger_same. }
  repeat split.
  - rewrite Hself. cbn [fst snd]. by rewrite Hcall.
  - exists added. by rewrite Hself.
  - intros self' Hc Hr Ha Hs.
    rewrite (same_attributes self self' Hc Hr Ha Hs), Hcall. by rewrite Hself.
Qed.

(** ** Claim C8 *)

(** C8, as amended.  For a text without alphabetic token and a configured
    minimum length of at least 1, [_is_low_quality] returns [True] from the
    length test; the ratio is not computed, so nothing is divided by zero. *)
Theorem zero_tokens_low_quality (self : AcademicContentFilter) (text : pystr) :
  alpha_words text = Ok [] →
  (0 < min_paragraph_length (config self))%Z →
  _is_low_quality text self = (Ok true, self).
Proof.
  intros Hwords Hmin. rewrite is_low_quality_unfold, Hwords.
  change (Z.of_nat (length (@nil pystr))) with 0%Z.
  change (10000 <? 0)%Z with false. cbn iota.
  destruct (Z.ltb_spec 0 (min_paragraph_length (config self))); [done | lia].
Qed.

(** ** Claim C9 *)

(** C9.  A text with more than 10000 alphabetic tokens (the guard is this
    constant of the method) makes [_is_low_quality] log a warning and return
    [False], whatever the configuration and the stop words are. *)
Theorem overlong_text_skipped (self : AcademicContentFilter) (text : pystr)
    (words : list pystr) :
  alpha_words text = Ok words →
  (10000 < Z.of_nat (length words))%Z →
  _is_low_quality text self
  = (Ok false, with_logger self (logger self ++ [LogWarning (length words)])).
Proof.
  intros Hwords Hlong. rewrite is_low_quality_unfold, Hwords.
  destruct (Z.ltb_spec 10000 (Z.of_nat (length words))); [done | lia].
Qed.

(** ** Claim C10 *)

(** C10.  [_filter_text] always returns a boolean, and when the evaluation
    of its rules raises, the exception is caught and the boolean is [False]:
    the text is kept. *)
Theorem filter_text_never_raises (self : AcademicContentFilter) (text : pystr) :
  (∃ b, fst (_filter_text text self) = Ok b)
  ∧ ∀ e, fst (filter_rules text self) = Raise e →
         _filter_text text self
         = (Ok false, with_logger (snd (filter_rules text self))
                        (logger (snd (filter_rules text self)) ++ [LogError e])).
Proof.
  split.
  - destruct (filter_text_logger text self) as (b & added & Hcall).
    exists b. rewrite <- (with_logger_same self). by rewrite Hcall.
  - intros e He.
    unfold _filter_text, try_except, mbind, method_bind, log, mret, method_ret.
    destruct (filter_rules text self) as [r self']. simpl in He. by rewrite He.
Qed.

End Filter.

(** *** Closed instances *)

(** The scenario of C6 on the ASCII library. *)
Lemma ad_keyword_wins_witness :
  let self := new default_config [] in
  let text := str "Sponsored content about discounts" in
  @_filter_text ascii_library text self = (Ok true, self)
  ∧ ∀ text', map ascii_lower_char text' = map ascii_lower_char text →
      @_filter_text ascii_library text' self = (Ok true, self).
Proof.
  apply (@ad_keyword_wins ascii_library (new default_config [])
           (str "Sponsored content about discounts") (str "sponsored")).
  - by left.
  - vm_compute; reflexivity.
  - vm_compute; reflexivity.
Defined.

(** C6, counterexample.  The keywords are compared as they are configured,
    only the text is lower-cased: with the keyword Sponsored configured, the
    text Sponsored content about discounts holds the keyword, letter for
    letter, and yet the first rule does not fire; no later rule fires either
    (four alphabetic tokens where three are asked for) and the text is
    kept. *)
Lemma ad_keyword_configured_with_capital :
  let cfg := {| min_paragraph_length := 3; max_stopword_ratio := (6 # 10)%Q;
                reference_patterns := reference_patterns default_config;
                author_info_patterns := author_info_patterns default_config;
                ad_keywords := [str "Sponsored"] |} in
  let self := new cfg [] in
  let text := str "Sponsored content about discounts" in
  contains (str "Sponsored") text = true
  ∧ @ad_keyword_hit ascii_library cfg text = false
  ∧ @_filter_text ascii_library text self = (Ok false, self).
Proof. repeat split; vm_compute; reflexivity. Qed.

(** C8, counterexample.  With a configured minimum length of 0, the text
    12 34 has no alphabetic token, the length test does not fire and the
    ratio divides by zero; [_is_low_quality] raises [ZeroDivisionError], and
    [_filter_text], which catches it, keeps the text. *)
Lemma zero_tokens_division_by_zero :
  let cfg := {| min_paragraph_length := 0; max_stopword_ratio := (6 # 10)%Q;
                reference_patterns := reference_patterns default_config;
                author_info_patterns := author_info_patterns default_config;
                ad_keywords := ad_keywords default_config |} in
  let self := new cfg [] in
  @alpha_words ascii_library (str "12 34") = Ok []
  ∧ fst (@_is_low_quality ascii_library (str "12 34") self) = Raise ZeroDivisionError
  ∧ fst (@_filter_text ascii_library (str "12 34") self) = Ok false.
Proof. repeat split; vm_compute; reflexivity. Qed.

Lemma zero_tokens_low_quality_witness :
  @_is_low_quality ascii_library (str "12 34") (new default_config [])
  = (Ok true, new default_config []).
Proof.
  apply (@zero_tokens_low_quality ascii_library (new default_config []) (str "12 34"));
    vm_compute; reflexivity.
Defined.

(** A text of 10001 one-letter words. *)
Definition long_text : pystr := concat (replicate (N.to_nat 10001) (str "a ")).

Lemma overlong_text_skipped_witness :
  fst (@_is_low_quality ascii_library long_text (new default_config [])) = Ok false.
Proof.
  refine (f_equal fst
    (@overlong_text_skipped ascii_library (new default_config []) long_text
       (replicate (N.to_nat 10001) (str "a")) _ _)); vm_compute; reflexivity.
Defined.

(** Without the tokenizer models, every text that passes the first two
    rules is kept. *)
Lemma filter_text_never_raises_witness :
  fst (@_filter_text offline_library (str "plain words") (new default_config []))
  = Ok false.
Proof.
  refine (f_equal fst
    (proj2 (@filter_text_never_raises offline_library (new default_config [])
              (str "plain words")) LookupError _)).
  vm_compute; reflexivity.
Defined.

End CleaningFacts.

(** ** deduplication.py *)

Module DedupFacts.
Import Dedup.

Section Index.
Context `{Datasketch}.

Lemma length_update (m : MinHash) (word : pystr) : length (update m word) = length m.
Proof. unfold update. apply length_imap. Qed.

Lemma length_signature (text : pystr) : length (signature text) = num_perm.
Proof.
  unfold signature.
  assert (Hfold : ∀ words m, length (foldl update m words) = length m).
  { induction words as [|w words IH]; intros m; simpl; [done|].
    by rewrite IH, length_update. }
  rewrite Hfold. apply length_replicate.
Qed.

(** [get_minhash] returns the signature when every token has an encoding,
    and raises at the first token that has none. *)
Lemma update_words_outcome (words : list pystr) :
  ∀ m,
    update_words m words
    = if forallb (fun word => negb (existsb is_surrogate word)) words
      then Ok (foldl update m words)
      else Raise UnicodeEncodeError.
Proof.
  induction words as [|w words IH]; intros m; [done|].
  cbn [update_words forallb foldl]. unfold encode_utf8.
  destruct (existsb is_surrogate w); [done|].
  cbn [mbind result_bind negb andb]. apply IH.
Qed.

Lemma get_minhash_outcome (text : pystr) :
  get_minhash text
  = if encodable text then Ok (signature text) else Raise UnicodeEncodeError.
Proof. apply update_words_outcome. Qed.

Lemma get_minhash_signature (text : pystr) (m : MinHash) :
  get_minhash text = Ok m → encodable text = true ∧ m = signature text.
Proof.
  rewrite get_minhash_outcome. destruct (encodable text); [|done].
  by intros [= <-].
Qed.

(** The index [lsh] holds exactly the keys and signatures of [entries]. *)
Definition holds (lsh : MinHashLSH) (entries : list (nat * MinHash)) : Prop :=
  length (hashtables lsh) = bands lsh
  ∧ (∀ k, k ∈ keys lsh ↔ ∃ m, (k, m) ∈ entries)
  ∧ (∀ i t h k, hashtables lsh !! i = Some t →
       k ∈ table_get t h ↔ ∃ m, (k, m) ∈ entries ∧ band (rows lsh) i m = h).

Lemma table_get_add (t : gmap (list Z) (gset nat)) (h h' : list Z) (key k : nat) :
  k ∈ table_get (table_add t h key) h' ↔ (k = key ∧ h = h') ∨ k ∈ table_get t h'.
Proof.
  unfold table_add, table_get.
  destruct (decide (h = h')) as [->|Hne].
  - rewrite lookup_insert_eq. simpl. rewrite elem_of_union, elem_of_singleton.
    tauto.
  - rewrite lookup_insert_ne by done. split; [by right|].
    by intros [[_ Heq]|Hk].
Qed.

Lemma new_holds (threshold : Q) (lsh : MinHashLSH) :
  MinHashLSH_new threshold = Ok lsh → holds lsh [] ∧ (2 ≤ bands lsh)%nat.
Proof.
  unfold MinHashLSH_new. destruct (_ || _); [done|].
  destruct (optimal_param threshold) as [b r].
  destruct (Nat.ltb_spec b 2) as [|Hb]; [done|]. intros [= <-]. simpl.
  split; [|done]. split; [|split].
  - apply length_replicate.
  - intros k. split.
    + intros Hk. by apply elem_of_empty in Hk.
    + intros [m Hm]. by apply elem_of_nil in Hm.
  - intros i t h k Ht. simpl in Ht. apply lookup_replicate in Ht as [-> _].
    unfold table_get. rewrite lookup_empty. simpl. split.
    + intros Hk. by apply elem_of_empty in Hk.
    + intros (m & Hm & _). by apply elem_of_nil in Hm.
Qed.

Lemma insert_holds (lsh : MinHashLSH) (entries : list (nat * MinHash))
    (key : nat) (m : MinHash) :
  holds lsh entries → length m = num_perm → key ∉ keys lsh →
  ∃ lsh', insert lsh key m = Ok lsh'
          ∧ holds lsh' (entries ++ [(key, m)])
          ∧ bands lsh' = bands lsh ∧ rows lsh' = rows lsh.
Proof.
  intros (Hlen & Hkeys & Htables) Hm Hfresh. unfold insert.
  rewrite (bool_decide_eq_true_2 _ Hm), (bool_decide_eq_false_2 _ Hfresh).
  eexists. split; [done|]. split; [|done].
  split; [|split]; simpl.
  - by rewrite length_imap.
  - intros k. rewrite elem_of_union, elem_of_singleton, Hkeys.
    split.
    + intros [->|[m' Hm']]; [exists m | exists m']; apply elem_of_app.
      * right. by apply list_elem_of_singleton.
      * by left.
    + intros [m' Hm']. apply elem_of_app in Hm' as [Hm'|Hm'].
      * right. by exists m'.
      * left. apply list_elem_of_singleton in Hm'. by injection Hm'.
  - intros i t h k Ht. rewrite list_lookup_imap in Ht.
    destruct (hashtables lsh !! i) as [t0|] eqn:Ht0; [|done].
    injection Ht as <-. rewrite table_get_add, (Htables i t0 h k Ht0).
    split.
    + intros [[-> <-]|(m' & Hm' & Hb)].
      * exists m. split; [|done]. apply elem_of_app. right.
        by apply list_elem_of_singleton.
      * exists m'. split; [|done]. apply elem_of_app. by left.
    + intros (m' & Hm' & Hb). apply elem_of_app in Hm' as [Hm'|Hm'].
      * right. by exists m'.
      * left. apply list_elem_of_singleton in Hm'. injection Hm' as -> ->. done.
Qed.

Lemma insert_inv (lsh lsh' : MinHashLSH) (key : nat) (m : MinHash) :
  insert lsh key m = Ok lsh' → length m = num_perm ∧ key ∉ keys lsh.
Proof.
  unfold insert. destruct (bool_decide (length m = num_perm)) eqn:Hm; [|done].
  destruct (bool_decide (key ∈ keys lsh)) eqn:Hk; [done|]. intros _.
  split; [by apply bool_decide_eq_true in Hm | by apply bool_decide_eq_false in Hk].
Qed.

(** What a query finds. *)
Lemma query_holds (lsh : MinHashLSH) (entries : list (nat * MinHash)) (m : MinHash) :
  holds lsh entries → length m = num_perm →
  ∃ found, query lsh m = Ok found
    ∧ ∀ k, k ∈ found ↔
        ∃ i m', (i < bands lsh)%nat ∧ (k, m') ∈ entries
                ∧ band (rows lsh) i m' = band (rows lsh) i m.
Proof.
  intros (Hlen & _ & Htables) Hm. unfold query.
  rewrite (bool_decide_eq_true_2 _ Hm). eexists. split; [done|].
  intros k. rewrite elem_of_union_list. split.
  - intros (X & HX & Hk). apply elem_of_lookup_imap in HX as (i & t & -> & Ht).
    apply (Htables i t _ k Ht) in Hk as (m' & Hm' & Hb).
    exists i, m'. split; [|done].
    rewrite <- Hlen. apply lookup_lt_is_Some. by exists t.
  - intros (i & m' & Hi & Hm' & Hb).
    rewrite <- Hlen in Hi. apply lookup_lt_is_Some in Hi as [t Ht].
    exists (table_get t (band (rows lsh) i m)). split.
    + apply elem_of_lookup_imap. by exists i, t.
    + apply (Htables i t _ k Ht). by exists m'.
Qed.

Lemma collide_spec (b r : nat) (x y : pystr) :
  collide b r x y = true ↔
  ∃ i, (i < b)%nat ∧ band r i (signature x) = band r i (signature y).
Proof.
  unfold collide. rewrite existsb_exists. split.
  - intros (i & Hi & Hb). apply in_seq in Hi. apply bool_decide_eq_true in Hb.
    exists i. split; [lia | done].
  - intros (i & Hi & Hb). exists i. split.
    + apply in_seq. lia.
    + by apply bool_decide_eq_true.
Qed.

Lemma collide_refl (b r : nat) (x : pystr) : (0 < b)%nat → collide b r x x = true.
Proof. intros Hb. apply collide_spec. by exists 0%nat. Qed.

(** The query of the loop is empty exactly when the text collides with
    none of the texts kept so far. *)
Lemma query_kept (lsh : MinHashLSH) (entries : list (nat * MinHash))
    (kept : list pystr) (text : pystr) :
  holds lsh entries → entries.*2 = signature <$> kept →
  ∃ found, query lsh (signature text) = Ok found
    ∧ (bool_decide (found = ∅)
       = negb (existsb (collide (bands lsh) (rows lsh) text) kept)).
Proof.
  intros Hholds Hsigs.
  destruct (query_holds lsh entries (signature text) Hholds (length_signature text))
    as (found & Hq & Hfound).
  exists found. split; [done|].
  destruct (existsb _ kept) eqn:Hex; simpl.
  - apply bool_decide_eq_false. apply existsb_exists in Hex as (x & Hx & Hc).
    apply collide_spec in Hc as (i & Hi & Hb).
    apply list_elem_of_In in Hx.
    assert (Hm : signature x ∈ entries.*2).
    { rewrite Hsigs. by apply list_elem_of_fmap_2. }
    apply list_elem_of_fmap in Hm as ([k m] & Hkm & Hin). simpl in Hkm. subst m.
    intros Hempty. assert (Hk : k ∈ found).
    { apply Hfound. by exists i, (signature x). }
    rewrite Hempty in Hk. by apply elem_of_empty in Hk.
  - apply bool_decide_eq_true. apply set_eq. intros k. rewrite elem_of_empty.
    split; [|done]. intros Hk. apply Hfound in Hk as (i & m' & Hi & Hin & Hb).
    assert (Hm : m' ∈ entries.*2).
    { apply list_elem_of_fmap. by exists (k, m'). }
    rewrite Hsigs in Hm. apply list_elem_of_fmap in Hm as (x & -> & Hx).
    assert (Hc : existsb (collide (bands lsh) (rows lsh) text) kept = true).
    { apply existsb_exists. exists x. split; [by apply list_elem_of_In|].
      apply collide_spec. by exists i. }
    congruence.
Qed.

(** When every token of every text has an encoding, the loop keeps the
    first text of every group; otherwise it raises when it reaches the first
    text with a token that has none. *)
Lemma dedup_loop_first_wins (texts : list pystr) :
  ∀ lsh entries unique i,
    holds lsh entries → entries.*2 = signature <$> unique →
    (∀ k m, (k, m) ∈ entries → (k < i)%nat) →
    dedup_loop lsh unique i texts
    = if forallb encodable texts
      then Ok (unique ++ first_of_groups (bands lsh) (rows lsh) unique texts)
      else Raise UnicodeEncodeError.
Proof.
  induction texts as [|text rest IH]; intros lsh entries unique i Hholds Hsigs Hkeys.
  { simpl. by rewrite app_nil_r. }
  cbn [dedup_loop first_of_groups forallb]. rewrite get_minhash_outcome.
  destruct (encodable text); [|done]. cbn [mbind result_bind andb].
  destruct (query_kept lsh entries unique text Hholds Hsigs) as (found & -> & Hempty).
  cbn [mbind result_bind]. rewrite Hempty.
  destruct (existsb _ unique); simpl.
  - apply (IH lsh entries); try done. intros k m Hk. apply Hkeys in Hk. lia.
  - assert (Hfresh : i ∉ keys lsh).
    { intros Hi. apply Hholds in Hi as [m Hm]. apply Hkeys in Hm. lia. }
    destruct (insert_holds lsh entries i (signature text) Hholds
                (length_signature text) Hfresh)
      as (lsh' & -> & Hholds' & Hb & Hr).
    cbn [mbind result_bind].
    rewrite (IH lsh' (entries ++ [(i, signature text)])); try done.
    + by rewrite Hb, Hr, <- app_assoc.
    + by rewrite !fmap_app, Hsigs.
    + intros k m Hk. apply elem_of_app in Hk as [Hk|Hk].
      * apply Hkeys in Hk. lia.
      * apply list_elem_of_singleton in Hk. injection Hk as -> _. lia.
Qed.

Lemma first_of_groups_sublist (b r : nat) (texts : list pystr) :
  ∀ kept, first_of_groups b r kept texts `sublist_of` texts.
Proof.
  induction texts as [|t rest IH]; intros kept; simpl; [done|].
  destruct (existsb _ kept).
  - apply sublist_cons, IH.
  - apply sublist_skip, IH.
Qed.

Lemma first_of_groups_NoDup (b r : nat) (texts : list pystr) :
  (0 < b)%nat →
  ∀ kept, NoDup kept → NoDup (kept ++ first_of_groups b r kept texts).
Proof.
  intros Hb. induction texts as [|t rest IH]; intros kept Hkept; simpl.
  { by rewrite app_nil_r. }
  destruct (existsb (collide b r t) kept) eqn:Hex; [by apply IH|].
  replace (kept ++ t :: first_of_groups b r (kept ++ [t]) rest)
    with ((kept ++ [t]) ++ first_of_groups b r (kept ++ [t]) rest)
    by by rewrite <- app_assoc.
  apply IH. apply NoDup_app. split; [done|]. split; [|apply NoDup_singleton].
  intros x Hx Hxt. apply list_elem_of_singleton in Hxt as ->.
  assert (Hc : existsb (collide b r t) kept = true); [|congruence].
  apply existsb_exists. exists t. split; [by apply list_elem_of_In|].
  by apply collide_refl.
Qed.

(** [deduplicate_texts] on a threshold for which the index can be built. *)
Lemma deduplicate_texts_first_wins (texts : list pystr) (threshold : Q)
    (lsh0 : MinHashLSH) :
  MinHashLSH_new threshold = Ok lsh0 →
  deduplicate_texts texts threshold
  = if forallb encodable texts
    then Ok (first_of_groups (bands lsh0) (rows lsh0) [] texts)
    else Raise UnicodeEncodeError.
Proof.
  intros Hnew. destruct (new_holds threshold lsh0 Hnew) as [Hholds _].
  unfold deduplicate_texts. rewrite Hnew. cbn [mbind result_bind].
  rewrite (dedup_loop_first_wins texts lsh0 [] [] 0%nat Hholds); try done.
  intros k m Hk. by apply elem_of_nil in Hk.
Qed.

(** What a returned list tells: the index was built, every token had an
    encoding, and the list is the first text of every group. *)
Lemma deduplicate_texts_returned (texts out : list pystr) (threshold : Q) :
  deduplicate_texts texts threshold = Ok out →
  ∃ lsh0, MinHashLSH_new threshold = Ok lsh0
          ∧ forallb encodable texts = true
          ∧ out = first_of_groups (bands lsh0) (rows lsh0) [] texts.
Proof.
  intros Hout. destruct (MinHashLSH_new threshold) as [lsh0|e] eqn:Hnew.
  - rewrite (deduplicate_texts_first_wins texts threshold lsh0 Hnew) in Hout.
    destruct (forallb encodable texts); [|done].
    injection Hout as <-. by exists lsh0.
  - unfold deduplicate_texts in Hout. by rewrite Hnew in Hout.
Qed.

Lemma reachable_holds (lsh : MinHashLSH) :
  reachable lsh → (∃ entries, holds lsh entries) ∧ (2 ≤ bands lsh)%nat.
Proof.
  induction 1 as [threshold lsh Hnew | lsh key m lsh' _ [[entries IH] Hb] Hins].
  - apply new_holds in Hnew as [Hholds Hb]. split; [by exists []|done].
  - destruct (insert_inv _ _ _ _ Hins) as [Hm Hfresh].
    destruct (insert_holds lsh entries key m IH Hm Hfresh)
      as (lsh2 & Hins2 & Hholds & Hb2 & _).
    rewrite Hins in Hins2. injection Hins2 as <-.
    split; [by eexists|]. by rewrite Hb2.
Qed.

(** ** Claim C1 *)

(** C1.  For a threshold the index can be built for and texts whose
    tokens all have a UTF-8 encoding (without either there is no output: the
    constructor or [encode] raises), [deduplicate_texts] returns the texts
    that collide with no text kept before them, in the order of the input:
    the output is a subsequence of the input made of the first member of
    every group of colliding texts.  For three texts A, B, A2 where B does
    not collide with A and A2 does, the output is A, B. *)
Theorem first_occurrence_order (texts : list pystr) (threshold : Q)
    (lsh0 : MinHashLSH) :
  MinHashLSH_new threshold = Ok lsh0 →
  forallb encodable texts = true →
  ∃ out,
    deduplicate_texts texts threshold = Ok out
    ∧ out = first_of_groups (bands lsh0) (rows lsh0) [] texts
    ∧ out `sublist_of` texts
    ∧ ∀ A B A2, texts = [A; B; A2] →
        collide (bands lsh0) (rows lsh0) B A = false →
        collide (bands lsh0) (rows lsh0) A2 A = true →
        out = [A; B].
Proof.
  intros Hnew Henc. eexists. split.
  { by rewrite (deduplicate_texts_first_wins texts threshold lsh0 Hnew), Henc. }
  split; [done|]. split; [apply first_of_groups_sublist|].
  intros A B A2 -> HB HA2. simpl. rewrite HB, HA2. done.
Qed.

(** ** Claim C2 *)

(** C2.  Once the signature of a text is inserted under a key, the query
    on the signature of an identical text, which is the same signature,
    finds that key.  Hence, whatever the threshold, a list returned by
    [deduplicate_texts] holds no text twice.  A list is returned exactly
    when the index can be built for the threshold (a threshold outside the
    unit interval, or one for which the library chooses fewer than two bands,
    makes the constructor raise) and every token of every text has a UTF-8
    encoding; with a token that has none, [encode] raises
    [UnicodeEncodeError] and no list is returned. *)
Theorem identical_texts_deduplicated (texts : list pystr) (threshold : Q) :
  (∀ lsh key text m lsh', reachable lsh →
     get_minhash text = Ok m →
     insert lsh key m = Ok lsh' →
     ∃ found, (mh ← get_minhash text; query lsh' mh) = Ok found ∧ key ∈ found)
  ∧ (∀ out, deduplicate_texts texts threshold = Ok out → NoDup out)
  ∧ (∀ lsh0, MinHashLSH_new threshold = Ok lsh0 →
       (forallb encodable texts = true →
        ∃ out, deduplicate_texts texts threshold = Ok out)
       ∧ (forallb encodable texts = false →
          deduplicate_texts texts threshold = Raise UnicodeEncodeError)).
Proof.
  split; [|split].
  - intros lsh key text m lsh' Hreach Hsig Hins. rewrite Hsig.
    cbn [mbind result_bind].
    destruct (reachable_holds lsh Hreach) as [[entries Hholds] Hb].
    destruct (insert_inv _ _ _ _ Hins) as [Hm Hfresh].
    destruct (insert_holds lsh entries key _ Hholds Hm Hfresh)
      as (lsh2 & Hins2 & Hholds' & Hb2 & _).
    rewrite Hins in Hins2. injection Hins2 as <-.
    destruct (query_holds lsh' _ m Hholds' Hm) as (found & Hq & Hfound).
    exists found. split; [done|]. apply Hfound.
    exists 0%nat, m. split; [lia|]. split; [|done].
    apply elem_of_app. right. by apply list_elem_of_singleton.
  - intros out Hout.
    destruct (deduplicate_texts_returned texts out threshold Hout)
      as (lsh0 & Hnew & _ & ->).
    destruct (new_holds threshold lsh0 Hnew) as [_ Hb].
    apply (first_of_groups_NoDup _ _ texts) with (kept := []); [lia | constructor].
  - intros lsh0 Hnew.
    rewrite (deduplicate_texts_first_wins texts threshold lsh0 Hnew).
    split; intros ->; [by eexists | done].
Qed.

End Index.

(** *** Closed instances *)

(** Texts without token share the signature filled with [max_hash]: the
    second one is dropped. *)
Example empty_texts_collide :
  @get_minhash toy_datasketch (str "  ") = Ok MinHash_new
  ∧ @deduplicate_texts toy_datasketch [str ""; str "  "] (9 # 10)%Q = Ok [str ""].
Proof. split; vm_compute; reflexivity. Qed.

(** A text with a lone surrogate, as [json.loads] gives for an escaped one:
    the loop raises when it reaches it, and the texts kept before it are
    lost with the list. *)
Example lone_surrogate_raises :
  @get_minhash toy_datasketch (str "half of a pair: " ++ [55357])
  = Raise UnicodeEncodeError
  ∧ @deduplicate_texts toy_datasketch
      [text_A; str "half of a pair: " ++ [55357]; text_B] (9 # 10)%Q
    = Raise UnicodeEncodeError.
Proof. split; vm_compute; reflexivity. Qed.

Lemma first_occurrence_order_witness :
  @deduplicate_texts toy_datasketch [text_A; text_B; text_A'] (9 # 10)%Q
  = Ok [text_A; text_B].
Proof.
  destruct (@first_occurrence_order toy_datasketch
              [text_A; text_B; text_A'] (9 # 10)%Q
              {| bands := 9; rows := 13; hashtables := replicate 9 ∅; keys := ∅ |}
              eq_refl eq_refl)
    as (out & -> & _ & _ & Hout).
  f_equal. apply (Hout text_A text_B text_A'); vm_compute; reflexivity.
Defined.

(** The first text given twice, at the default threshold. *)
Lemma identical_texts_deduplicated_witness :
  ∃ out, @deduplicate_texts toy_datasketch [text_A; text_B; text_A] (9 # 10)%Q = Ok out
         ∧ NoDup out.
Proof.
  destruct (@identical_texts_deduplicated toy_datasketch [text_A; text_B; text_A]
              (9 # 10)%Q) as (_ & Hnodup & Hreturns).
  destruct (Hreturns {| bands := 9; rows := 13; hashtables := replicate 9 ∅; keys := ∅ |}
              eq_refl) as [Hok _].
  destruct (Hok eq_refl) as [out Hout].
  exists out. split; [done | by apply Hnodup].
Defined.

End DedupFacts.
(* ===================================================================== *)
(** * Further properties of the code *)
(* ===================================================================== *)

(** ** extractor.py: what the parser does around a record *)

Module ExtractorMore.
Import Json Extractor JsonFacts ExtractorFacts.

(** [None] as a result of [feed]. *)
Definition is_None (r : json) : bool :=
  match r with JNull => true | _ => false end.

(** A line that is not blank, read while no record is open, and that does
    not start one, is dropped. *)
Lemma feed_outside (st : JSONStreamParser) (line : pystr) :
  in_object st = false → record_start (strip line) = false →
  feed st line = (JNull, st).
Proof.
  intros Hin Hstart. unfold feed. destruct (strip line) as [|c l]; [done|].
  rewrite Hstart. by rewrite Hin.
Qed.

(** X1.  Lines before the first record start are ignored: whatever they hold,
    [feed] returns [None] for each of them, the parser is left as it was and
    [process_file] extracts and counts nothing. *)
Theorem stream_without_record (st : JSONStreamParser) (ex : list pystr)
    (lines : list pystr) :
  in_object st = false →
  forallb (fun l => negb (record_start (strip l))) lines = true →
  feed_all st lines = (replicate (length lines) JNull, st)
  ∧ process_lines st ex lines = Ok (ex, st).
Proof.
  intros Hin Hlines. induction lines as [|line rest IH]; [done|].
  simpl in Hlines. apply andb_prop in Hlines as [Hline Hrest].
  apply negb_true_iff in Hline.
  destruct (IH Hrest) as [IHfeed IHproc].
  cbn [feed_all process_lines length replicate].
  rewrite (feed_outside st line Hin Hline), IHfeed. split; [done|].
  simpl. by rewrite app_nil_r.
Qed.

Lemma stream_without_record_witness :
  feed_all init [str "garbage }"; str ""; str "{ not a record"]
  = ([JNull; JNull; JNull], init)
  ∧ process_lines init [] [str "garbage }"; str ""; str "{ not a record"]
    = Ok ([], init).
Proof.
  apply (stream_without_record init [] [str "garbage }"; str ""; str "{ not a record"]);
    reflexivity.
Defined.

(** X2.  A record start forgets whatever was pending: the result of [feed] on a
    line that starts a record depends on the line and on the two counters
    only.  The buffer, the brace counter and the open record of the parser
    are discarded, and the discarded record is counted neither as an entry
    nor as a failure. *)
Theorem feed_restart (st st' : JSONStreamParser) (line : pystr) :
  record_start (strip line) = true →
  entry_count st = entry_count st' → error_count st = error_count st' →
  feed st line = feed st' line.
Proof.
  intros Hstart He Hr.
  rewrite (feed_accumulating st line [] 0%Z (record_start_strip_nonblank _ Hstart)).
  2, 3: by rewrite Hstart.
  rewrite (feed_accumulating st' line [] 0%Z (record_start_strip_nonblank _ Hstart)).
  2, 3: by rewrite Hstart.
  by rewrite He, Hr.
Qed.

Lemma feed_restart_witness :
  let pending := snd (feed init (str "{" ++ q "text" ++ str ": " ++ q "lost")) in
  let line := str "{" ++ q "text" ++ str ": " ++ q "kept" ++ str "}" in
  feed pending line = feed init line.
Proof.
  apply (feed_restart
           (snd (feed init (str "{" ++ q "text" ++ str ": " ++ q "lost"))) init
           (str "{" ++ q "text" ++ str ": " ++ q "kept" ++ str "}"));
    reflexivity.
Defined.

(** What one call of [feed] does to the counters. *)
Lemma feed_counters (st : JSONStreamParser) (line : pystr) :
  (in_object st = true → object_count st ≠ 0%Z) →
  (in_object (snd (feed st line)) = true → object_count (snd (feed st line)) ≠ 0%Z)
  ∧ ((entry_count (snd (feed st line)) = entry_count st
      ∧ error_count (snd (feed st line)) = error_count st
      ∧ fst (feed st line) = JNull)
     ∨ (entry_count (snd (feed st line)) = S (entry_count st)
        ∧ error_count (snd (feed st line)) = error_count st)
     ∨ (entry_count (snd (feed st line)) = S (entry_count st)
        ∧ error_count (snd (feed st line)) = S (error_count st)
        ∧ fst (feed st line) = JNull)).
Proof.
  intros Hinv.
  assert (Hparse : ∀ stp,
    entry_count stp = entry_count st → error_count stp = error_count st →
    in_object stp = false →
    (in_object (snd (_parse_buffer stp)) = true →
     object_count (snd (_parse_buffer stp)) ≠ 0%Z)
    ∧ ((entry_count (snd (_parse_buffer stp)) = S (entry_count st)
        ∧ error_count (snd (_parse_buffer stp)) = error_count st)
       ∨ (entry_count (snd (_parse_buffer stp)) = S (entry_count st)
          ∧ error_count (snd (_parse_buffer stp)) = S (error_count st)
          ∧ fst (_parse_buffer stp) = JNull))).
  { intros stp He Hr Hi. unfold _parse_buffer. simpl.
    destruct (parse_sanitized (buffer stp)); simpl; rewrite He, Hr, Hi.
    - split; [done|]. by left.
    - split; [done|]. by right. }
  assert (Hacc : ∀ buf acc,
    feed st line =
      (if (brace_step acc (strip line) =? 0)%Z then
         _parse_buffer {| buffer := buf ++ strip line; in_object := false;
                          object_count := brace_step acc (strip line);
                          entry_count := entry_count st; error_count := error_count st |}
       else
         (JNull, {| buffer := buf ++ strip line; in_object := true;
                    object_count := brace_step acc (strip line);
                    entry_count := entry_count st; error_count := error_count st |})) →
    (in_object (snd (feed st line)) = true → object_count (snd (feed st line)) ≠ 0%Z)
    ∧ ((entry_count (snd (feed st line)) = entry_count st
        ∧ error_count (snd (feed st line)) = error_count st
        ∧ fst (feed st line) = JNull)
       ∨ (entry_count (snd (feed st line)) = S (entry_count st)
          ∧ error_count (snd (feed st line)) = error_count st)
       ∨ (entry_count (snd (feed st line)) = S (entry_count st)
          ∧ error_count (snd (feed st line)) = S (error_count st)
          ∧ fst (feed st line) = JNull))).
  { intros buf acc ->.
    destruct (Z.eqb_spec (brace_step acc (strip line)) 0) as [Hz|Hnz].
    - destruct (Hparse {| buffer := buf ++ strip line; in_object := false;
                          object_count := brace_step acc (strip line);
                          entry_count := entry_count st;
                          error_count := error_count st |}) as [H1 H2]; try done.
      split; [done|]. by right.
    - simpl. split; [done|]. by left. }
  destruct (decide (strip line = [])) as [Hblank|Hnonblank].
  { assert (Hfeed : feed st line = (JNull, st)) by (unfold feed; by rewrite Hblank).
    rewrite Hfeed. simpl. split; [done|]. by left. }
  destruct (record_start (strip line)) eqn:Hstart.
  { apply (Hacc [] 0%Z). apply feed_accumulating; [done| |]; by rewrite Hstart. }
  destruct (in_object st) eqn:Hin.
  { apply (Hacc (buffer st) (object_count st)).
    apply feed_accumulating; [done| |]; by rewrite Hstart. }
  rewrite (feed_outside st line Hin Hstart). simpl. split; [by rewrite Hin|]. by left.
Qed.

(** X3.  The counters of the parser after any input: failures are entries, the
    entries are at most one per line, every result that is not [None] is an
    entry that did not fail, and an open record has a brace counter that is
    not zero. *)
Theorem parser_counters (lines : list pystr) :
  let rs := fst (feed_all init lines) in
  let st := snd (feed_all init lines) in
  (error_count st ≤ entry_count st)%nat
  ∧ (entry_count st ≤ length lines)%nat
  ∧ (length (filter (fun r => is_None r = false) rs) + error_count st
     ≤ entry_count st)%nat
  ∧ (in_object st = true → object_count st ≠ 0%Z).
Proof.
  assert (Hgen : ∀ lines st,
    (in_object st = true → object_count st ≠ 0%Z) →
    let rs := fst (feed_all st lines) in
    let st' := snd (feed_all st lines) in
    (entry_count st ≤ entry_count st')%nat
    ∧ (error_count st ≤ error_count st')%nat
    ∧ (entry_count st' ≤ entry_count st + length lines)%nat
    ∧ (length (filter (fun r => is_None r = false) rs)
       + (error_count st' - error_count st) ≤ entry_count st' - entry_count st)%nat
    ∧ (in_object st' = true → object_count st' ≠ 0%Z)).
  { clear lines. induction lines as [|line rest IH]; intros st Hinv.
    { simpl. repeat split; try lia. done. }
    cbn [feed_all]. destruct (feed_counters st line Hinv) as [Hinv1 Hstep].
    destruct (feed st line) as [r st1] eqn:Hfeed. cbn [fst snd] in *.
    specialize (IH st1 Hinv1). destruct (feed_all st1 rest) as [rs st2].
    cbn [fst snd length] in *. destruct IH as (I1 & I2 & I3 & I4 & I5).
    rewrite filter_cons.
    destruct Hstep as [(He & Hr & ->)|[(He & Hr)|(He & Hr & ->)]].
    - rewrite decide_False by done. repeat split; try lia. done.
    - destruct (decide (is_None r = false)); cbn [length];
        repeat split; try lia; done.
    - rewrite decide_False by done. repeat split; try lia. done. }
  destruct (Hgen lines init) as (I1 & I2 & I3 & I4 & I5); [done|].
  simpl in *. repeat split; try lia. done.
Qed.

(** *** The two repairs *)

Lemma trailing_comma_found (p w : pystr) :
  forallb py_isspace w = true →
  trailing_comma (p ++ COMMA :: w ++ [RBRACE]) = Some (p, []).
Proof.
  intros Hw. unfold trailing_comma.
  replace (p ++ COMMA :: w ++ [RBRACE]) with ((p ++ COMMA :: w) ++ [RBRACE])
    by (rewrite <- app_assoc; done).
  rewrite rev_app_distr. simpl rev at 1. cbn [app].
  rewrite N.eqb_refl, rev_app_distr. simpl rev. rewrite <- app_assoc. simpl.
  rewrite skip_all.
  - rewrite skip_stop by done. by rewrite N.eqb_refl, rev_involutive.
  - apply Forall_rev. apply Forall_forall. intros x Hx.
    rewrite forallb_forall in Hw. apply Hw. by apply list_elem_of_In.
Qed.

(** X4.  A record that is valid but for one comma, possibly followed by
    whitespace, before its closing brace is repaired: [feed] returns for it
    what the record without the comma holds under the key text, and counts no
    failure. *)
Theorem trailing_comma_repaired (st : JSONStreamParser) (line p w : pystr)
    (pairs : list (pystr * json)) :
  strip line = p ++ COMMA :: w ++ [RBRACE] →
  forallb py_isspace w = true →
  record_start (strip line) = true →
  brace_step 0 (strip line) = 0%Z →
  quote_free (strip line) = true →
  loads (p ++ [RBRACE]) = Ok (JObject pairs) →
  fst (feed st line) = dict_get (str "text") pairs (JString [])
  ∧ entry_count (snd (feed st line)) = S (entry_count st)
  ∧ error_count (snd (feed st line)) = error_count st.
Proof.
  intros Hline Hw Hstart Hbal Hquote Hvalid.
  rewrite (feed_accumulating st line [] 0%Z (record_start_strip_nonblank _ Hstart)).
  2, 3: by rewrite Hstart.
  rewrite Hbal. change (0 =? 0)%Z with true. cbn iota.
  unfold _parse_buffer. cbn [buffer app entry_count error_count].
  assert (Hparse : parse_sanitized (strip line)
                   = Ok (dict_get (str "text") pairs (JString []))).
  { unfold parse_sanitized, sanitize, collapse_trailing_comma.
    rewrite (normalize_quotes_id _ Hquote), Hline, (trailing_comma_found p w Hw).
    by rewrite Hvalid. }
  by rewrite Hparse.
Qed.

Lemma trailing_comma_repaired_witness :
  let line := str " {" ++ q "text" ++ str ": " ++ q "abc" ++ str ", " ++ q "n"
              ++ str ": [1, 2] ,  } " in
  fst (feed init line) = JString (str "abc")
  ∧ entry_count (snd (feed init line)) = 1%nat
  ∧ error_count (snd (feed init line)) = 0%nat.
Proof.
  apply (trailing_comma_repaired init
           (str " {" ++ q "text" ++ str ": " ++ q "abc" ++ str ", " ++ q "n"
            ++ str ": [1, 2] ,  } ")
           (str "{" ++ q "text" ++ str ": " ++ q "abc" ++ str ", " ++ q "n"
            ++ str ": [1, 2] ")
           (str "  ")
           [(str "text", JString (str "abc"));
            (str "n", JArray [JNumber (str "1"); JNumber (str "2")])]);
    vm_compute; reflexivity.
Defined.

Lemma elem_of_replace_from (old new : pystr) (x : N) (s : pystr) :
  ∀ pending, x ∈ replace_from old new pending s → x ∈ s ∨ x ∈ new.
Proof.
  induction s as [|c s IH]; intros pending; cbn [replace_from].
  { intros Hx. by apply elem_of_nil in Hx. }
  destruct pending as [|k].
  - destruct (startswith old (c :: s)).
    + intros Hx. apply elem_of_app in Hx as [Hx|Hx]; [by right|].
      apply IH in Hx as [Hx|Hx]; [left; by right | by right].
    + intros Hx. apply elem_of_cons in Hx as [->|Hx]; [left; by left|].
      apply IH in Hx as [Hx|Hx]; [left; by right | by right].
  - intros Hx. apply IH in Hx as [Hx|Hx]; [left; by right | by right].
Qed.

Lemma replace_char_gone (c d : N) (s : pystr) :
  d ≠ c → c ∉ replace [c] [d] s.
Proof.
  intros Hd. unfold replace. induction s as [|a s IH]; cbn [replace_from].
  { apply not_elem_of_nil. }
  cbn [startswith length Nat.sub app].
  destruct (N.eqb_spec c a) as [->|Hne]; cbn [andb].
  - intros Hx. apply elem_of_cons in Hx as [Hx|Hx]; [done|]. by apply IH.
  - intros Hx. apply elem_of_cons in Hx as [Hx|Hx]; [done|]. by apply IH.
Qed.

Lemma elem_of_skip (p : N -> bool) (x : N) (s : pystr) : x ∈ skip p s → x ∈ s.
Proof.
  destruct (skip_split p s) as (w & Hs & _). intros Hx. rewrite Hs.
  apply elem_of_app. by right.
Qed.

Lemma elem_of_collapse (x : N) (s : pystr) :
  x ∈ collapse_trailing_comma s → x ∈ s.
Proof.
  unfold collapse_trailing_comma, trailing_comma.
  destruct (rev s) as [|c r] eqn:Hrev; [done|].
  assert (Hs : s = rev (c :: r)) by (rewrite <- Hrev; by rewrite rev_involutive).
  assert (Hin : ∀ y, y ∈ c :: r → y ∈ s).
  { intros y Hy. rewrite Hs. apply list_elem_of_In, in_rev.
    rewrite rev_involutive. by apply list_elem_of_In. }
  destruct (N.eqb_spec c RBRACE) as [->|_].
  - destruct (skip py_isspace r) as [|d p] eqn:Hsk; [done|].
    destruct (d =? COMMA); [|done].
    intros Hx. apply elem_of_app in Hx as [Hx|Hx].
    + apply Hin. right. apply (elem_of_skip py_isspace). rewrite Hsk. right.
      apply list_elem_of_In, in_rev. by apply list_elem_of_In.
    + apply list_elem_of_singleton in Hx as ->. apply Hin. by left.
  - destruct (N.eqb_spec c NEWLINE) as [->|_]; [|done].
    destruct r as [|c' r']; [done|].
    destruct (N.eqb_spec c' RBRACE) as [->|_]; [|done].
    destruct (skip py_isspace r') as [|d p] eqn:Hsk; [done|].
    destruct (d =? COMMA); [|done].
    intros Hx. apply elem_of_app in Hx as [Hx|Hx].
    + apply Hin. right. right. apply (elem_of_skip py_isspace). rewrite Hsk. right.
      apply list_elem_of_In, in_rev. by apply list_elem_of_In.
    + apply elem_of_cons in Hx as [->|Hx]; [apply Hin; right; by left|].
      apply list_elem_of_singleton in Hx as ->. apply Hin. by left.
Qed.

(** X5.  Whatever the buffer holds, the text handed to the decoder contains
    neither of the two curly double quotes. *)
Theorem sanitize_no_curly_quote (buf : pystr) :
  (LEFT_CURLY_QUOTE ∉ sanitize buf) ∧ (RIGHT_CURLY_QUOTE ∉ sanitize buf).
Proof.
  assert (Hstep : ∀ c old new s,
            c ∉ s → c ∉ new → c ∉ replace old new s).
  { intros c old new s Hs Hnew Hc. unfold replace in Hc.
    apply elem_of_replace_from in Hc as [Hc|Hc]; done. }
  assert (Hnot : ∀ a b : N, a ≠ b → a ∉ [b]).
  { intros a b Hab Ha. by apply list_elem_of_singleton in Ha. }
  split; intros Hin; apply elem_of_collapse in Hin; revert Hin;
    unfold normalize_quotes.
  - apply Hstep; [|by apply Hnot]. apply Hstep; [|by apply Hnot].
    apply Hstep; [|by apply Hnot]. by apply replace_char_gone.
  - apply Hstep; [|by apply Hnot]. apply Hstep; [|by apply Hnot].
    by apply replace_char_gone.
Qed.

(** *** What [process_file] extracts *)

Lemma skip_fixed (p : N -> bool) (c : N) (s : pystr) :
  skip p (c :: s) = c :: s → p c = false.
Proof.
  simpl. destruct (p c); [|done]. intros Hs.
  pose proof (length_skip p s) as Hlen. rewrite Hs in Hlen. simpl in Hlen. lia.
Qed.

Lemma skip_idem (p : N -> bool) (s : pystr) : skip p (skip p s) = skip p s.
Proof.
  destruct (skip p s) as [|c t] eqn:Hs; [done|].
  apply skip_stop. by apply (skip_head p s t c).
Qed.

(** [strip] leaves a stripped text alone. *)
Lemma strip_strip (s : pystr) : strip (strip s) = strip s.
Proof.
  unfold strip. set (a := skip py_isspace s).
  destruct (skip py_isspace (rev a)) as [|x b] eqn:Hb; [done|].
  assert (Hfix : skip py_isspace (rev (x :: b)) = rev (x :: b)).
  { destruct (skip_split py_isspace (rev a)) as (w & Ha & _). rewrite Hb in Ha.
    assert (Ha' : a = rev (x :: b) ++ rev w).
    { rewrite <- (rev_involutive a), Ha. by rewrite rev_app_distr. }
    destruct (rev (x :: b)) as [|h t] eqn:Hrev.
    { apply (f_equal (@length N)) in Hrev. rewrite length_rev in Hrev. done. }
    apply skip_stop. apply (skip_fixed py_isspace h (t ++ rev w)).
    change (h :: t ++ rev w) with ((h :: t) ++ rev w). rewrite <- Ha'.
    apply skip_idem. }
  rewrite Hfix, rev_involutive.
  by rewrite (skip_stop _ _ _ (skip_head _ _ _ _ Hb)).
Qed.

(** An extracted text: not empty, and without whitespace at either end. *)
Definition stripped_text (t : pystr) : Prop := t ≠ [] ∧ strip t = t.

Lemma extracted_of_stripped (r : json) (new : list pystr) :
  extracted_of r = Ok new →
  Forall stripped_text new
  ∧ (length new ≤ 1)%nat ∧ (is_None r = true → new = []).
Proof.
  destruct r as [| | |s| |]; simpl; try done.
  - intros [= <-]. split; [constructor|]. split; [simpl; lia | done].
  - destruct (strip s) as [|c t] eqn:Hs; intros [= <-].
    + split; [constructor|]. split; [simpl; lia | done].
    + split; [|split; [simpl; lia | done]]. constructor; [|constructor].
      split; [done|]. rewrite <- Hs. apply strip_strip.
Qed.

(** X6.  Every text [process_file] extracts is non-empty and stripped, and there
    are at most as many of them as entries that did not fail. *)
Theorem extracted_texts_stripped (lines : list pystr) (ex : list pystr)
    (st : JSONStreamParser) :
  process_lines init [] lines = Ok (ex, st) →
  Forall stripped_text ex
  ∧ (length ex + error_count st ≤ entry_count st)%nat.
Proof.
  assert (Hgen : ∀ lines st0 ex0 ex st,
    (in_object st0 = true → object_count st0 ≠ 0%Z) →
    process_lines st0 ex0 lines = Ok (ex, st) →
    Forall stripped_text ex0 →
    Forall stripped_text ex
    ∧ (length ex - length ex0 + (error_count st - error_count st0)
       ≤ entry_count st - entry_count st0)%nat
    ∧ (length ex0 ≤ length ex)%nat ∧ (error_count st0 ≤ error_count st)%nat
    ∧ (entry_count st0 ≤ entry_count st)%nat).
  { clear. induction lines as [|line rest IH]; intros st0 ex0 ex st Hinv Hrun Hex0.
    { simpl in Hrun. injection Hrun as <- <-. repeat split; try done; lia. }
    cbn [process_lines] in Hrun.
    destruct (feed_counters st0 line Hinv) as [Hinv1 Hstep].
    destruct (feed st0 line) as [r st1]. cbn [fst snd] in *.
    destruct (extracted_of r) as [new|e] eqn:Hnew; [|done].
    cbn [mbind result_bind] in Hrun.
    destruct (extracted_of_stripped r new Hnew) as (Hclean & Hlen & Hnone).
    destruct (IH st1 (ex0 ++ new) ex st Hinv1 Hrun) as (I1 & I2 & I3 & I4 & I5).
    { by apply Forall_app. }
    rewrite length_app in I2, I3.
    destruct Hstep as [(He & Hr & ->)|[(He & Hr)|(He & Hr & ->)]].
    - rewrite (Hnone eq_refl) in *. simpl in *. repeat split; try done; lia.
    - repeat split; try done; lia.
    - rewrite (Hnone eq_refl) in *. simpl in *. repeat split; try done; lia. }
  intros Hrun. destruct (Hgen lines init [] ex st) as (I1 & I2 & _); try done.
  split; [done|]. simpl in I2. lia.
Qed.

Lemma extracted_texts_stripped_witness :
  let lines := [str "  {" ++ q "text" ++ str ":  " ++ q "  padded text  " ++ str "} ";
                str "{" ++ q "text" ++ str ": " ++ q "   " ++ str "}";
                str "{" ++ q "text" ++ str ": oops}"] in
  ∃ ex st, process_lines init [] lines = Ok (ex, st)
           ∧ Forall stripped_text ex
           ∧ (length ex + error_count st ≤ entry_count st)%nat.
Proof.
  eexists _, _. split; [vm_compute; reflexivity|].
  eapply (extracted_texts_stripped
            [str "  {" ++ q "text" ++ str ":  " ++ q "  padded text  " ++ str "} ";
             str "{" ++ q "text" ++ str ": " ++ q "   " ++ str "}";
             str "{" ++ q "text" ++ str ": oops}"]).
  vm_compute; reflexivity.
Defined.

(** A value of the key text that [process_file] can strip: a string, or
    [None]. *)
Definition is_text (v : json) : bool :=
  match v with JNull | JString _ => true | _ => false end.

(** X7.  A well-formed record whose key text holds a number, a boolean, a list or
    an object stops the run: the reading loop raises [AttributeError] at this
    line, whatever was extracted before and whatever follows. *)
Theorem text_not_a_string_aborts (before after : list pystr) (line : pystr)
    (pairs : list (pystr * json)) (ex : list pystr) (st : JSONStreamParser) :
  process_lines init [] before = Ok (ex, st) →
  record_start (strip line) = true →
  brace_step 0 (strip line) = 0%Z →
  quote_free (strip line) = true →
  loads (strip line) = Ok (JObject pairs) →
  is_text (dict_get (str "text") pairs (JString [])) = false →
  process_file (before ++ line :: after) = Raise AttributeError.
Proof.
  intros Hbefore Hstart Hbal Hquote Hvalid Htext.
  unfold process_file. rewrite process_lines_app, Hbefore.
  cbn [process_lines].
  rewrite (feed_accumulating st line [] 0%Z (record_start_strip_nonblank _ Hstart)).
  2, 3: by rewrite Hstart.
  rewrite Hbal. change (0 =? 0)%Z with true. cbn iota.
  unfold _parse_buffer. cbn [buffer app entry_count error_count].
  assert (Hparse : parse_sanitized (strip line)
                   = Ok (dict_get (str "text") pairs (JString []))).
  { unfold parse_sanitized. by rewrite (sanitize_valid _ _ Hquote Hvalid), Hvalid. }
  rewrite Hparse.
  by destruct (dict_get (str "text") pairs (JString [])).
Qed.

Lemma text_not_a_string_aborts_witness :
  process_file [str "{" ++ q "text" ++ str ": " ++ q "first" ++ str "}";
                str "{" ++ q "text" ++ str ": 2024}";
                str "{" ++ q "text" ++ str ": " ++ q "never read" ++ str "}"]
  = Raise AttributeError.
Proof.
  apply (text_not_a_string_aborts
           [str "{" ++ q "text" ++ str ": " ++ q "first" ++ str "}"]
           [str "{" ++ q "text" ++ str ": " ++ q "never read" ++ str "}"]
           (str "{" ++ q "text" ++ str ": 2024}")
           [(str "text", JNumber (str "2024"))]
           [str "first"]
           (snd (feed init (str "{" ++ q "text" ++ str ": " ++ q "first" ++ str "}"))));
    vm_compute; reflexivity.
Defined.

End ExtractorMore.

(** ** cleaning.py: construction, profiles and the recursive filter *)

Module CleaningMore.
Import Json Cleaning CleaningFacts.

(** *** Definitions *)

(** The two readings of the host in [__init__], for a host on which psutil
    reports both numbers: the number of physical cores, at least 1, and the
    memory in whole gibibytes. *)
Definition cpu_cores (cpu_count : Z) : Z := Z.max 1 cpu_count.

Definition mem_gb (total_bytes : Z) : Z := (total_bytes / 1024 ^ 3)%Z.

(** [_auto_configure_workers]. *)
Definition _auto_configure_workers (cores mem : Z) : Z :=
  if (mem <? 4)%Z then 1%Z else Z.min (cores * 2) 16.

(** A dictionary given to [__init__]: the keys it may set. *)
Record Overrides : Type := mkOverrides {
  set_min_paragraph_length : option Z;
  set_max_stopword_ratio : option Q;
  set_reference_patterns : option (list pystr);
  set_author_info_patterns : option (list pystr);
  set_ad_keywords : option (list pystr);
  set_blacklist_keys : option (list pystr);
  set_parallel_workers : option Z
}.

(** [self.config.update(config)] on the keys of [Config]: a key that is set
    replaces the default, a list included. *)
Definition update (cfg : Config) (o : Overrides) : Config :=
  {| min_paragraph_length := default (min_paragraph_length cfg) (set_min_paragraph_length o);
     max_stopword_ratio := default (max_stopword_ratio cfg) (set_max_stopword_ratio o);
     reference_patterns := default (reference_patterns cfg) (set_reference_patterns o);
     author_info_patterns := default (author_info_patterns cfg) (set_author_info_patterns o);
     ad_keywords := default (ad_keywords cfg) (set_ad_keywords o) |}.

(** [self.config.get('blacklist_keys', [])]: no default sets this key. *)
Definition blacklist_keys (o : Overrides) : list pystr :=
  default [] (set_blacklist_keys o).

(** The three entries of [CONFIG_PROFILES]. *)
Definition medical : Overrides :=
  {| set_min_paragraph_length := Some 150%Z;
     set_max_stopword_ratio := None;
     set_reference_patterns := Some [str "\b(?:pmid|nih)\s*\d+\b"];
     set_author_info_patterns := None;
     set_ad_keywords := Some [str "clinical trial"; str "drug discount"];
     set_blacklist_keys := Some [str "patient_metadata"];
     set_parallel_workers := None |}.

Definition legal : Overrides :=
  {| set_min_paragraph_length := None;
     set_max_stopword_ratio := None;
     set_reference_patterns := Some [str "\b\d+\s[A-Z]+\s\d+\b"];
     set_author_info_patterns := Some [];
     set_ad_keywords := None;
     set_blacklist_keys := Some [str "case_history"];
     set_parallel_workers := None |}.

Definition social : Overrides :=
  {| set_min_paragraph_length := Some 20%Z;
     set_max_stopword_ratio := Some (8 # 10)%Q;
     set_reference_patterns := None;
     set_author_info_patterns := None;
     set_ad_keywords := Some [str "#ad"; str "sponsored"];
     set_blacklist_keys := None;
     set_parallel_workers := Some 8%Z |}.

(** [self.config['parallel_workers']] when [__init__] ends: what
    [_auto_configure_workers] returned, unless the dictionary given to the
    constructor sets the key. *)
Definition parallel_workers (o : Overrides) (cores mem : Z) : Z :=
  default (_auto_configure_workers cores mem) (set_parallel_workers o).

(** The filter [AcademicContentFilter(config)] builds for a profile. *)
Definition for_profile (o : Overrides) (stops : list pystr) : AcademicContentFilter :=
  new (update default_config o) stops.

(** The host as [filter_content] reads it: [self.mem_gb], set by
    [__init__], and the resident memory of the process, in bytes, at its
    first, second, third reading and so on. *)
Record Host : Type := mkHost {
  self_mem_gb : Z;
  rss : nat -> Z
}.

(** A run of a method that reads the host: beside the object, it carries the
    number of readings of the memory made so far. *)
Definition Run (A : Type) : Type :=
  AcademicContentFilter * nat -> result A * (AcademicContentFilter * nat).

#[global] Instance run_ret : MRet Run := fun _ a st => (Ok a, st).
#[global] Instance run_bind : MBind Run := fun _ _ k m st =>
  match m st with
  | (Ok a, st') => k a st'
  | (Raise e, st') => (Raise e, st')
  end.

(** A method of the object, within a run. *)
Definition on_object {A} (m : Method A) : Run A :=
  fun st => let '(r, self') := m st.1 in (r, (self', st.2)).

Definition raise {A} (e : exn) : Run A := fun st => (Raise e, st).

(** The head of [filter_content]: one reading of the memory, and a critical
    record when [rss / 1024 ** 2 > self.mem_gb * 900]. *)
Definition memory_alarm (host : Host) : Run unit :=
  fun st =>
    let usage := rss host st.2 in
    (Ok tt,
     (if (self_mem_gb host * 900 * 1024 ^ 2 <? usage)%Z
      then with_logger st.1 (logger st.1 ++ [LogCritical usage])
      else st.1,
      S st.2)).

Section Recursive.
Context `{Library}.

(** [_is_key_blacklisted]: the key is lower-cased, the listed keys are not. *)
Definition _is_key_blacklisted (blacklist : list pystr) (key : pystr) : bool :=
  bool_decide (lower key ∈ blacklist).

Section Comprehensions.
Variable blacklist : list pystr.
Variable recurse : json -> Run json.

(** The dictionary comprehension of [filter_content], over the items of the
    dictionary in order. *)
Fixpoint filter_items (items : list (pystr * json)) : Run (list (pystr * json)) :=
  match items with
  | [] => mret []
  | (k, v) :: rest =>
      if _is_key_blacklisted blacklist k then filter_items rest
      else
        v' ← recurse v;
        rest' ← filter_items rest;
        mret ((k, v') :: rest')
  end.

(** The list comprehension of [filter_content]: an item that is a string is
    first shown to [_filter_text]. *)
Fixpoint filter_list (items : list json) : Run (list json) :=
  match items with
  | [] => mret []
  | item :: rest =>
      drop ← on_object match item with
                       | JString s => _filter_text s
                       | _ => mret false
                       end;
      if (drop : bool) then filter_list rest
      else
        item' ← recurse item;
        rest' ← filter_list rest;
        mret (item' :: rest')
  end.

End Comprehensions.

(** [filter_content], with the value of the key blacklist_keys of the
    configuration as [blacklist].  The method calls itself once for every
    level of the value: [depth] is the number of nested calls the recursion
    limit of the interpreter still allows, and the call that exceeds it
    raises [RecursionError], which nothing in the method catches.  The calls
    that [_filter_text] makes are taken to fit under the limit.  A dictionary
    is an object whose keys are distinct. *)
Fixpoint filter_content (host : Host) (blacklist : list pystr) (depth : nat)
    (data : json) : Run json :=
  match depth with
  | O => raise RecursionError
  | S depth' =>
      _ ← memory_alarm host;
      match data with
      | JObject items =>
          items' ← filter_items blacklist (filter_content host blacklist depth') items;
          mret (JObject items')
      | JArray items =>
          items' ← filter_list (filter_content host blacklist depth') items;
          mret (JArray items')
      | _ => mret data
      end
  end.

(** *** Vocabulary of the statements *)

(** Some list occurs in the value, at any depth. *)
Fixpoint has_list (d : json) : bool :=
  match d with
  | JArray _ => true
  | JObject items =>
      (fix any (ps : list (pystr * json)) : bool :=
         match ps with
         | [] => false
         | (_, v) :: rest => has_list v || any rest
         end) items
  | _ => false
  end.

(** No key of the value, at any depth, is blacklisted. *)
Fixpoint keys_allowed (blacklist : list pystr) (d : json) : bool :=
  match d with
  | JObject items =>
      (fix all (ps : list (pystr * json)) : bool :=
         match ps with
         | [] => true
         | (k, v) :: rest =>
             negb (_is_key_blacklisted blacklist k)
             && keys_allowed blacklist v && all rest
         end) items
  | JArray items =>
      (fix all (xs : list json) : bool :=
         match xs with
         | [] => true
         | x :: rest => keys_allowed blacklist x && all rest
         end) items
  | _ => true
  end.

(** The number of levels of the value: 1 for a value that is neither a list
    nor a dictionary. *)
Fixpoint nesting (d : json) : nat :=
  match d with
  | JObject items =>
      S ((fix deepest (ps : list (pystr * json)) : nat :=
            match ps with
            | [] => 0%nat
            | (_, v) :: rest => Nat.max (nesting v) (deepest rest)
            end) items)
  | JArray items =>
      S ((fix deepest (xs : list json) : nat :=
            match xs with
            | [] => 0%nat
            | x :: rest => Nat.max (nesting x) (deepest rest)
            end) items)
  | _ => 1%nat
  end.

End Recursive.

(** Two hosts for the examples: one with eight gibibytes and a process of
    two hundred mebibytes, and one with less than a gibibyte, on which the
    alarm is raised at every call. *)
Definition roomy_host : Host :=
  {| self_mem_gb := 8; rss := fun _ => (200 * 1024 ^ 2)%Z |}.

Definition small_host : Host :=
  {| self_mem_gb := 0; rss := fun n => (50 * 1024 ^ 2 + Z.of_nat n)%Z |}.

End CleaningMore.

Module CleaningMoreFacts.
Import Json Cleaning CleaningFacts CleaningMore.

(** X8.  Unless the dictionary given to the constructor sets the key
    parallel_workers itself, the number of worker threads the object is
    configured with lies between 1 and 16 whatever core count and memory size
    the host reports, and is 1 under four gibibytes of memory.  (A value set
    by the dictionary is taken as it is: the profile social asks for 8.) *)
Theorem workers_bounds (o : Overrides) (cpu_count total_bytes : Z) :
  set_parallel_workers o = None →
  (1 ≤ parallel_workers o (cpu_cores cpu_count) (mem_gb total_bytes) ≤ 16)%Z
  ∧ ((total_bytes < 4 * 1024 ^ 3)%Z →
     parallel_workers o (cpu_cores cpu_count) (mem_gb total_bytes) = 1%Z).
Proof.
  intros Hunset.
  unfold parallel_workers, _auto_configure_workers, cpu_cores, mem_gb.
  rewrite Hunset. simpl. split.
  - destruct (_ <? 4)%Z; lia.
  - intros Hlow.
    assert (Hgb : (total_bytes / 1024 ^ 3 < 4)%Z).
    { apply Z.div_lt_upper_bound; lia. }
    by destruct (Z.ltb_spec (total_bytes / 1024 ^ 3) 4); [|lia].
Qed.

(** The profile legal on a host with six cores and two gibibytes. *)
Lemma workers_bounds_witness :
  (1 ≤ parallel_workers legal (cpu_cores 6) (mem_gb (2 * 1024 ^ 3)) ≤ 16)%Z
  ∧ ((2 * 1024 ^ 3 < 4 * 1024 ^ 3)%Z →
     parallel_workers legal (cpu_cores 6) (mem_gb (2 * 1024 ^ 3)) = 1%Z).
Proof. apply (workers_bounds legal 6 (2 * 1024 ^ 3)). reflexivity. Defined.

(** The profile social on the same host: eight workers, under four
    gibibytes. *)
Example social_sets_workers :
  parallel_workers social (cpu_cores 6) (mem_gb (2 * 1024 ^ 3)) = 8%Z.
Proof. reflexivity. Qed.

Section Filter.
Context `{Library}.

Lemma filter_text_unfold (text : pystr) (self : AcademicContentFilter) :
  _filter_text text self =
    if ad_keyword_hit (config self) text then (Ok true, self)
    else if re_search (ref_regex self) text || re_search (author_regex self) text
    then (Ok true, self)
    else
      match _is_low_quality text self with
      | (Ok low, self') =>
          (Ok (if low then true else if _is_nonsense text then true else false), self')
      | (Raise e, self') =>
          (Ok false, with_logger self' (logger self' ++ [LogError e]))
      end.
Proof.
  unfold _filter_text, try_except, filter_rules, mbind, method_bind, attr, log,
    mret, method_ret.
  destruct (ad_keyword_hit (config self) text); [done|].
  destruct (re_search (ref_regex self) text || re_search (author_regex self) text);
    [done|].
  destruct (_is_low_quality text self) as [[[|]|e] self']; try done.
  by destruct (_is_nonsense text).
Qed.

(** X9.  A configuration with an empty list of reference patterns, or of author
    patterns, removes every text: the alternation of no pattern is the empty
    pattern, which is found in any text. *)
Theorem empty_pattern_list_drops_all (cfg : Config) (stops : list pystr)
    (text : pystr) :
  (∀ t, re_search [] t = true) →
  reference_patterns cfg = [] ∨ author_info_patterns cfg = [] →
  _filter_text text (new cfg stops) = (Ok true, new cfg stops).
Proof.
  intros Hempty Hcfg. rewrite filter_text_unfold.
  destruct (ad_keyword_hit _ text); [done|].
  assert (Hre : re_search (ref_regex (new cfg stops)) text
                || re_search (author_regex (new cfg stops)) text = true).
  { simpl. destruct Hcfg as [-> | ->]; simpl; rewrite Hempty; [done|].
    apply orb_true_r. }
  by rewrite Hre.
Qed.

(** X10.  A text with fewer alphabetic tokens than the configured minimum is
    removed, whatever it says. *)
Theorem short_text_dropped (self : AcademicContentFilter) (text : pystr)
    (words : list pystr) :
  alpha_words text = Ok words →
  (Z.of_nat (length words) < min_paragraph_length (config self))%Z →
  (Z.of_nat (length words) ≤ 10000)%Z →
  fst (_filter_text text self) = Ok true.
Proof.
  intros Hwords Hshort Hguard. rewrite filter_text_unfold.
  destruct (ad_keyword_hit _ text); [done|].
  destruct (_ || _); [done|].
  rewrite is_low_quality_unfold, Hwords.
  destruct (Z.ltb_spec 10000 (Z.of_nat (length words))); [lia|].
  by destruct (Z.ltb_spec (Z.of_nat (length words))
                 (min_paragraph_length (config self))); [|lia].
Qed.

(** X11.  When the tokenizer raises, the outcome depends on the class of the
    exception.  A [RuntimeError] is absorbed by [_is_low_quality] and the
    text is judged by the last rule alone; any other exception reaches the
    handler of [_filter_text] before the last rule is consulted, and the text
    is kept even if it is nonsense. *)
Theorem tokenizer_failure (self : AcademicContentFilter) (text : pystr) (e : exn) :
  word_tokenize (lower text) = Raise e →
  ad_keyword_hit (config self) text = false →
  re_search (ref_regex self) text || re_search (author_regex self) text = false →
  fst (_filter_text text self)
  = Ok (if is_RuntimeError e then _is_nonsense text else false).
Proof.
  intros Htok Had Hre. rewrite filter_text_unfold, Had, Hre.
  rewrite is_low_quality_unfold. unfold alpha_words. rewrite Htok.
  cbn [mbind result_bind].
  destruct (is_RuntimeError e); [|done]. simpl. by destruct (_is_nonsense text).
Qed.

Lemma has_run4_found (pre post : pystr) (c : N) :
  is_word c = true → has_run4 (pre ++ c :: c :: c :: c :: post) = true.
Proof.
  intros Hc. induction pre as [|a pre IH]; simpl.
  - by rewrite Hc, !N.eqb_refl.
  - simpl in IH. rewrite IH. apply orb_true_r.
Qed.

(** X12.  A text in which some word character stands four times in a row (four
    zeros, say) is removed, provided the tokenizer returns and the configured
    minimum length is positive. *)
Theorem repeated_character_dropped (self : AcademicContentFilter)
    (pre post : pystr) (c : N) (words : list pystr) :
  is_word c = true →
  alpha_words (pre ++ c :: c :: c :: c :: post) = Ok words →
  (0 < min_paragraph_length (config self))%Z →
  fst (_filter_text (pre ++ c :: c :: c :: c :: post) self) = Ok true.
Proof.
  intros Hc Hwords Hmin.
  assert (Hnonsense : _is_nonsense (pre ++ c :: c :: c :: c :: post) = true).
  { unfold _is_nonsense. rewrite (has_run4_found pre post c Hc).
    destruct (pre ++ c :: c :: c :: c :: post); [done | apply orb_true_r]. }
  rewrite filter_text_unfold.
  destruct (ad_keyword_hit _ _); [done|]. destruct (_ || _); [done|].
  rewrite is_low_quality_unfold, Hwords, Hnonsense.
  destruct (10000 <? _)%Z; [done|].
  destruct (Z.ltb_spec (Z.of_nat (length words))
              (min_paragraph_length (config self))); [done|].
  destruct (length words) as [|n] eqn:Hlen; [simpl in *; lia|].
  simpl. by destruct (_ <? _)%Z.
Qed.

End Filter.

Lemma empty_pattern_list_drops_all_witness :
  let self := for_profile legal [] in
  @_filter_text ascii_library
    (str "The court held that the statute applies to the facts of the case") self
  = (Ok true, self).
Proof.
  apply (@empty_pattern_list_drops_all ascii_library (update default_config legal) []
           (str "The court held that the statute applies to the facts of the case")).
  - intros t. by destruct t.
  - right. reflexivity.
Defined.

Lemma short_text_dropped_witness :
  fst (@_filter_text ascii_library (str "A short but perfectly fine sentence")
         (new default_config []))
  = Ok true.
Proof.
  apply (@short_text_dropped ascii_library (new default_config [])
           (str "A short but perfectly fine sentence")
           [str "a"; str "short"; str "but"; str "perfectly"; str "fine"; str "sentence"]);
    vm_compute; try reflexivity; discriminate.
Defined.

Lemma tokenizer_failure_witness :
  fst (@_filter_text offline_library (str "zzzz $$$$ ####") (new default_config []))
  = Ok false.
Proof.
  apply (@tokenizer_failure offline_library (new default_config [])
           (str "zzzz $$$$ ####") LookupError); vm_compute; reflexivity.
Defined.

Lemma repeated_character_dropped_witness :
  fst (@_filter_text ascii_library (str "It costs 10000 dollars")
         (new default_config []))
  = Ok true.
Proof.
  apply (@repeated_character_dropped ascii_library (new default_config [])
           (str "It costs 1") (str " dollars") 48
           [str "it"; str "costs"; str "dollars"]);
    vm_compute; reflexivity.
Defined.

(** *** The recursive filter *)

Section Recursive.
Context `{Library}.
Variable host : Host.
Variable blacklist : list pystr.

(** A record of the memory alarm. *)
Definition is_alarm (r : LogRecord) : Prop :=
  match r with LogCritical _ => True | _ => False end.

Lemma memory_alarm_run (self : AcademicContentFilter) (l : list LogRecord) (n : nat) :
  ∃ alarms,
    memory_alarm host (with_logger self l, n)
    = (Ok tt, (with_logger self (l ++ alarms), S n))
    ∧ Forall is_alarm alarms.
Proof.
  unfold memory_alarm. cbn [fst snd].
  destruct (_ <? _)%Z.
  - eexists [_]. split; [done|]. by repeat constructor.
  - exists []. split; [by rewrite app_nil_r | constructor].
Qed.

(** What [_filter_text] answers for an item of a list. *)
Definition dropped (self : AcademicContentFilter) (item : json) : bool :=
  match item with
  | JString s =>
      match fst (_filter_text s self) with
      | Ok b => b
      | Raise _ => false
      end
  | _ => false
  end.

Lemma dropped_logger (self : AcademicContentFilter) (item : json) :
  ∃ added, ∀ l n,
    on_object match item with
              | JString s => _filter_text s
              | _ => mret false
              end (with_logger self l, n)
    = (Ok (dropped self item), (with_logger self (l ++ added), n)).
Proof.
  unfold on_object. cbn [fst snd].
  destruct item as [| | |s| |];
    try (exists []; intros l n; by rewrite app_nil_r).
  destruct (filter_text_logger s self) as (b & added & Hcall).
  assert (Hself : dropped self (JString s) = b).
  { unfold dropped. rewrite <- (with_logger_same self). by rewrite Hcall. }
  exists added. intros l n. by rewrite Hcall, Hself.
Qed.

(** The value [filter_content] returns, as a function of the depth it is
    allowed, of the value it is given and of the attributes of the object;
    [None] when the depth does not suffice. *)
Section Values.
Variable self : AcademicContentFilter.
Variable recurse : json -> option json.

Fixpoint kept_items (ps : list (pystr * json)) : option (list (pystr * json)) :=
  match ps with
  | [] => Some []
  | (k, v) :: rest =>
      if _is_key_blacklisted blacklist k then kept_items rest
      else
        match recurse v, kept_items rest with
        | Some v', Some rest' => Some ((k, v') :: rest')
        | _, _ => None
        end
  end.

Fixpoint kept_list (xs : list json) : option (list json) :=
  match xs with
  | [] => Some []
  | x :: rest =>
      if dropped self x then kept_list rest
      else
        match recurse x, kept_list rest with
        | Some x', Some rest' => Some (x' :: rest')
        | _, _ => None
        end
  end.

End Values.

Fixpoint filtered (depth : nat) (self : AcademicContentFilter) (d : json)
    : option json :=
  match depth with
  | O => None
  | S depth' =>
      match d with
      | JObject items => JObject <$> kept_items (filtered depth' self) items
      | JArray items => JArray <$> kept_list self (filtered depth' self) items
      | _ => Some d
      end
  end.

Definition outcome {A} (o : option A) : result A :=
  match o with
  | Some a => Ok a
  | None => Raise RecursionError
  end.

(** [filter_content] returns [filtered] or raises [RecursionError], and
    only adds to the logger. *)
Lemma filter_content_run (depth : nat) :
  ∀ d self l n, ∃ added n',
    filter_content host blacklist depth d (with_logger self l, n)
    = (outcome (filtered depth self d), (with_logger self (l ++ added), n')).
Proof.
  induction depth as [|depth IH]; intros d self l n.
  { exists [], n. simpl. by rewrite app_nil_r. }
  destruct (memory_alarm_run self l n) as (a0 & Halarm & _).
  cbn [filter_content filtered]. unfold mbind at 1, run_bind at 1. rewrite Halarm.
  destruct d as [| b | lex | s | items | items];
    try (by exists a0, (S n)).
  - (* a list *)
    assert (Hitems : ∀ l n, ∃ added n',
      filter_list (filter_content host blacklist depth) items (with_logger self l, n)
      = (outcome (kept_list self (filtered depth self) items),
         (with_logger self (l ++ added), n'))).
    { clear l n Halarm. induction items as [|x items IHitems]; intros l n.
      { exists [], n. simpl. by rewrite app_nil_r. }
      destruct (dropped_logger self x) as [a1 Hdrop].
      cbn [filter_list kept_list]. unfold mbind at 1, run_bind at 1.
      rewrite Hdrop. destruct (dropped self x).
      { destruct (IHitems (l ++ a1) n) as (a2 & n' & Hrest).
        exists (a1 ++ a2), n'. by rewrite Hrest, app_assoc. }
      destruct (IH x self (l ++ a1) n) as (a2 & n2 & Hx).
      unfold mbind at 1, run_bind at 1. rewrite Hx.
      destruct (filtered depth self x) as [x'|]; simpl.
      - destruct (IHitems ((l ++ a1) ++ a2) n2) as (a3 & n3 & Hrest).
        unfold mbind, run_bind. rewrite Hrest.
        exists (a1 ++ a2 ++ a3), n3.
        destruct (kept_list _ _ items); simpl; by rewrite !app_assoc.
      - exists (a1 ++ a2), n2. by rewrite app_assoc. }
    destruct (Hitems (l ++ a0) (S n)) as (a1 & n' & Hrun).
    exists (a0 ++ a1), n'. unfold mbind, run_bind. rewrite Hrun.
    destruct (kept_list _ _ items); simpl; by rewrite app_assoc.
  - (* a dictionary *)
    assert (Hitems : ∀ l n, ∃ added n',
      filter_items blacklist (filter_content host blacklist depth) items
        (with_logger self l, n)
      = (outcome (kept_items (filtered depth self) items),
         (with_logger self (l ++ added), n'))).
    { clear l n Halarm. induction items as [|[k v] items IHitems]; intros l n.
      { exists [], n. simpl. by rewrite app_nil_r. }
      cbn [filter_items kept_items].
      destruct (_is_key_blacklisted blacklist k); [apply IHitems|].
      destruct (IH v self l n) as (a1 & n1 & Hv).
      unfold mbind at 1, run_bind at 1. rewrite Hv.
      destruct (filtered depth self v) as [v'|]; simpl.
      - destruct (IHitems (l ++ a1) n1) as (a2 & n2 & Hrest).
        unfold mbind, run_bind. rewrite Hrest.
        exists (a1 ++ a2), n2.
        destruct (kept_items _ items); simpl; by rewrite !app_assoc.
      - by exists a1, n1. }
    destruct (Hitems (l ++ a0) (S n)) as (a1 & n' & Hrun).
    exists (a0 ++ a1), n'. unfold mbind, run_bind. rewrite Hrun.
    destruct (kept_items _ items); simpl; by rewrite app_assoc.
Qed.

Lemma filter_content_outcome (depth : nat) (d : json)
    (st : AcademicContentFilter * nat) :
  ∃ added n',
    filter_content host blacklist depth d st
    = (outcome (filtered depth st.1 d),
       (with_logger st.1 (logger st.1 ++ added), n')).
Proof.
  destruct st as [self n].
  destruct (filter_content_run depth d self (logger self) n) as (added & n' & Hrun).
  exists added, n'. by rewrite with_logger_same in Hrun.
Qed.

(** *** The keys of the result *)

Lemma filtered_keys_allowed (depth : nat) (self : AcademicContentFilter) :
  ∀ d d', filtered depth self d = Some d' → keys_allowed blacklist d' = true.
Proof.
  induction depth as [|depth IH]; intros d d'; [done|].
  destruct d as [| b | lex | s | items | items]; cbn [filtered];
    try (by intros [= <-]).
  - destruct (kept_list _ _ items) as [items'|] eqn:Hitems; [|done].
    intros [= <-]. cbn [keys_allowed].
    revert items' Hitems. induction items as [|x items IHitems]; intros items'.
    { by intros [= <-]. }
    cbn [kept_list]. destruct (dropped self x); [apply IHitems|].
    destruct (filtered depth self x) as [x'|] eqn:Hx; [|done].
    destruct (kept_list _ _ items) as [rest'|]; [|done].
    intros [= <-]. by rewrite (IH x x' Hx), (IHitems rest').
  - destruct (kept_items _ items) as [items'|] eqn:Hitems; [|done].
    intros [= <-]. cbn [keys_allowed].
    revert items' Hitems. induction items as [|[k v] items IHitems]; intros items'.
    { by intros [= <-]. }
    cbn [kept_items]. destruct (_is_key_blacklisted blacklist k) eqn:Hk;
      [apply IHitems|].
    destruct (filtered depth self v) as [v'|] eqn:Hv; [|done].
    destruct (kept_items _ items) as [rest'|]; [|done].
    intros [= <-]. by rewrite Hk, (IH v v' Hv), (IHitems rest').
Qed.

Lemma filtered_deep_enough (depth : nat) (self : AcademicContentFilter) :
  ∀ d, (nesting d ≤ depth)%nat → ∃ d', filtered depth self d = Some d'.
Proof.
  induction depth as [|depth IH]; intros d Hd.
  { destruct d; simpl in Hd; lia. }
  destruct d as [| b | lex | s | items | items]; cbn [filtered];
    try (by eexists).
  - cbn [nesting] in Hd. apply le_S_n in Hd.
    assert (Hitems : ∃ items', kept_list self (filtered depth self) items = Some items').
    { induction items as [|x items IHitems]; [by eexists|].
      cbn [kept_list]. destruct (dropped self x); [apply IHitems; lia|].
      destruct (IH x ltac:(lia)) as [x' ->].
      destruct (IHitems ltac:(lia)) as [rest' ->]. by eexists. }
    destruct Hitems as [items' ->]. by eexists.
  - cbn [nesting] in Hd. apply le_S_n in Hd.
    assert (Hitems : ∃ items', kept_items (filtered depth self) items = Some items').
    { induction items as [|[k v] items IHitems]; [by eexists|].
      cbn [kept_items]. destruct (_is_key_blacklisted blacklist k);
        [apply IHitems; lia|].
      destruct (IH v ltac:(lia)) as [v' ->].
      destruct (IHitems ltac:(lia)) as [rest' ->]. by eexists. }
    destruct Hitems as [items' ->]. by eexists.
Qed.

(** X14.  [filter_content] raises nothing but [RecursionError], and returns
    a value whenever the depth it is allowed is at least the number of levels
    of its argument; no key of a value it returns, at any depth, is
    blacklisted. *)
Theorem blacklisted_keys_removed (depth : nat) (d : json)
    (st : AcademicContentFilter * nat) :
  (∀ d' st', filter_content host blacklist depth d st = (Ok d', st') →
     keys_allowed blacklist d' = true)
  ∧ (∀ e st', filter_content host blacklist depth d st = (Raise e, st') →
       e = RecursionError)
  ∧ ((nesting d ≤ depth)%nat →
     ∃ d' st', filter_content host blacklist depth d st = (Ok d', st')).
Proof.
  destruct (filter_content_outcome depth d st) as (added & n' & ->).
  split; [|split].
  - intros d' st'. destruct (filtered depth st.1 d) as [d0|] eqn:Hd; [|done].
    intros [= <- _]. by apply (filtered_keys_allowed depth st.1 d).
  - intros e st'. destruct (filtered depth st.1 d); [done|]. by intros [= <- _].
  - intros Hdeep. destruct (filtered_deep_enough depth st.1 d Hdeep) as [d' ->].
    by eexists _, _.
Qed.

(** *** Values of dictionaries *)

Lemma values_run (depth : nat) :
  ∀ d self l n,
    has_list d = false → keys_allowed blacklist d = true →
    (nesting d ≤ depth)%nat →
    ∃ alarms n',
      filter_content host blacklist depth d (with_logger self l, n)
      = (Ok d, (with_logger self (l ++ alarms), n'))
      ∧ Forall is_alarm alarms.
Proof.
  induction depth as [|depth IH]; intros d self l n Hlist Hkeys Hdeep.
  { destruct d; simpl in Hdeep; lia. }
  destruct (memory_alarm_run self l n) as (a0 & Halarm & Ha0).
  cbn [filter_content]. unfold mbind at 1, run_bind at 1. rewrite Halarm.
  destruct d as [| b | lex | s | items | items];
    try (exists a0, (S n); by split).
  cbn [has_list keys_allowed nesting] in Hlist, Hkeys, Hdeep. apply le_S_n in Hdeep.
  assert (Hitems : ∀ l n, ∃ alarms n',
    filter_items blacklist (filter_content host blacklist depth) items
      (with_logger self l, n)
    = (Ok items, (with_logger self (l ++ alarms), n'))
    ∧ Forall is_alarm alarms).
  { clear l n Halarm. induction items as [|[k v] items IHitems]; intros l n.
    { exists [], n. split; [simpl; by rewrite app_nil_r | constructor]. }
    apply orb_false_elim in Hlist as [Hlv Hlrest].
    apply andb_prop in Hkeys as [Hkv Hkrest]. apply andb_prop in Hkv as [Hk Hkv].
    apply negb_true_iff in Hk.
    cbn [filter_items]. rewrite Hk.
    destruct (IH v self l n Hlv Hkv ltac:(lia)) as (a1 & n1 & Hv & Ha1).
    destruct (IHitems Hlrest Hkrest ltac:(lia) (l ++ a1) n1)
      as (a2 & n2 & Hrest & Ha2).
    exists (a1 ++ a2), n2. split; [|by apply Forall_app].
    unfold mbind, run_bind. rewrite Hv, Hrest. simpl. by rewrite app_assoc. }
  destruct (Hitems (l ++ a0) (S n)) as (a1 & n' & Hrun & Ha1).
  exists (a0 ++ a1), n'. split; [|by apply Forall_app].
  unfold mbind, run_bind. rewrite Hrun. simpl. by rewrite app_assoc.
Qed.

(** X13.  Values of dictionaries are not shown to [_filter_text]: a value
    without any list and without blacklisted key, of no more levels than the
    depth allowed, is returned as it is whatever its strings say, and the
    object is as it was but for the records of the memory alarm. *)
Theorem record_values_not_filtered (depth : nat) (d : json)
    (self : AcademicContentFilter) (n : nat) :
  has_list d = false → keys_allowed blacklist d = true →
  (nesting d ≤ depth)%nat →
  ∃ alarms n',
    filter_content host blacklist depth d (self, n)
    = (Ok d, (with_logger self (logger self ++ alarms), n'))
    ∧ Forall is_alarm alarms.
Proof.
  intros Hlist Hkeys Hdeep.
  destruct (values_run depth d self (logger self) n Hlist Hkeys Hdeep)
    as (alarms & n' & Hrun & Halarms).
  exists alarms, n'. by rewrite with_logger_same in Hrun.
Qed.

(** *** A second pass *)

Lemma dropped_filtered (depth : nat) (self : AcademicContentFilter) (x x' : json) :
  filtered depth self x = Some x' → dropped self x' = dropped self x.
Proof.
  destruct depth as [|depth]; [done|].
  destruct x as [| b | lex | s | items | items]; cbn [filtered];
    try (by intros [= <-]).
  - destruct (kept_list _ _ items); [|done]. by intros [= <-].
  - destruct (kept_items _ items); [|done]. by intros [= <-].
Qed.

Lemma filtered_idem (depth : nat) (self : AcademicContentFilter) :
  ∀ d d', filtered depth self d = Some d' → filtered depth self d' = Some d'.
Proof.
  induction depth as [|depth IH]; intros d d'; [done|].
  destruct d as [| b | lex | s | items | items]; cbn [filtered];
    try (by intros [= <-]).
  - destruct (kept_list _ _ items) as [items'|] eqn:Hitems; [|done].
    intros [= <-]. cbn [filtered].
    assert (Hagain : kept_list self (filtered depth self) items' = Some items');
      [|by rewrite Hagain].
    revert items' Hitems. induction items as [|x items IHitems]; intros items'.
    { by intros [= <-]. }
    cbn [kept_list]. destruct (dropped self x) eqn:Hdrop; [apply IHitems|].
    destruct (filtered depth self x) as [x'|] eqn:Hx; [|done].
    destruct (kept_list _ _ items) as [rest'|]; [|done].
    intros [= <-]. cbn [kept_list].
    by rewrite (dropped_filtered depth self x x' Hx), Hdrop, (IH x x' Hx),
      (IHitems rest').
  - destruct (kept_items _ items) as [items'|] eqn:Hitems; [|done].
    intros [= <-]. cbn [filtered].
    assert (Hagain : kept_items (filtered depth self) items' = Some items');
      [|by rewrite Hagain].
    revert items' Hitems. induction items as [|[k v] items IHitems]; intros items'.
    { by intros [= <-]. }
    cbn [kept_items]. destruct (_is_key_blacklisted blacklist k) eqn:Hk;
      [apply IHitems|].
    destruct (filtered depth self v) as [v'|] eqn:Hv; [|done].
    destruct (kept_items _ items) as [rest'|]; [|done].
    intros [= <-]. cbn [kept_items]. by rewrite Hk, (IH v v' Hv), (IHitems rest').
Qed.

(** X15.  Filtering is idempotent: when [filter_content] returns a value,
    [filter_content] applied to that value, on the object and the host as the
    first call left them and with the same depth allowed, returns it
    unchanged. *)
Theorem filter_content_idempotent (depth : nat) (d d' : json)
    (st st1 : AcademicContentFilter * nat) :
  filter_content host blacklist depth d st = (Ok d', st1) →
  ∃ st2, filter_content host blacklist depth d' st1 = (Ok d', st2).
Proof.
  destruct st as [self n].
  destruct (filter_content_run depth d self (logger self) n) as (a1 & n1 & Hfirst).
  rewrite with_logger_same in Hfirst. rewrite Hfirst.
  destruct (filtered depth self d) as [d0|] eqn:Hd; [|done].
  intros [= <- <-].
  destruct (filter_content_run depth d0 self (logger self ++ a1) n1)
    as (a2 & n2 & Hsecond).
  rewrite Hsecond, (filtered_idem depth self d d0 Hd). by eexists.
Qed.

End Recursive.

(** A dictionary with an ad as the value of a key, on the host where the
    alarm is raised at every call: four calls, four records. *)
Lemma record_values_not_filtered_witness :
  let self := for_profile medical [] in
  let d := JObject [(str "text", JString (str "Drug discount for everyone"));
                    (str "meta", JObject [(str "year", JNumber (str "2024"))])] in
  ∃ alarms n',
    @filter_content ascii_library small_host (blacklist_keys medical) 3 d (self, 0%nat)
    = (Ok d, (with_logger self (logger self ++ alarms), n'))
    ∧ Forall is_alarm alarms.
Proof.
  apply (@record_values_not_filtered ascii_library small_host
           (blacklist_keys medical) 3); reflexivity.
Defined.

(** The same ad as an item of a list is removed, and so is a blacklisted
    key; with two levels allowed the call on the items of the list raises. *)
Example list_items_filtered :
  let self := for_profile medical [] in
  let d := JObject [(str "Patient_Metadata", JString (str "x"));
                    (str "notes", JArray [JString (str "Drug discount for everyone");
                                          JNumber (str "7")])] in
  @filter_content ascii_library roomy_host (blacklist_keys medical) 3 d (self, 0%nat)
  = (Ok (JObject [(str "notes", JArray [JNumber (str "7")])]), (self, 3%nat))
  ∧ fst (@filter_content ascii_library roomy_host (blacklist_keys medical) 2 d
           (self, 0%nat))
    = Raise RecursionError.
Proof. split; vm_compute; reflexivity. Qed.

Lemma filter_content_idempotent_witness :
  let self := for_profile medical [] in
  ∃ st2,
    @filter_content ascii_library roomy_host (blacklist_keys medical) 3
      (JObject [(str "notes", JArray [JNumber (str "7")])]) (self, 3%nat)
    = (Ok (JObject [(str "notes", JArray [JNumber (str "7")])]), st2).
Proof.
  apply (@filter_content_idempotent ascii_library roomy_host
           (blacklist_keys medical) 3
           (JObject [(str "Patient_Metadata", JString (str "x"));
                     (str "notes", JArray [JString (str "Drug discount for everyone");
                                           JNumber (str "7")])])
           _ (for_profile medical [], 0%nat)).
  vm_compute. reflexivity.
Defined.

End CleaningMoreFacts.

(** ** cleaning.py: the batches of [stream_process] *)

Module StreamProcess.
Import Json.

(** What a run of [stream_process] leaves: the batches handed to
    [_process_batch], in order, the numbers of the lines logged as failures,
    counted from one, and the exception that ended the run, if one did. *)
Record Streamed : Type := mkStreamed {
  batches : list (list json);
  failures : list nat;
  aborted : option exn
}.

(** [except json.JSONDecodeError]. *)
Definition is_JSONDecodeError (e : exn) : bool :=
  match e with JSONDecodeError => true | _ => false end.

Section Loop.

(** [json.loads] as the interpreter has it, its limits included: beside
    [JSONDecodeError] it raises [ValueError] on an integer of more digits
    than [int] converts and [RecursionError] on a text nested too deep.
    [Json.loads] is this function below the limits. *)
Variable json_loads : pystr -> result json.

(** The loop of [stream_process] over the lines of the input file: every
    line is decoded and appended to the buffer; when the buffer has at least
    [batch_size] records it is handed to [_process_batch] and a new buffer is
    begun; a line on which the decoder raises [JSONDecodeError] is logged
    with its number and skipped; any other exception of the decoder leaves
    the loop and the method, and what the buffer holds is handed to nobody;
    what is left in the buffer after the last line is handed over.
    [_process_batch] itself (the thread pool and the output file) is not
    modelled; it catches what it raises. *)
Fixpoint stream_loop (batch_size : Z) (i : nat) (lines : list pystr)
    (buffer : list json) : Streamed :=
  match lines with
  | [] =>
      {| batches := match buffer with [] => [] | _ :: _ => [buffer] end;
         failures := []; aborted := None |}
  | line :: rest =>
      match json_loads line with
      | Ok v =>
          let buffer' := buffer ++ [v] in
          if (batch_size <=? Z.of_nat (length buffer'))%Z then
            let r := stream_loop batch_size (S i) rest [] in
            {| batches := buffer' :: batches r; failures := failures r;
               aborted := aborted r |}
          else stream_loop batch_size (S i) rest buffer'
      | Raise e =>
          if is_JSONDecodeError e then
            let r := stream_loop batch_size (S i) rest buffer in
            {| batches := batches r; failures := S i :: failures r;
               aborted := aborted r |}
          else {| batches := []; failures := []; aborted := Some e |}
      end
  end.

Definition stream_process (lines : list pystr) (batch_size : Z) : Streamed :=
  stream_loop batch_size 0 lines [].







Lemma stream_loop_sizes (batch_size : Z) (lines : list pystr) :
  ∀ i buffer,
    (Z.of_nat (length buffer) < batch_size)%Z →
    ∀ k b, batches (stream_loop batch_size i lines buffer) !! k = Some b →
      (0 < length b)%nat ∧ (Z.of_nat (length b) ≤ batch_size)%Z
      ∧ ((S k < length (batches (stream_loop batch_size i lines buffer)))%nat →
         Z.of_nat (length b) = batch_size).
Proof.
  induction lines as [|line rest IH]; intros i buffer Hlen k b; simpl.
  - destruct buffer as [|x buffer]; [done|].
    destruct k; [|done]. intros [= <-]. cbn [length] in *.
    split; [lia|]. split; [lia|]. intros Hk. lia.
  - destruct (json_loads line) as [v|e].
    + destruct (Z.leb_spec batch_size (Z.of_nat (length (buffer ++ [v]))))
        as [Hfull|Hroom].
      * specialize (IH (S i) [] ltac:(simpl; lia)).
        cbn [batches]. rewrite length_app in Hfull. cbn [length] in Hfull.
        destruct k as [|k]; simpl.
        -- intros [= <-]. rewrite length_app. cbn [length]. lia.
        -- intros Hb. destruct (IH k b Hb) as (H1 & H2 & H3).
           split; [done|]. split; [done|]. intros Hk. apply H3. lia.
      * by apply IH.
    + destruct (is_JSONDecodeError e); [|done].
      cbn [batches]. by apply IH.
Qed.

(** X17.  With a batch size of at least one, no batch is empty or larger than
    the batch size, and every batch but the last has exactly [batch_size]
    records. *)
Theorem stream_process_batch_sizes (lines : list pystr) (batch_size : Z)
    (k : nat) (b : list json) :
  (1 ≤ batch_size)%Z →
  batches (stream_process lines batch_size) !! k = Some b →
  (0 < length b)%nat ∧ (Z.of_nat (length b) ≤ batch_size)%Z
  ∧ ((S k < length (batches (stream_process lines batch_size)))%nat →
     Z.of_nat (length b) = batch_size).
Proof.
  intros Hsize. apply stream_loop_sizes. simpl. lia.
Qed.

End Loop.

(** Five lines, two records to a batch: the second line is not JSON, the
    fourth is blank. *)
Definition five_lines : list pystr :=
  [str "{}" ++ [NEWLINE]; str "oops" ++ [NEWLINE]; str "[1, 2]" ++ [NEWLINE];
   [NEWLINE]; str "3"].

Example stream_process_five_lines :
  stream_process loads five_lines 2
  = {| batches := [[JObject []; JArray [JNumber (str "1"); JNumber (str "2")]];
                   [JNumber (str "3")]];
       failures := [2%nat; 4%nat];
       aborted := None |}.
Proof. vm_compute. reflexivity. Qed.

Lemma stream_process_batch_sizes_witness :
  (0 < length [JNumber (str "3")])%nat
  ∧ (Z.of_nat (length [JNumber (str "3")]) ≤ 2)%Z
  ∧ ((2 < length (batches (stream_process loads five_lines 2)))%nat →
     Z.of_nat (length [JNumber (str "3")]) = 2%Z).
Proof.
  apply (stream_process_batch_sizes loads five_lines 2 1 [JNumber (str "3")]).
  - lia.
  - vm_compute. reflexivity.
Defined.

(** A decoder for an example of the other exceptions: [Json.loads], but for
    a text that is one integer of more than 4300 digits, the most that [int]
    converts by default; there it raises [ValueError]. *)
Definition loads_short_integers (s : pystr) : result json :=
  match loads s with
  | Ok (JNumber lexeme) =>
      if forallb is_digit lexeme && (4300 <? length lexeme)%nat
      then Raise ValueError
      else Ok (JNumber lexeme)
  | r => r
  end.

(** Three records, then an integer of 4301 digits: the first two records
    reach a batch, the third is lost with the run, the fifth line is not
    read. *)
Example stream_process_long_integer :
  stream_process loads_short_integers
    [str "1"; str "2"; str "3"; replicate 4301 49; str "5"] 2
  = {| batches := [[JNumber (str "1"); JNumber (str "2")]];
       failures := [];
       aborted := Some ValueError |}.
Proof. vm_compute. reflexivity. Qed.

End StreamProcess.

(** ** deduplication.py: signatures and the kept texts *)

Module DedupMore.
Import Dedup DedupFacts.

(** The two texts have the same tokens, in whatever order and number. *)
Definition same_tokens (x y : pystr) : bool :=
  forallb (fun w => bool_decide (w ∈ Cleaning.split y)) (Cleaning.split x)
  && forallb (fun w => bool_decide (w ∈ Cleaning.split x)) (Cleaning.split y).

Section Signatures.
Context `{Datasketch}.

(** The least of [v] and of the values of permutation [i] on the words. *)
Definition min_over (i : nat) (v : Z) (words : list pystr) : Z :=
  foldl (fun acc w => Z.min (perm_hash i w) acc) v words.

Lemma lookup_foldl_update (words : list pystr) :
  ∀ (m : MinHash) (i : nat),
    foldl update m words !! i = (fun v => min_over i v words) <$> (m !! i).
Proof.
  induction words as [|w words IH]; intros m i; cbn [foldl].
  - by destruct (m !! i).
  - rewrite IH. unfold update, MinHash in *.
    pose proof (list_lookup_imap (fun i0 v => Z.min (perm_hash i0 w) v) m i) as Hi.
    unfold MinHash in *. rewrite Hi. by destruct (m !! i).
Qed.

Lemma min_over_le_init (i : nat) (words : list pystr) :
  ∀ v, (min_over i v words ≤ v)%Z.
Proof.
  induction words as [|w words IH]; intros v; simpl; [lia|].
  specialize (IH (Z.min (perm_hash i w) v)). unfold min_over in *. simpl. lia.
Qed.

Lemma min_over_le_word (i : nat) (words : list pystr) (w : pystr) :
  w ∈ words → ∀ v, (min_over i v words ≤ perm_hash i w)%Z.
Proof.
  induction words as [|w0 words IH]; intros Hw v.
  { by apply elem_of_nil in Hw. }
  apply elem_of_cons in Hw as [->|Hw].
  - pose proof (min_over_le_init i words (Z.min (perm_hash i w0) v)) as Hle.
    unfold min_over in *. simpl. lia.
  - unfold min_over in *. simpl. by apply IH.
Qed.

Lemma min_over_attained (i : nat) (words : list pystr) :
  ∀ v, min_over i v words = v
       ∨ ∃ w, w ∈ words ∧ min_over i v words = perm_hash i w.
Proof.
  induction words as [|w0 words IH]; intros v; [by left|].
  unfold min_over in *. simpl.
  destruct (IH (Z.min (perm_hash i w0) v)) as [Heq|(w & Hw & Heq)].
  - rewrite Heq. destruct (Z.min_spec (perm_hash i w0) v) as [[_ ->]|[_ ->]].
    + right. exists w0. split; [by left | done].
    + by left.
  - right. exists w. split; [by right | done].
Qed.

Lemma min_over_same_words (i : nat) (v : Z) (ws1 ws2 : list pystr) :
  (∀ w, w ∈ ws1 → w ∈ ws2) → (min_over i v ws2 ≤ min_over i v ws1)%Z.
Proof.
  intros Hsub. destruct (min_over_attained i ws1 v) as [->|(w & Hw & ->)].
  - apply min_over_le_init.
  - apply min_over_le_word. by apply Hsub.
Qed.

Lemma same_tokens_spec (x y : pystr) :
  same_tokens x y = true →
  (∀ w, w ∈ Cleaning.split x → w ∈ Cleaning.split y)
  ∧ (∀ w, w ∈ Cleaning.split y → w ∈ Cleaning.split x).
Proof.
  unfold same_tokens. intros Hs. apply andb_prop in Hs as [H1 H2].
  rewrite forallb_forall in H1, H2. split; intros w Hw.
  - apply list_elem_of_In, H1 in Hw. by apply bool_decide_eq_true in Hw.
  - apply list_elem_of_In, H2 in Hw. by apply bool_decide_eq_true in Hw.
Qed.

(** X18.  The signature of a text depends on the set of its tokens only: two
    texts with the same tokens, in any order, repeated or not, spaced in any
    way, have the same signature (or make [encode] raise, both of them), and
    so collide in every index with at least one band. *)
Theorem same_tokens_same_signature (x y : pystr) :
  same_tokens x y = true →
  get_minhash x = get_minhash y
  ∧ ∀ b r, (0 < b)%nat → collide b r x y = true.
Proof.
  intros Hs. apply same_tokens_spec in Hs as [Hxy Hyx].
  assert (Heq : signature x = signature y).
  { apply list_eq. intros i. unfold signature.
    rewrite !lookup_foldl_update. destruct (MinHash_new !! i) as [v|]; [|done].
    simpl. f_equal.
    pose proof (min_over_same_words i v _ _ Hxy).
    pose proof (min_over_same_words i v _ _ Hyx). lia. }
  assert (Henc : encodable x = encodable y).
  { apply eq_true_iff_eq. unfold encodable. rewrite !forallb_forall.
    split; intros Hall w Hw; apply Hall; apply list_elem_of_In;
      [apply Hyx | apply Hxy]; by apply list_elem_of_In. }
  split; [by rewrite !get_minhash_outcome, Henc, Heq|].
  intros b r Hb. apply collide_spec. exists 0%nat.
  split; [done|]. by rewrite Heq.
Qed.

(** *** The kept texts *)

Lemma first_of_groups_idem (b r : nat) (texts : list pystr) :
  ∀ kept, first_of_groups b r kept (first_of_groups b r kept texts)
          = first_of_groups b r kept texts.
Proof.
  induction texts as [|t rest IH]; intros kept; simpl; [done|].
  destruct (existsb (collide b r t) kept) eqn:Hex; [apply IH|].
  simpl. by rewrite Hex, IH.
Qed.

Lemma first_of_groups_encodable (b r : nat) (texts : list pystr) :
  forallb encodable texts = true →
  ∀ kept, forallb encodable (first_of_groups b r kept texts) = true.
Proof.
  induction texts as [|t rest IH]; intros Henc kept; simpl; [done|].
  simpl in Henc. apply andb_prop in Henc as [Ht Hrest].
  destruct (existsb (collide b r t) kept); [by apply IH|].
  simpl. by rewrite Ht, IH.
Qed.

(** X19.  Deduplication is idempotent: the list returned by [deduplicate_texts]
    is returned unchanged when it is given back with the same threshold. *)
Theorem deduplicate_texts_idempotent (texts out : list pystr) (threshold : Q) :
  deduplicate_texts texts threshold = Ok out →
  deduplicate_texts out threshold = Ok out.
Proof.
  intros Hout.
  destruct (deduplicate_texts_returned texts out threshold Hout)
    as (lsh0 & Hnew & Henc & ->).
  rewrite (deduplicate_texts_first_wins _ threshold lsh0 Hnew).
  by rewrite first_of_groups_encodable, first_of_groups_idem.
Qed.

(** No text of [l] collides with a text that stands before it in [l]. *)
Definition apart (b r : nat) (l : list pystr) : Prop :=
  ∀ i j x y, (i < j)%nat → l !! i = Some x → l !! j = Some y →
             collide b r y x = false.

Lemma apart_snoc (b r : nat) (l : list pystr) (t : pystr) :
  apart b r l → existsb (collide b r t) l = false → apart b r (l ++ [t]).
Proof.
  intros Hl Hex i j x y Hij Hx Hy.
  destruct (decide (j < length l)%nat) as [Hj|Hj].
  - rewrite lookup_app_l in Hx, Hy by lia. by apply (Hl i j).
  - rewrite lookup_app_r in Hy by lia.
    destruct (j - length l)%nat as [|n] eqn:Hn; [|by destruct n].
    injection Hy as <-. rewrite lookup_app_l in Hx by lia.
    destruct (collide b r t x) eqn:Hc; [|done].
    assert (Hex' : existsb (collide b r t) l = true); [|congruence].
    apply existsb_exists. exists x. split; [|done].
    apply list_elem_of_In. by apply list_elem_of_lookup_2 in Hx.
Qed.

Lemma first_of_groups_apart (b r : nat) (texts : list pystr) :
  ∀ kept, apart b r kept → apart b r (kept ++ first_of_groups b r kept texts).
Proof.
  induction texts as [|t rest IH]; intros kept Hkept; simpl.
  { by rewrite app_nil_r. }
  destruct (existsb (collide b r t) kept) eqn:Hex; [by apply IH|].
  replace (kept ++ t :: first_of_groups b r (kept ++ [t]) rest)
    with ((kept ++ [t]) ++ first_of_groups b r (kept ++ [t]) rest)
    by (by rewrite <- app_assoc).
  apply IH. by apply apart_snoc.
Qed.

Lemma first_of_groups_covers (b r : nat) (texts : list pystr) :
  (0 < b)%nat →
  ∀ kept t, t ∈ texts →
    ∃ k, k ∈ kept ++ first_of_groups b r kept texts ∧ collide b r t k = true.
Proof.
  intros Hb. induction texts as [|t0 rest IH]; intros kept t Ht.
  { by apply elem_of_nil in Ht. }
  simpl. destruct (existsb (collide b r t0) kept) eqn:Hex.
  - apply elem_of_cons in Ht as [->|Ht]; [|by apply IH].
    apply existsb_exists in Hex as (k & Hk & Hc). exists k. split; [|done].
    apply elem_of_app. left. by apply list_elem_of_In.
  - replace (kept ++ t0 :: first_of_groups b r (kept ++ [t0]) rest)
      with ((kept ++ [t0]) ++ first_of_groups b r (kept ++ [t0]) rest)
      by (by rewrite <- app_assoc).
    apply elem_of_cons in Ht as [->|Ht]; [|by apply IH].
    exists t0. split; [|by apply collide_refl].
    apply elem_of_app. left. apply elem_of_app. right. by left.
Qed.

(** X20.  For a threshold the index can be built for and texts whose
    tokens all have a UTF-8 encoding, the kept texts represent the input and
    are apart from each other: every input text collides with some kept
    text, no kept text collides with a kept text before it, and the first
    input text is always kept. *)
Theorem kept_texts_cover (texts : list pystr) (threshold : Q) (lsh0 : MinHashLSH) :
  MinHashLSH_new threshold = Ok lsh0 →
  forallb encodable texts = true →
  ∃ out,
    deduplicate_texts texts threshold = Ok out
    ∧ (∀ t, t ∈ texts → ∃ k, k ∈ out ∧ collide (bands lsh0) (rows lsh0) t k = true)
    ∧ apart (bands lsh0) (rows lsh0) out
    ∧ (∀ t rest, texts = t :: rest → ∃ out', out = t :: out').
Proof.
  intros Hnew Henc. destruct (new_holds threshold lsh0 Hnew) as [_ Hb].
  eexists. split.
  { by rewrite (deduplicate_texts_first_wins texts threshold lsh0 Hnew), Henc. }
  split; [|split].
  - intros t Ht.
    apply (first_of_groups_covers (bands lsh0) (rows lsh0) texts) with (kept := []);
      [lia | done].
  - apply (first_of_groups_apart _ _ texts []). intros i j x y _ Hx. done.
  - intros t rest ->. simpl. by eexists.
Qed.

End Signatures.

(** *** Closed instances *)

Lemma same_tokens_same_signature_witness :
  @get_minhash toy_datasketch (str "lazy dog the  quick the dog")
  = @get_minhash toy_datasketch (str "the quick lazy dog")
  ∧ ∀ b r, (0 < b)%nat →
      @collide toy_datasketch b r (str "lazy dog the  quick the dog")
        (str "the quick lazy dog") = true.
Proof.
  apply (@same_tokens_same_signature toy_datasketch). vm_compute. reflexivity.
Defined.

Lemma deduplicate_texts_idempotent_witness :
  @deduplicate_texts toy_datasketch [str "a b"; str "c"] (9 # 10)%Q
  = Ok [str "a b"; str "c"].
Proof.
  apply (@deduplicate_texts_idempotent toy_datasketch
           [str "a b"; str "b  a"; str "c"] [str "a b"; str "c"] (9 # 10)%Q).
  vm_compute. reflexivity.
Defined.

Lemma kept_texts_cover_witness :
  ∃ out,
    @deduplicate_texts toy_datasketch [text_A; text_B; text_A'] (9 # 10)%Q = Ok out
    ∧ (∀ t, t ∈ [text_A; text_B; text_A'] →
         ∃ k, k ∈ out ∧ @collide toy_datasketch 9 13 t k = true)
    ∧ @apart toy_datasketch 9 13 out
    ∧ (∀ t rest, [text_A; text_B; text_A'] = t :: rest → ∃ out', out = t :: out').
Proof.
  apply (@kept_texts_cover toy_datasketch [text_A; text_B; text_A'] (9 # 10)%Q
           {| bands := 9; rows := 13; hashtables := replicate 9 ∅; keys := ∅ |}).
  - reflexivity.
  - reflexivity.
Defined.

End DedupMore.

(** ** integrated_filter/text_reserved.py: [filter_paragraphs] *)

Module TextReserved.

(** What the function takes from the interpreter: [str.lower], and
    [re.match pattern line] as the answer to whether the pattern matches at
    the start of the line.  Both are functions of their arguments. *)
Class Runtime : Type := {
  lower : pystr -> pystr;
  re_match : pystr -> pystr -> bool
}.

Definition MIN_PARAGRAPH_LENGTH : nat := 30.

Definition SYMBOL_ONLY_PATTERN : pystr := str "^[\W_]+$".

Definition REFERENCE_PATTERNS : list pystr :=
  [str "^\s*References\s*$";
   str "^\s*\[\d+\]\s*.+";
   str "^\s*\(\d+\)\s*.+";
   str ".+\(\d{4}[,;]?\s*[A-Za-z]+.*\)"].

Definition AUTHOR_INFO_KEYWORDS : list pystr :=
  [str "Keywords"; str "Corresponding author"; str "Affiliation";
   str "Funding"; str "Acknowledgment"; str "Author information"].

(** The fourth keyword is the copyright sign. *)
Definition FOOTER_KEYWORDS : list pystr :=
  [str "Privacy Policy"; str "Terms of Service"; str "Contact Us";
   [169]; str "All rights reserved"; str "Unsubscribe"].

(** The pattern of the loop over the tail, written in place in the source. *)
Definition FOOTNOTE_PATTERN : pystr := str "^\d+\s".

(** The line boundaries of [str.splitlines]: line feed, vertical tab, form
    feed, carriage return, the file, group and record separators, next line,
    line separator and paragraph separator. *)
Definition linebreak (c : N) : bool :=
  ((10 <=? c) && (c <=? 13)) || ((28 <=? c) && (c <=? 30))
  || (c =? 133) || (c =? 8232) || (c =? 8233).

(** [s.splitlines()]: [cur] is the line being read.  A carriage return
    followed by a line feed is one boundary; a text that ends with a boundary
    has no empty last line. *)
Fixpoint splitlines_from (cur : pystr) (s : pystr) : list pystr :=
  match s with
  | [] => match cur with [] => [] | _ :: _ => [cur] end
  | c :: rest =>
      if linebreak c then
        cur :: splitlines_from []
                 (if c =? 13 then
                    match rest with
                    | d :: rest' => if d =? 10 then rest' else rest
                    | [] => rest
                    end
                  else rest)
      else splitlines_from (cur ++ [c]) rest
  end.

Definition splitlines (s : pystr) : list pystr := splitlines_from [] s.

Section Filter.
Context `{Runtime}.

(** The four tests of the loop body, in the order of the source: a line
    that is too short or of symbols only, a reference, author information, a
    page footer. *)
Definition rejected (line : pystr) : bool :=
  if (length line <? MIN_PARAGRAPH_LENGTH)%nat || re_match SYMBOL_ONLY_PATTERN line
  then true
  else if existsb (fun pat => re_match pat line) REFERENCE_PATTERNS then true
  else
    let low := lower line in
    if existsb (fun kw => contains (lower kw) low) AUTHOR_INFO_KEYWORDS then true
    else existsb (fun kw => contains kw line) FOOTER_KEYWORDS.

(** The loop over the lines, with the set [seen] and the list [filtered]. *)
Fixpoint select (seen : gset pystr) (filtered : list pystr) (lines : list pystr)
    : list pystr :=
  match lines with
  | [] => filtered
  | line :: rest =>
      if match line with [] => true | _ :: _ => false end
         || bool_decide (line ∈ seen)
      then select seen filtered rest
      else if rejected line then select ({[line]} ∪ seen) filtered rest
      else select ({[line]} ∪ seen) (filtered ++ [line]) rest
  end.

(** The test of the loop over the tail. *)
Definition footnote (l : pystr) : bool :=
  (length l <? MIN_PARAGRAPH_LENGTH)%nat || re_match FOOTNOTE_PATTERN l.

(** The loop over the tail, on the list read from its end: while there are
    two lines and the last two are both footnotes, both are removed. *)
Fixpoint trim_reversed (r : list pystr) : list pystr :=
  match r with
  | l2 :: l1 :: rest =>
      if footnote l1 && footnote l2 then trim_reversed rest else r
  | _ => r
  end.

Definition drop_footnotes (filtered : list pystr) : list pystr :=
  rev (trim_reversed (rev filtered)).

Definition lines_of (text : pystr) : list pystr := map strip (splitlines text).

(** [filtered] when the first loop ends. *)
Definition filtered_lines (text : pystr) : list pystr :=
  select ∅ [] (lines_of text).

(** [filtered] when the second loop ends. *)
Definition paragraphs (text : pystr) : list pystr :=
  drop_footnotes (filtered_lines text).

Definition filter_paragraphs (text : pystr) : pystr :=
  Cleaning.join [NEWLINE; NEWLINE] (paragraphs text).

End Filter.

(** An engine for the examples: it knows the pattern of the footnotes, on
    ASCII digits, and finds no other pattern; it lowers ASCII letters. *)
Definition digits_then_space (l : pystr) : bool :=
  match l with
  | c :: rest =>
      Json.is_digit c
      && match skip Json.is_digit rest with
         | d :: _ => py_isspace d
         | [] => false
         end
  | [] => false
  end.

Definition digits_runtime : Runtime :=
  {| lower := map Cleaning.ascii_lower_char;
     re_match := fun pat l =>
       if decide (pat = FOOTNOTE_PATTERN) then digits_then_space l else false |}.

End TextReserved.

Module TextReservedFacts.
Import TextReserved.

Lemma pair_ind {A : Type} (P : list A → Prop) :
  P [] → (∀ x, P [x]) → (∀ x y l, P l → P (x :: y :: l)) → ∀ l, P l.
Proof.
  intros H0 H1 H2 l.
  assert (Hboth : P l ∧ ∀ x, P (x :: l)); [|by destruct Hboth].
  induction l as [|a l [IH1 IH2]]; split; [done | done | apply IH2 |].
  intros x. by apply H2.
Qed.

(** *** [splitlines] *)

Definition unbroken (p : pystr) : Prop := Forall (fun c => linebreak c = false) p.

Lemma splitlines_from_unbroken_prefix (p : pystr) :
  unbroken p →
  ∀ cur s, splitlines_from cur (p ++ s) = splitlines_from (cur ++ p) s.
Proof.
  induction 1 as [|c p Hc Hp IH]; intros cur s; simpl.
  - by rewrite app_nil_r.
  - rewrite Hc, IH. by rewrite <- app_assoc.
Qed.

Lemma splitlines_from_blank_line (cur s : pystr) :
  splitlines_from cur (NEWLINE :: NEWLINE :: s) = cur :: [] :: splitlines_from [] s.
Proof. done. Qed.

Lemma splitlines_from_unbroken (n : nat) :
  ∀ s cur, (length s ≤ n)%nat → unbroken cur →
    Forall unbroken (splitlines_from cur s).
Proof.
  induction n as [|n IH]; intros s cur Hlen Hcur.
  - destruct s; [|simpl in Hlen; lia]. simpl.
    destruct cur; [constructor | constructor; [done | constructor]].
  - destruct s as [|c rest]; simpl.
    { destruct cur; [constructor | constructor; [done | constructor]]. }
    simpl in Hlen. destruct (linebreak c) eqn:Hc.
    + constructor; [done|]. apply IH; [|constructor].
      destruct (c =? 13); [|lia].
      destruct rest as [|d rest']; [simpl; lia|].
      destruct (d =? 10); simpl in *; lia.
    + apply IH; [lia|]. apply Forall_app. split; [done|]. by repeat constructor.
Qed.

(** *** The first loop *)

Section Filter.
Context `{Runtime}.

Lemma select_filtered (lines : list pystr) :
  ∀ seen filtered,
    select seen filtered lines = filtered ++ select seen [] lines.
Proof.
  induction lines as [|line rest IH]; intros seen filtered; simpl.
  - by rewrite app_nil_r.
  - destruct (_ || _); [apply IH|].
    destruct (rejected line); [apply IH|].
    rewrite (IH _ (filtered ++ [line])), (IH _ [line]).
    by rewrite <- app_assoc.
Qed.

Lemma rejected_short (line : pystr) :
  rejected line = false → (MIN_PARAGRAPH_LENGTH ≤ length line)%nat.
Proof.
  unfold rejected.
  destruct (Nat.ltb_spec (length line) MIN_PARAGRAPH_LENGTH); [done|].
  intros _. lia.
Qed.

(** What the first loop keeps. *)
Definition kept (seen : gset pystr) (lines : list pystr) (p : pystr) : Prop :=
  p ∈ lines ∧ (p ∉ seen) ∧ rejected p = false.

Lemma select_kept (lines : list pystr) :
  ∀ seen,
    Forall (kept seen lines) (select seen [] lines)
    ∧ NoDup (select seen [] lines)
    ∧ sublist (select seen [] lines) lines.
Proof.
  induction lines as [|line rest IH]; intros seen; simpl.
  { split; [constructor|]. split; [constructor | done]. }
  destruct (match line with [] => true | _ :: _ => false end
            || bool_decide (line ∈ seen)) eqn:Hskip.
  - destruct (IH seen) as (Hk & Hnd & Hsub).
    split; [|split; [done | by apply sublist_cons]].
    eapply Forall_impl; [exact Hk|].
    intros p (Hp & Hseen & Hrej). split; [by right | done].
  - apply orb_false_iff in Hskip as [_ Hseen].
    apply bool_decide_eq_false in Hseen.
    destruct (IH ({[line]} ∪ seen)) as (Hk & Hnd & Hsub).
    assert (Hk' : Forall (kept seen (line :: rest))
                    (select ({[line]} ∪ seen) [] rest)).
    { eapply Forall_impl; [exact Hk|].
      intros p (Hp & Hnew & Hrej). split; [by right|]. split; [|done].
      intros Hin. apply Hnew. apply elem_of_union. by right. }
    destruct (rejected line) eqn:Hrej.
    + split; [done|]. split; [done | by apply sublist_cons].
    + rewrite select_filtered. simpl. split; [|split].
      * constructor; [|done]. split; [by left | done].
      * constructor; [|done]. intros Hin.
        rewrite Forall_forall in Hk. destruct (Hk line Hin) as (_ & Hnew & _).
        apply Hnew. apply elem_of_union. left. by apply elem_of_singleton.
      * by apply sublist_skip.
Qed.

(** A list of lines that the first loop keeps as it is. *)
Lemma select_all (lines : list pystr) :
  ∀ seen filtered,
    NoDup lines →
    Forall (fun p => p ≠ [] ∧ (p ∉ seen) ∧ rejected p = false) lines →
    select seen filtered lines = filtered ++ lines.
Proof.
  induction lines as [|line rest IH]; intros seen filtered Hnd Hall; simpl.
  { by rewrite app_nil_r. }
  apply NoDup_cons in Hnd as [Hfresh Hnd].
  apply Forall_cons in Hall as [(Hne & Hseen & Hrej) Hall].
  destruct line as [|c line]; [done|]. simpl.
  rewrite bool_decide_eq_false_2 by done. rewrite Hrej.
  rewrite IH; [by rewrite <- app_assoc | done |].
  rewrite Forall_forall in Hall. apply Forall_forall. intros p Hp.
  destruct (Hall p Hp) as (Hne' & Hseen' & Hrej').
  split; [done|]. split; [|done].
  intros Hin. apply elem_of_union in Hin as [Hin|Hin]; [|done].
  apply elem_of_singleton in Hin. by subst.
Qed.

(** The lines that are not empty. *)
Fixpoint nonblank (lines : list pystr) : list pystr :=
  match lines with
  | [] => []
  | [] :: rest => nonblank rest
  | line :: rest => line :: nonblank rest
  end.

Lemma select_nonblank (lines : list pystr) :
  ∀ seen filtered,
    select seen filtered (nonblank lines) = select seen filtered lines.
Proof.
  induction lines as [|line rest IH]; intros seen filtered; [done|].
  destruct line as [|c line]; simpl; [apply IH|].
  destruct (bool_decide _); [apply IH|].
  destruct (rejected (c :: line)); apply IH.
Qed.

(** *** The loop over the tail *)

Lemma trim_reversed_removed (r : list pystr) :
  ∃ removed,
    r = removed ++ trim_reversed r
    ∧ Forall (fun l => footnote l = true) removed
    ∧ ∃ k, length removed = (2 * k)%nat.
Proof.
  induction r as [| |l2 l1 rest IH] using pair_ind.
  - exists []. split; [done|]. split; [constructor | by exists 0%nat].
  - exists []. split; [done|]. split; [constructor | by exists 0%nat].
  - simpl. destruct (footnote l1 && footnote l2) eqn:Hfoot.
    + destruct IH as (removed & Heq & Hall & k & Hk).
      apply andb_prop in Hfoot as [H1 H2].
      exists (l2 :: l1 :: removed). split; [simpl; by rewrite <- Heq|].
      split; [by repeat constructor|]. exists (S k). simpl. lia.
    + exists []. split; [done|]. split; [constructor | by exists 0%nat].
Qed.

Lemma trim_reversed_idem (r : list pystr) :
  trim_reversed (trim_reversed r) = trim_reversed r.
Proof.
  induction r as [| |l2 l1 rest IH] using pair_ind; [done | done |].
  simpl. destruct (footnote l1 && footnote l2) eqn:Hfoot; [done|].
  simpl. by rewrite Hfoot.
Qed.

Lemma drop_footnotes_idem (l : list pystr) :
  drop_footnotes (drop_footnotes l) = drop_footnotes l.
Proof.
  unfold drop_footnotes. by rewrite rev_involutive, trim_reversed_idem.
Qed.

Lemma drop_footnotes_removed (l : list pystr) :
  ∃ removed,
    l = drop_footnotes l ++ removed
    ∧ Forall (fun p => footnote p = true) removed
    ∧ ∃ k, length removed = (2 * k)%nat.
Proof.
  destruct (trim_reversed_removed (rev l)) as (removed & Heq & Hall & k & Hk).
  exists (rev removed). split; [|split].
  - unfold drop_footnotes. rewrite <- rev_app_distr, <- Heq.
    by rewrite rev_involutive.
  - rewrite Forall_forall in Hall. apply Forall_forall. intros p Hp.
    apply Hall. apply list_elem_of_In. apply in_rev. by apply list_elem_of_In.
  - exists k. by rewrite length_rev.
Qed.

(** *** The paragraphs *)

Lemma filtered_lines_kept (text : pystr) :
  Forall (kept ∅ (lines_of text)) (filtered_lines text)
  ∧ NoDup (filtered_lines text)
  ∧ sublist (filtered_lines text) (lines_of text).
Proof. apply select_kept. Qed.

(** X21.  Every paragraph of the result is a stripped line of the text that none
    of the four tests rejects, so it has at least thirty characters; no
    paragraph occurs twice, and the paragraphs stand in the order of their
    lines in the text. *)
Theorem paragraphs_are_kept_lines (text : pystr) :
  Forall (fun p => p ∈ lines_of text ∧ strip p = p ∧ rejected p = false
                   ∧ (30 ≤ length p)%nat) (paragraphs text)
  ∧ NoDup (paragraphs text)
  ∧ sublist (paragraphs text) (lines_of text).
Proof.
  destruct (filtered_lines_kept text) as (Hk & Hnd & Hsub).
  destruct (drop_footnotes_removed (filtered_lines text)) as (removed & Heq & _).
  fold (paragraphs text) in Heq. rewrite Heq in Hk, Hnd, Hsub.
  apply Forall_app in Hk as [Hk _]. apply NoDup_app in Hnd as [Hnd _].
  split; [|split; [done|]].
  - eapply Forall_impl; [exact Hk|]. intros p (Hp & _ & Hrej).
    split; [done|]. split; [|split; [done | by apply rejected_short]].
    unfold lines_of in Hp. apply list_elem_of_In, in_map_iff in Hp as (l & <- & _).
    apply ExtractorMore.strip_strip.
  - etrans; [|exact Hsub]. by apply sublist_inserts_r.
Qed.

(** X22.  The loop over the tail takes away an even number of lines, and only
    lines that begin with digits and a whitespace character: its test on the
    length never holds, for every line kept by the first loop has at least
    thirty characters. *)
Theorem only_numbered_lines_trimmed (text : pystr) :
  ∃ removed,
    filtered_lines text = paragraphs text ++ removed
    ∧ Forall (fun p => re_match FOOTNOTE_PATTERN p = true) removed
    ∧ ∃ k, length removed = (2 * k)%nat.
Proof.
  destruct (filtered_lines_kept text) as (Hk & _ & _).
  destruct (drop_footnotes_removed (filtered_lines text))
    as (removed & Heq & Hall & Hlen).
  exists removed. split; [done|]. split; [|done].
  rewrite Heq in Hk. apply Forall_app in Hk as [_ Hk].
  rewrite Forall_forall in Hk, Hall. apply Forall_forall. intros p Hp.
  destruct (Hk p Hp) as (_ & _ & Hrej). apply rejected_short in Hrej.
  specialize (Hall p Hp). unfold footnote in Hall.
  destruct (Nat.ltb_spec (length p) MIN_PARAGRAPH_LENGTH); [lia | done].
Qed.

(** *** A second pass *)

Lemma strip_unbroken (l : pystr) : unbroken l → unbroken (strip l).
Proof.
  unfold unbroken. rewrite !Forall_forall. intros Hl c Hc. apply Hl.
  unfold strip in Hc. apply list_elem_of_In, in_rev, list_elem_of_In in Hc.
  apply ExtractorMore.elem_of_skip in Hc.
  apply list_elem_of_In, in_rev, list_elem_of_In in Hc.
  by apply ExtractorMore.elem_of_skip in Hc.
Qed.

Lemma lines_of_unbroken (text : pystr) : Forall unbroken (lines_of text).
Proof.
  unfold lines_of. apply List.Forall_map.
  eapply Forall_impl.
  - apply (splitlines_from_unbroken (length text) text []); [done | constructor].
  - intros l Hl. by apply strip_unbroken.
Qed.

(** A line that can stand in the result. *)
Definition clean (p : pystr) : Prop := p ≠ [] ∧ strip p = p ∧ unbroken p.

Lemma lines_of_join (ps : list pystr) :
  Forall clean ps →
  nonblank (lines_of (Cleaning.join [NEWLINE; NEWLINE] ps)) = ps.
Proof.
  unfold lines_of, splitlines.
  induction 1 as [|p ps (Hne & Hstrip & Hun) Hps IH]; [done|].
  destruct ps as [|p' ps].
  - simpl. rewrite <- (app_nil_r p) at 1.
    rewrite splitlines_from_unbroken_prefix by done. simpl.
    destruct p as [|c p]; [done|]. simpl map. rewrite Hstrip. done.
  - assert (Hjoin : Cleaning.join [NEWLINE; NEWLINE] (p :: p' :: ps)
                    = p ++ NEWLINE :: NEWLINE
                        :: Cleaning.join [NEWLINE; NEWLINE] (p' :: ps)) by done.
    rewrite Hjoin, splitlines_from_unbroken_prefix by done.
    rewrite app_nil_l, splitlines_from_blank_line.
    cbn [map]. rewrite Hstrip. change (strip []) with (@nil N).
    destruct p as [|c p]; [done|]. cbn [nonblank]. by rewrite IH.
Qed.

(** X23.  To filter a second time changes nothing: [filter_paragraphs] gives
    back its own result unchanged. *)
Theorem filter_paragraphs_idempotent (text : pystr) :
  filter_paragraphs (filter_paragraphs text) = filter_paragraphs text.
Proof.
  unfold filter_paragraphs at 1 3. f_equal.
  destruct (paragraphs_are_kept_lines text) as (Hk & Hnd & _).
  assert (Hclean : Forall clean (paragraphs text)).
  { eapply Forall_impl; [exact Hk|]. intros p (Hp & Hstrip & _ & Hlen).
    split; [|split; [done|]].
    - intros ->. simpl in Hlen. lia.
    - pose proof (lines_of_unbroken text) as Hun.
      rewrite Forall_forall in Hun. by apply Hun. }
  unfold paragraphs at 1. unfold filtered_lines, filter_paragraphs.
  rewrite <- select_nonblank, (lines_of_join _ Hclean).
  rewrite select_all; [|done|].
  - simpl. unfold paragraphs. apply drop_footnotes_idem.
  - eapply Forall_impl; [exact Hk|]. intros p (_ & _ & Hrej & Hlen).
    split; [|split; [set_solver | done]].
    intros ->. simpl in Hlen. lia.
Qed.

End Filter.

(** Two equal lines, a short line, a line of thirty characters and two
    numbered lines at the end: the first of the equal lines and the line of
    thirty characters are the paragraphs. *)
Example filter_paragraphs_page :
  @filter_paragraphs digits_runtime
    (str "  The first paragraph of the page is long enough.  " ++ [13; 10]
     ++ str "The first paragraph of the page is long enough." ++ [NEWLINE]
     ++ str "too short" ++ [NEWLINE; NEWLINE]
     ++ str "Exactly thirty characters long" ++ [NEWLINE]
     ++ str "12 a numbered note that is long enough" ++ [NEWLINE]
     ++ str "13 another numbered note, long enough" ++ [NEWLINE])
  = str "The first paragraph of the page is long enough."
    ++ [NEWLINE; NEWLINE] ++ str "Exactly thirty characters long".
Proof. vm_compute. reflexivity. Qed.

End TextReservedFacts.
